(** * Icon-migration scripts of dungeon-delver: a shallow embedding

    The repository's migration scripts rewrite icon references in
    TypeScript data files.  Three text transformations are embedded here:

    - direct mode    ([replace_icons_in_file] of [apply_icon_updates.py] and
                      of [execute_wave4_updates.py]): [str.replace(_, _, 1)]
                      per mapping entry;
    - anchored mode  ([update_file] of [update_path_icons.py]): one
                      [re.sub(pattern, replacement, content, count=1)] per
                      mapping entry;
    - the section injector ([update_icons_constants], two copies).

    A Python [str] is modelled as a [string] whose characters are the code
    points below 256.  File access is modelled by a small state-and-error
    monad over a store of files that also records every write and every
    printed line. *)

From Stdlib Require Import List Arith Lia Bool Permutation Ascii String.
Import ListNotations.
Open Scope string_scope.

(* ================================================================== *)
(** * Python [str] operations *)
(* ================================================================== *)

Module PyStr.

(** [s[n:]] *)
Fixpoint skip (n : nat) (s : string) : string :=
  match n, s with
  | O, _ => s
  | S _, EmptyString => EmptyString
  | S n', String _ s' => skip n' s'
  end.

(** [s[:n]] *)
Fixpoint take (n : nat) (s : string) : string :=
  match n, s with
  | O, _ => EmptyString
  | S _, EmptyString => EmptyString
  | S n', String c s' => String c (take n' s')
  end.

(** [s.startswith(p)] *)
Definition startswith (p s : string) : bool := String.prefix p s.
Arguments startswith : simpl never.

(** [sub in s] *)
Fixpoint contains (sub s : string) : bool :=
  if startswith sub s then true
  else match s with
       | EmptyString => false
       | String _ s' => contains sub s'
       end.

(** [s.replace(old, new, 1)]: the leftmost occurrence only.  An empty
    [old] occurs at index 0. *)
Fixpoint replace_first (old new s : string) : string :=
  if startswith old s then new ++ skip (length old) s
  else match s with
       | EmptyString => EmptyString
       | String c s' => String c (replace_first old new s')
       end.

(** [s.replace(old, new)]: every occurrence, scanning left to right, the
    scan resuming after each replaced occurrence.  [pending] counts the
    characters of the current occurrence that are still to be passed
    over.  An empty [old] occurs before every character and at the end. *)
Fixpoint replace_from (old new : string) (pending : nat) (s : string) : string :=
  match s with
  | EmptyString =>
      match pending with
      | O => if startswith old EmptyString then new else EmptyString
      | S _ => EmptyString
      end
  | String c s' =>
      match pending with
      | S k => replace_from old new k s'
      | O =>
          if startswith old s then
            match old with
            | EmptyString => new ++ String c (replace_from old new 0 s')
            | String _ old' => new ++ replace_from old new (length old') s'
            end
          else String c (replace_from old new 0 s')
      end
  end.

Definition replace (old new s : string) : string := replace_from old new 0 s.

(** [sub] occurs in [s] at index [k] *)
Definition occurs_at (sub s : string) (k : nat) : Prop :=
  exists pre post, s = pre ++ sub ++ post /\ length pre = k.

(** [every p s]: all characters of [s] satisfy [p] *)
Fixpoint every (p : ascii -> bool) (s : string) : bool :=
  match s with
  | EmptyString => true
  | String c s' => p c && every p s'
  end.

End PyStr.

Import PyStr.

(* ================================================================== *)
(** * Files, printed lines and exceptions *)
(* ================================================================== *)

Module IO.

(** Exceptions the scripts can run into. *)
Inductive exn : Type :=
| FileNotFoundError   (* [open(path, 'r')] on a path that has no file *)
| IsADirectoryError   (* [open] on a directory *)
| PermissionError     (* [open] on a file that may not be opened *)
| UnicodeDecodeError  (* [f.read()] on bytes that are not text in the
                         encoding of the [open] *)
| TemplateError.      (* [re.error] / [IndexError] raised while [re.sub]
                         compiles its replacement template *)

(** What there is at a path: a file whose bytes decode to a text, a file
    whose bytes do not, a directory, or a file that may not be opened.  All
    four exist for [Path.exists]; only the first can be read. *)
Inductive file : Type :=
| Text (content : string)
| Undecodable
| Directory
| Forbidden.

(** The lines the scripts print, by message. *)
Inductive line : Type :=
| Processing (path : string)
| Replaced (replaced_count : nat)
| NoChangesMade
| NoChangesMadeTo (path : string)
| Updated (path : string)
| AlreadyExists
| Step2Header
| Added (path : string).

(** The world a script runs in: the files by path, the writes performed
    so far and the lines printed so far (both oldest first). *)
Record world : Type := mkWorld {
  files  : list (string * file);
  writes : list (string * string);
  stdout : list line
}.

Definition io (A : Type) : Type := world -> (exn + A) * world.

Definition ret {A : Type} (a : A) : io A := fun w => (inr a, w).

Definition bind {A B : Type} (c : io A) (k : A -> io B) : io B :=
  fun w =>
    match c w with
    | (inl e, w') => (inl e, w')
    | (inr a, w') => k a w'
    end.

(** A pure computation that may raise. *)
Definition lift {A : Type} (r : exn + A) : io A := fun w => (r, w).

(** What there is at [path], if anything. *)
Fixpoint find_file (path : string) (fs : list (string * file)) : option file :=
  match fs with
  | [] => None
  | (p, f) :: fs' => if (p =? path)%string then Some f else find_file path fs'
  end.

(** [Path(path).exists()] *)
Definition present (path : string) (fs : list (string * file)) : bool :=
  match find_file path fs with
  | Some _ => true
  | None => false
  end.

(** The text a read of [path] gives, when it gives one. *)
Definition lookup (path : string) (fs : list (string * file)) : option string :=
  match find_file path fs with
  | Some (Text content) => Some content
  | _ => None
  end.

(** What [open(path, 'r')] followed by [f.read()] raises where it gives
    no text. *)
Definition read_error (path : string) (fs : list (string * file)) : exn :=
  match find_file path fs with
  | Some Undecodable => UnicodeDecodeError
  | Some Directory => IsADirectoryError
  | Some Forbidden => PermissionError
  | _ => FileNotFoundError
  end.

(** The files after [content] has been written at [path]. *)
Fixpoint store (path content : string) (fs : list (string * file))
  : list (string * file) :=
  match fs with
  | [] => [(path, Text content)]
  | (p, f) :: fs' =>
      if (p =? path)%string then (p, Text content) :: fs'
      else (p, f) :: store path content fs'
  end.

(** [with open(path, 'r') as f: content = f.read()] *)
Definition read_file (path : string) : io string :=
  fun w =>
    match lookup path (files w) with
    | Some content => (inr content, w)
    | None => (inl (read_error path (files w)), w)
    end.

(** [with open(path, 'w') as f: f.write(content)]: the file is created
    or replaced; a directory or a file that may not be opened makes [open]
    raise. *)
Definition write_file (path content : string) : io unit :=
  fun w =>
    match find_file path (files w) with
    | Some Directory => (inl IsADirectoryError, w)
    | Some Forbidden => (inl PermissionError, w)
    | _ =>
        (inr tt, mkWorld (store path content (files w))
                         (writes w ++ [(path, content)])
                         (stdout w))
    end.

(** [print(...)] *)
Definition print (l : line) : io unit :=
  fun w => (inr tt, mkWorld (files w) (writes w) (stdout w ++ [l])).

End IO.

Import IO.

Declare Scope io_scope.
Delimit Scope io_scope with io.
Notation "x <- c ;; k" := (bind c (fun x => k))
  (at level 61, c at next level, right associativity) : io_scope.
Notation "c ;; k" := (bind c (fun _ => k))
  (at level 61, right associativity) : io_scope.

(* ================================================================== *)
(** * Mapping entries and the direct-mode patterns *)
(* ================================================================== *)

(** [re.escape] (Python 3.7 and later): a backslash before each of the
    characters [()[]{}?*+-|^$\.&~#], space, tab, newline, carriage return,
    vertical tab and form feed; every other character is kept. *)
Definition special_chars : list nat :=
  [9; 10; 11; 12; 13; 32; 35; 36; 38; 40; 41; 42; 43; 45; 46; 63;
   91; 92; 93; 94; 123; 124; 125; 126].

Definition is_special (c : ascii) : bool :=
  existsb (Nat.eqb (nat_of_ascii c)) special_chars.

Fixpoint re_escape (s : string) : string :=
  match s with
  | EmptyString => EmptyString
  | String c s' =>
      if is_special c then String "\" (String c (re_escape s'))
      else String c (re_escape s')
  end.

(** A mapping entry: [(old_icon, new_icon)] in direct mode,
    [(ability_id, new_icon)] in anchored mode. *)
Definition entry : Type := (string * string)%type.

(** [pattern = f"icon: '{re.escape(old_icon)}'"] *)
Definition direct_pattern (old_icon : string) : string :=
  "icon: '" ++ re_escape old_icon ++ "'".

(** [replacement = f"icon: '{new_icon}'"] *)
Definition direct_replacement (new_icon : string) : string :=
  "icon: '" ++ new_icon ++ "'".

(* ================================================================== *)
(** * The part of Python's [re] the anchored mode uses *)
(* ================================================================== *)

Module Re.

(** ** Character classes *)

(** [\s] on the code points below 256 *)
Definition is_space (c : ascii) : bool :=
  existsb (Nat.eqb (nat_of_ascii c))
          [9; 10; 11; 12; 13; 28; 29; 30; 31; 32; 133; 160].

(** [[\s\S]] *)
Definition any_char (c : ascii) : bool := true.

(** [[^']] *)
Definition not_quote (c : ascii) : bool := negb (c =? "'")%char.

(** ** Patterns *)

Inductive regex : Type :=
| Lit (l : string)                (* a run of literal characters *)
| Star (cls : ascii -> bool)      (* [cls*], greedy *)
| LazyStar (cls : ascii -> bool)  (* [cls*?] *)
| Plus (cls : ascii -> bool)      (* [cls+], greedy *)
| Cat (r1 r2 : regex)             (* [r1 r2] *)
| Group (r : regex).              (* [(r)]: the capture group, number 1 *)

(** The number of capture groups of a pattern. *)
Fixpoint groups (r : regex) : nat :=
  match r with
  | Cat r1 r2 => groups r1 + groups r2
  | Group r1 => S (groups r1)
  | _ => 0
  end.

(** ** The backtracking matcher

    [exec r s g k] matches [r] at the head of [s]; [g] is what group 1
    holds so far, and the continuation [k] stands for the rest of the
    pattern: it is given what remains of the input and the group.  When
    [k] fails the matcher backtracks into [r]: a greedy repetition gives
    back one character at a time, a lazy one takes one more. *)

Section Matcher.

Context {R : Type}.

Fixpoint greedy (cls : ascii -> bool) (s : string) (k : string -> option R)
  : option R :=
  match s with
  | String c s' =>
      if cls c then
        match greedy cls s' k with
        | Some r => Some r
        | None => k s
        end
      else k s
  | EmptyString => k s
  end.

Fixpoint lazy (cls : ascii -> bool) (s : string) (k : string -> option R)
  : option R :=
  match k s with
  | Some r => Some r
  | None =>
      match s with
      | String c s' => if cls c then lazy cls s' k else None
      | EmptyString => None
      end
  end.

Fixpoint exec (r : regex) (s : string) (g : option string)
         (k : string -> option string -> option R) : option R :=
  match r with
  | Lit l => if startswith l s then k (skip (length l) s) g else None
  | Star cls => greedy cls s (fun s' => k s' g)
  | LazyStar cls => lazy cls s (fun s' => k s' g)
  | Plus cls =>
      match s with
      | String c s' => if cls c then greedy cls s' (fun s'' => k s'' g) else None
      | EmptyString => None
      end
  | Cat r1 r2 => exec r1 s g (fun s' g' => exec r2 s' g' k)
  | Group r1 =>
      exec r1 s g (fun s' _ => k s' (Some (take (length s - length s') s)))
  end.

End Matcher.

(** A match: the text matched (group 0), group 1, and the input after
    the match. *)
Record match_object : Type := mkMatch {
  group0 : string;
  group1 : option string;
  rest   : string
}.

(** [pattern.match(s)]: a match at the head of [s]. *)
Definition match_at (r : regex) (s : string) : option match_object :=
  exec r s None
       (fun s' g => Some (mkMatch (take (length s - length s') s) g s')).

(** [pattern.search(s)]: the leftmost match, as the text before it and
    the match. *)
Fixpoint search (r : regex) (s : string) : option (string * match_object) :=
  match match_at r s with
  | Some m => Some (EmptyString, m)
  | None =>
      match s with
      | EmptyString => None
      | String c s' =>
          match search r s' with
          | Some (before, m) => Some (String c before, m)
          | None => None
          end
      end
  end.

(** ** Replacement templates *)

(** The tokens of a template: a character, or a backslash with the
    character after it.  A backslash at the very end is an error. *)
Fixpoint tokens (s : string) : exn + list string :=
  match s with
  | EmptyString => inr []
  | String c s' =>
      if (c =? "\")%char then
        match s' with
        | EmptyString => inl TemplateError
        | String d s'' =>
            match tokens s'' with
            | inl e => inl e
            | inr ts => inr (String c (String d EmptyString) :: ts)
            end
        end
      else
        match tokens s' with
        | inl e => inl e
        | inr ts => inr (String c EmptyString :: ts)
        end
  end.

Inductive piece : Type :=
| Literal (s : string)
| GroupRef (index : nat).

Definition in_range (lo hi : nat) (c : ascii) : bool :=
  ((lo <=? nat_of_ascii c) && (nat_of_ascii c <=? hi))%nat.

Definition is_digit : ascii -> bool := in_range 48 57.
Definition is_octdigit : ascii -> bool := in_range 48 55.
Definition is_ascii_letter (c : ascii) : bool :=
  in_range 65 90 c || in_range 97 122 c.

Definition digit_value (c : ascii) : nat := nat_of_ascii c - 48.

(** [int(s, base)] for a string of digits *)
Definition int_of (base : nat) (s : string) : nat :=
  fold_left (fun n c => base * n + digit_value c) (list_ascii_of_string s) 0.

(** A token that is one digit (octal digit) character. *)
Definition digit_token (t : string) : bool :=
  match t with
  | String c EmptyString => is_digit c
  | _ => false
  end.

Definition octdigit_token (t : string) : bool :=
  match t with
  | String c EmptyString => is_octdigit c
  | _ => false
  end.

(** The escapes that stand for one character; any other backslash-letter
    is an error, and a backslash before any other character is kept with
    that character. *)
Definition simple_escape (c : ascii) : exn + string :=
  match nat_of_ascii c with
  | 97 (* a *) => inr (String (ascii_of_nat 7) "")
  | 98 (* b *) => inr (String (ascii_of_nat 8) "")
  | 102 (* f *) => inr (String (ascii_of_nat 12) "")
  | 110 (* n *) => inr (String (ascii_of_nat 10) "")
  | 114 (* r *) => inr (String (ascii_of_nat 13) "")
  | 116 (* t *) => inr (String (ascii_of_nat 9) "")
  | 118 (* v *) => inr (String (ascii_of_nat 11) "")
  | 92 (* \ *) => inr "\"
  | _ => if is_ascii_letter c then inl TemplateError
         else inr (String "\" (String c ""))
  end.

Definition cons_piece (p : piece) (r : exn + list piece) : exn + list piece :=
  match r with
  | inl e => inl e
  | inr ps => inr (p :: ps)
  end.

(** A group reference: the group must exist in the pattern. *)
Definition add_group (ngroups index : nat) (r : exn + list piece)
  : exn + list piece :=
  if (ngroups <? index)%nat then inl TemplateError else cons_piece (GroupRef index) r.

(** [parse_template], for a pattern with [ngroups] groups, none of them
    named.  [name] is [Some acc] while the name of a [\g<...>] reference
    is being read.  A name has to be a run of ASCII digits (as of Python
    3.12; earlier versions let a few more spellings of a number pass with
    a warning). *)
Fixpoint parse_tokens (ngroups : nat) (name : option string) (ts : list string)
  : exn + list piece :=
  match name, ts with
  | Some acc, [] => inl TemplateError
  | Some acc, t :: ts' =>
      if (t =? ">")%string then
        match acc with
        | EmptyString => inl TemplateError
        | _ =>
            if every is_digit acc then
              add_group ngroups (int_of 10 acc) (parse_tokens ngroups None ts')
            else inl TemplateError
        end
      else parse_tokens ngroups (Some (acc ++ t)) ts'
  | None, [] => inr []
  | None, t :: ts' =>
      match t with
      | String b (String c EmptyString) =>
          if (c =? "g")%char then
            match ts' with
            | t1 :: ts1 =>
                if (t1 =? "<")%string then parse_tokens ngroups (Some "") ts1
                else inl TemplateError
            | [] => inl TemplateError
            end
          else if (c =? "0")%char then
            match ts' with
            | t1 :: ts1 =>
                if octdigit_token t1 then
                  match ts1 with
                  | t2 :: ts2 =>
                      if octdigit_token t2 then
                        cons_piece
                          (Literal (String (ascii_of_nat
                             (int_of 8 (t1 ++ t2) mod 256)) ""))
                          (parse_tokens ngroups None ts2)
                      else
                        cons_piece
                          (Literal (String (ascii_of_nat (int_of 8 t1)) ""))
                          (parse_tokens ngroups None ts1)
                  | [] =>
                      cons_piece
                        (Literal (String (ascii_of_nat (int_of 8 t1)) ""))
                        (parse_tokens ngroups None ts1)
                  end
                else
                  cons_piece (Literal (String (ascii_of_nat 0) ""))
                             (parse_tokens ngroups None ts')
            | [] => inr [Literal (String (ascii_of_nat 0) "")]
            end
          else if is_digit c then
            match ts' with
            | t1 :: ts1 =>
                if digit_token t1 then
                  match ts1 with
                  | t2 :: ts2 =>
                      if is_octdigit c && octdigit_token t1 && octdigit_token t2
                      then
                        let v := int_of 8 (String c (t1 ++ t2)) in
                        if (255 <? v)%nat then inl TemplateError
                        else cons_piece (Literal (String (ascii_of_nat v) ""))
                                        (parse_tokens ngroups None ts2)
                      else
                        add_group ngroups (int_of 10 (String c t1))
                                  (parse_tokens ngroups None ts1)
                  | [] =>
                      add_group ngroups (int_of 10 (String c t1))
                                (parse_tokens ngroups None ts1)
                  end
                else
                  add_group ngroups (digit_value c)
                            (parse_tokens ngroups None ts')
            | [] => add_group ngroups (digit_value c) (inr [])
            end
          else
            match simple_escape c with
            | inl e => inl e
            | inr l => cons_piece (Literal l) (parse_tokens ngroups None ts')
            end
      | _ => cons_piece (Literal t) (parse_tokens ngroups None ts')
      end
  end.

Definition parse_template (repl : string) (ngroups : nat) : exn + list piece :=
  match tokens repl with
  | inl e => inl e
  | inr ts => parse_tokens ngroups None ts
  end.

(** [match.expand]: the pieces filled in from a match. *)
Definition expand_piece (m : match_object) (p : piece) : string :=
  match p with
  | Literal s => s
  | GroupRef 0 => group0 m
  | GroupRef _ =>
      match group1 m with
      | Some g => g
      | None => EmptyString
      end
  end.

Fixpoint expand (ps : list piece) (m : match_object) : string :=
  match ps with
  | [] => EmptyString
  | p :: ps' => expand_piece m p ++ expand ps' m
  end.

(** [re.sub(pattern, repl, s, count=1)]: the template is compiled first,
    whether or not the pattern matches; then the leftmost match, if there
    is one, is replaced by the expanded template. *)
Definition sub1 (pattern : regex) (repl s : string) : exn + string :=
  match parse_template repl (groups pattern) with
  | inl e => inl e
  | inr ps =>
      match search pattern s with
      | None => inr s
      | Some (before, m) => inr (before ++ expand ps m ++ rest m)
      end
  end.

End Re.

(* ================================================================== *)
(** * The scripts *)
(* ================================================================== *)

(** ** The section injector, common to its two copies *)

(** The literal the guard looks for: ["PATH_ABILITY_ICONS" in content]. *)
Definition block_name : string := "PATH_ABILITY_ICONS".

(** [insertion_marker] ([insertion_point] in [execute_wave4_updates.py]) *)
Definition insertion_marker : string := "// Export all icon constants".

Definition old_export : string := "export const ALL_ICONS = {
  ...STAT_ICONS,
  ...STATUS_ICONS,
  ...POWER_ICONS,
  ...ABILITY_ICONS,
  ...ITEM_ICONS,
  ...UI_ICONS,
  ...CLASS_ICONS,
} as const;".

Definition new_export : string := "export const ALL_ICONS = {
  ...STAT_ICONS,
  ...STATUS_ICONS,
  ...POWER_ICONS,
  ...ABILITY_ICONS,
  ...ITEM_ICONS,
  ...UI_ICONS,
  ...CLASS_ICONS,
  ...PATH_ABILITY_ICONS,
} as const;".

(** The two [content.replace] calls: the block goes before the marker,
    then the aggregate export is rewritten. *)
Definition inject_content (section content : string) : string :=
  let content := replace insertion_marker (section ++ insertion_marker) content in
  replace old_export new_export content.

(** The body of [update_icons_constants] from the read on; [section] is
    the block to insert, [already] and [done] are the lines printed. *)
Definition inject (filepath section : string) (already done : line) : io bool :=
  (content <- read_file filepath ;;
   if contains block_name content then
     (print already ;; ret false)
   else
     let content := inject_content section content in
     (write_file filepath content ;;
      print done ;;
      ret true))%io.

(** ** [apply_icon_updates.py] *)

Module apply_icon_updates.

(** One turn of the loop: [content = content.replace(pattern, replacement, 1)]. *)
Definition replace_entry (e : entry) (content : string) : string :=
  let '(old_icon, new_icon) := e in
  replace_first (direct_pattern old_icon) (direct_replacement new_icon) content.

(** The whole loop over [replacements]. *)
Definition replace_all_entries (replacements : list entry) (content : string)
  : string :=
  fold_left (fun content e => replace_entry e content) replacements content.

Definition replace_icons_in_file (filepath : string) (replacements : list entry)
  : io bool :=
  (content <- read_file filepath ;;
   let original := content in
   let content := replace_all_entries replacements content in
   if negb (content =? original)%string then
     (write_file filepath content ;; ret true)
   else ret false)%io.

End apply_icon_updates.

(** ** [execute_wave4_updates.py] *)

Module execute_wave4_updates.

(** One turn of the loop, on the pair [(content, replaced_count)]. *)
Definition replace_entry (e : entry) (st : string * nat) : string * nat :=
  let '(old_icon, new_icon) := e in
  let '(content, replaced_count) := st in
  let pattern := direct_pattern old_icon in
  let replacement := direct_replacement new_icon in
  if contains pattern content then
    (replace_first pattern replacement content, S replaced_count)
  else (content, replaced_count).

Definition replace_all_entries (replacements : list entry) (content : string)
  : string * nat :=
  fold_left (fun st e => replace_entry e st) replacements (content, 0).

Definition replace_icons_in_file (filepath : string) (replacements : list entry)
  : io bool :=
  (print (Processing filepath) ;;
   content <- read_file filepath ;;
   let original := content in
   let '(content, replaced_count) := replace_all_entries replacements content in
   if negb (content =? original)%string then
     (write_file filepath content ;;
      print (Replaced replaced_count) ;;
      ret true)
   else (print NoChangesMade ;; ret false))%io.

Definition filepath : string := "src/constants/icons.ts".

Definition path_ability_icons : string := "
// Path ability icons by class
export const PATH_ABILITY_ICONS = {
  // Warrior - Berserker path
  WARRIOR_BERSERKER: 'ability-paths-warrior-berserker',
  WARRIOR_BLOOD_RAGE: 'ability-paths-warrior-blood_rage',
  WARRIOR_PAIN_FUELED: 'ability-paths-warrior-pain_fueled',
  WARRIOR_ADRENALINE_RUSH: 'ability-paths-warrior-adrenaline_rush',
  WARRIOR_BLOODBATH: 'ability-paths-warrior-bloodbath',
  WARRIOR_RECKLESS_FURY: 'ability-paths-warrior-reckless_fury',
  WARRIOR_BATTLE_TRANCE: 'ability-paths-warrior-battle_trance',
  WARRIOR_UNDYING_FURY: 'ability-paths-warrior-undying_fury',
  WARRIOR_WARLORD: 'ability-paths-warrior-warlord',
  WARRIOR_INTIMIDATING_PRESENCE: 'ability-paths-warrior-intimidating_presence',
  WARRIOR_WARLORD_COMMAND: 'ability-paths-warrior-warlord_command',
  WARRIOR_CRUSHING_BLOWS: 'ability-paths-warrior-crushing_blows',
  WARRIOR_EXECUTIONER: 'ability-paths-warrior-executioner',
  WARRIOR_EXECUTIONERS_STRIKE: 'ability-paths-warrior-executioners_strike',
  WARRIOR_KILLING_SPREE: 'ability-paths-warrior-killing_spree',
  WARRIOR_MORTAL_WOUNDS: 'ability-paths-warrior-mortal_wounds',

  // Warrior - Guardian path
  WARRIOR_GUARDIAN: 'ability-paths-warrior-guardian',
  WARRIOR_IRON_SKIN: 'ability-paths-warrior-iron_skin',
  WARRIOR_REGENERATION: 'ability-paths-warrior-regeneration',
  WARRIOR_DAMAGE_REDUCTION: 'ability-paths-warrior-damage_reduction',
  WARRIOR_AUTO_BLOCK: 'ability-paths-warrior-auto_block',
  WARRIOR_LAST_STAND: 'ability-paths-warrior-last_stand',
  WARRIOR_ENDURANCE: 'ability-paths-warrior-endurance',
  WARRIOR_IMMORTAL_GUARDIAN: 'ability-paths-warrior-immortal_guardian',
  WARRIOR_FORTRESS: 'ability-paths-warrior-fortress',
  WARRIOR_FORTRESS_STANCE: 'ability-paths-warrior-fortress_stance',
  WARRIOR_IMMOVABLE_OBJECT: 'ability-paths-warrior-immovable_object',
  WARRIOR_HEALING_AURA: 'ability-paths-warrior-healing_aura',
  WARRIOR_AVENGER: 'ability-paths-warrior-avenger',
  WARRIOR_THORNS: 'ability-paths-warrior-thorns',
  WARRIOR_VENGEFUL_STRIKE: 'ability-paths-warrior-vengeful_strike',
  WARRIOR_RETRIBUTION: 'ability-paths-warrior-retribution',

  // Mage - Archmage path
  MAGE_ARCHMAGE: 'ability-paths-mage-archmage',
  MAGE_ARCHMAGE_SPELL_POWER: 'ability-paths-mage-archmage_spell_power',
  MAGE_ARCHMAGE_MANA_EFFICIENCY: 'ability-paths-mage-archmage_mana_efficiency',
  MAGE_ARCHMAGE_COOLDOWN_MASTERY: 'ability-paths-mage-archmage_cooldown_mastery',
  MAGE_ARCHMAGE_SPELL_CRIT: 'ability-paths-mage-archmage_spell_crit',
  MAGE_ELEMENTALIST: 'ability-paths-mage-elementalist',
  MAGE_ELEMENTALIST_FIRE_MASTERY: 'ability-paths-mage-elementalist_fire_mastery',
  MAGE_ELEMENTALIST_ICE_MASTERY: 'ability-paths-mage-elementalist_ice_mastery',
  MAGE_ELEMENTALIST_LIGHTNING_MASTERY: 'ability-paths-mage-elementalist_lightning_mastery',
  MAGE_ELEMENTALIST_ELEMENTAL_CONVERGENCE: 'ability-paths-mage-elementalist_elemental_convergence',
  MAGE_DESTROYER: 'ability-paths-mage-destroyer',
  MAGE_DESTROYER_OVERWHELMING_POWER: 'ability-paths-mage-destroyer_overwhelming_power',
  MAGE_DESTROYER_SPELL_SURGE: 'ability-paths-mage-destroyer_spell_surge',
  MAGE_DESTROYER_GLASS_CANNON: 'ability-paths-mage-destroyer_glass_cannon',
  MAGE_DESTROYER_APOCALYPSE: 'ability-paths-mage-destroyer_apocalypse',

  // Mage - Enchanter path
  MAGE_ENCHANTER: 'ability-paths-mage-enchanter',
  MAGE_ENCHANTER_PASSIVE_POWER: 'ability-paths-mage-enchanter_passive_power',
  MAGE_ENCHANTER_MANA_REGEN: 'ability-paths-mage-enchanter_mana_regen',
  MAGE_ENCHANTER_DAMAGE_AURA: 'ability-paths-mage-enchanter_damage_aura',
  MAGE_ENCHANTER_DOT_AMPLIFY: 'ability-paths-mage-enchanter_dot_amplify',
  MAGE_SPELLWEAVER: 'ability-paths-mage-spellweaver',
  MAGE_SPELLWEAVER_AUTO_CAST: 'ability-paths-mage-spellweaver_auto_cast',
  MAGE_SPELLWEAVER_CHAIN_CAST: 'ability-paths-mage-spellweaver_chain_cast',
  MAGE_SPELLWEAVER_EFFICIENT_AUTOMATION: 'ability-paths-mage-spellweaver_efficient_automation',
  MAGE_SPELLWEAVER_ARCANE_ASSEMBLY: 'ability-paths-mage-spellweaver_arcane_assembly',
  MAGE_SAGE: 'ability-paths-mage-sage',
  MAGE_SAGE_WISDOM_AURA: 'ability-paths-mage-sage_wisdom_aura',
  MAGE_SAGE_TOXIC_FIELD: 'ability-paths-mage-sage_toxic_field',
  MAGE_SAGE_ARCANE_FIELD: 'ability-paths-mage-sage_arcane_field',
  MAGE_SAGE_OVERWHELMING_PRESENCE: 'ability-paths-mage-sage_overwhelming_presence',

  // Rogue - Assassin path
  ROGUE_ASSASSIN: 'ability-paths-rogue-assassin',
  ROGUE_SHADOWBLADE: 'ability-paths-rogue-shadowblade',
  ROGUE_NIGHTSTALKER: 'ability-paths-rogue-nightstalker',
  ROGUE_ASSASSIN_VITAL_STRIKE: 'ability-paths-rogue-rogue_assassin_vital_strike',
  ROGUE_ASSASSIN_AMBUSH: 'ability-paths-rogue-rogue_assassin_ambush',
  ROGUE_ASSASSIN_PRECISION: 'ability-paths-rogue-rogue_assassin_precision',
  ROGUE_ASSASSIN_RUTHLESS_EFFICIENCY: 'ability-paths-rogue-rogue_assassin_ruthless_efficiency',
  ROGUE_ASSASSIN_KILLING_SPREE: 'ability-paths-rogue-rogue_assassin_killing_spree',
  ROGUE_ASSASSIN_EXECUTE: 'ability-paths-rogue-rogue_assassin_execute',
  ROGUE_ASSASSIN_SHADOW_DANCE: 'ability-paths-rogue-rogue_assassin_shadow_dance',
  ROGUE_ASSASSIN_DEATH_MARK: 'ability-paths-rogue-rogue_assassin_death_mark',

  // Rogue - Duelist path
  ROGUE_DUELIST: 'ability-paths-rogue-duelist',
  ROGUE_SWASHBUCKLER: 'ability-paths-rogue-swashbuckler',
  ROGUE_PHANTOM: 'ability-paths-rogue-phantom',
  ROGUE_DUELIST_RIPOSTE: 'ability-paths-rogue-rogue_duelist_riposte',
  ROGUE_DUELIST_EN_GARDE: 'ability-paths-rogue-rogue_duelist_en_garde',
  ROGUE_DUELIST_BLADE_DANCER: 'ability-paths-rogue-rogue_duelist_blade_dancer',
  ROGUE_DUELIST_EVASION: 'ability-paths-rogue-rogue_duelist_evasion',
  ROGUE_DUELIST_UNCANNY_DODGE: 'ability-paths-rogue-rogue_duelist_uncanny_dodge',
  ROGUE_DUELIST_BLUR: 'ability-paths-rogue-rogue_duelist_blur',
  ROGUE_DUELIST_PERFECT_FORM: 'ability-paths-rogue-rogue_duelist_perfect_form',
  ROGUE_DUELIST_SHADOWSTEP: 'ability-paths-rogue-rogue_duelist_shadowstep',

  // Paladin - Crusader path
  PALADIN_CRUSADER: 'ability-paths-paladin-paladin_crusader',
  PALADIN_TEMPLAR: 'ability-paths-paladin-templar',
  PALADIN_INQUISITOR: 'ability-paths-paladin-inquisitor',
  PALADIN_HOLY_STRIKE: 'ability-paths-paladin-holy_strike',
  PALADIN_RIGHTEOUS_FURY: 'ability-paths-paladin-righteous_fury',
  PALADIN_SMITE_THE_WICKED: 'ability-paths-paladin-smite_the_wicked',
  PALADIN_MARK_OF_JUDGMENT: 'ability-paths-paladin-mark_of_judgment',
  PALADIN_WEAKENING_LIGHT: 'ability-paths-paladin-weakening_light',
  PALADIN_DIVINE_CONDEMNATION: 'ability-paths-paladin-divine_condemnation',
  PALADIN_CRUSADER_HOLY_AVENGER: 'ability-paths-paladin-crusader_holy_avenger',
  PALADIN_CRUSADER_DIVINE_WRATH: 'ability-paths-paladin-crusader_divine_wrath',

  // Paladin - Protector path
  PALADIN_PROTECTOR: 'ability-paths-paladin-paladin_protector',
  PALADIN_SENTINEL: 'ability-paths-paladin-sentinel',
  PALADIN_MARTYR: 'ability-paths-paladin-martyr',
  PALADIN_BLESSED_RECOVERY: 'ability-paths-paladin-blessed_recovery',
  PALADIN_HEALING_WARD: 'ability-paths-paladin-healing_ward',
  PALADIN_SHIELD_OF_RENEWAL: 'ability-paths-paladin-shield_of_renewal',
  PALADIN_ENDURING_FAITH: 'ability-paths-paladin-enduring_faith',
  PALADIN_ARMOR_OF_SACRIFICE: 'ability-paths-paladin-armor_of_sacrifice',
  PALADIN_LAST_STAND: 'ability-paths-paladin-last_stand',
  PALADIN_PROTECTOR_ETERNAL_GUARDIAN: 'ability-paths-paladin-protector_eternal_guardian',
  PALADIN_PROTECTOR_UNBREAKABLE_WILL: 'ability-paths-paladin-protector_unbreakable_will',
} as const;

".

Definition update_icons_constants : io bool :=
  (print Step2Header ;;
   inject filepath path_ability_icons AlreadyExists (Added filepath))%io.

End execute_wave4_updates.

(** ** [update_icons_constants.py] *)

Module update_icons_constants.

Definition filepath : string :=
  "/Users/gilbrowdy/rogue-wave4-data/src/constants/icons.ts".

Definition path_ability_icons_section : string := "
// Path ability icons by class
export const PATH_ABILITY_ICONS = {
  // Warrior - Berserker path
  WARRIOR_BERSERKER: 'ability-paths-warrior-berserker',
  WARRIOR_BLOOD_RAGE: 'ability-paths-warrior-blood_rage',
  WARRIOR_PAIN_FUELED: 'ability-paths-warrior-pain_fueled',
  WARRIOR_ADRENALINE_RUSH: 'ability-paths-warrior-adrenaline_rush',
  WARRIOR_BLOODBATH: 'ability-paths-warrior-bloodbath',
  WARRIOR_RECKLESS_FURY: 'ability-paths-warrior-reckless_fury',
  WARRIOR_BATTLE_TRANCE: 'ability-paths-warrior-battle_trance',
  WARRIOR_UNDYING_FURY: 'ability-paths-warrior-undying_fury',

  // Warrior - Berserker subpaths
  WARRIOR_WARLORD: 'ability-paths-warrior-warlord',
  WARRIOR_INTIMIDATING_PRESENCE: 'ability-paths-warrior-intimidating_presence',
  WARRIOR_WARLORD_COMMAND: 'ability-paths-warrior-warlord_command',
  WARRIOR_CRUSHING_BLOWS: 'ability-paths-warrior-crushing_blows',

  WARRIOR_EXECUTIONER: 'ability-paths-warrior-executioner',
  WARRIOR_EXECUTIONERS_STRIKE: 'ability-paths-warrior-executioners_strike',
  WARRIOR_KILLING_SPREE: 'ability-paths-warrior-killing_spree',
  WARRIOR_MORTAL_WOUNDS: 'ability-paths-warrior-mortal_wounds',

  // Warrior - Guardian path
  WARRIOR_GUARDIAN: 'ability-paths-warrior-guardian',
  WARRIOR_IRON_SKIN: 'ability-paths-warrior-iron_skin',
  WARRIOR_REGENERATION: 'ability-paths-warrior-regeneration',
  WARRIOR_DAMAGE_REDUCTION: 'ability-paths-warrior-damage_reduction',
  WARRIOR_AUTO_BLOCK: 'ability-paths-warrior-auto_block',
  WARRIOR_LAST_STAND: 'ability-paths-warrior-last_stand',
  WARRIOR_ENDURANCE: 'ability-paths-warrior-endurance',
  WARRIOR_IMMORTAL_GUARDIAN: 'ability-paths-warrior-immortal_guardian',

  // Warrior - Guardian subpaths
  WARRIOR_FORTRESS: 'ability-paths-warrior-fortress',
  WARRIOR_FORTRESS_STANCE: 'ability-paths-warrior-fortress_stance',
  WARRIOR_IMMOVABLE_OBJECT: 'ability-paths-warrior-immovable_object',
  WARRIOR_HEALING_AURA: 'ability-paths-warrior-healing_aura',

  WARRIOR_AVENGER: 'ability-paths-warrior-avenger',
  WARRIOR_THORNS: 'ability-paths-warrior-thorns',
  WARRIOR_VENGEFUL_STRIKE: 'ability-paths-warrior-vengeful_strike',
  WARRIOR_RETRIBUTION: 'ability-paths-warrior-retribution',

  // Mage - Archmage path
  MAGE_ARCHMAGE: 'ability-paths-mage-archmage',
  MAGE_ARCHMAGE_SPELL_POWER: 'ability-paths-mage-archmage_spell_power',
  MAGE_ARCHMAGE_MANA_EFFICIENCY: 'ability-paths-mage-archmage_mana_efficiency',
  MAGE_ARCHMAGE_COOLDOWN_MASTERY: 'ability-paths-mage-archmage_cooldown_mastery',
  MAGE_ARCHMAGE_SPELL_CRIT: 'ability-paths-mage-archmage_spell_crit',

  // Mage - Archmage subpaths
  MAGE_ELEMENTALIST: 'ability-paths-mage-elementalist',
  MAGE_ELEMENTALIST_FIRE_MASTERY: 'ability-paths-mage-elementalist_fire_mastery',
  MAGE_ELEMENTALIST_ICE_MASTERY: 'ability-paths-mage-elementalist_ice_mastery',
  MAGE_ELEMENTALIST_LIGHTNING_MASTERY: 'ability-paths-mage-elementalist_lightning_mastery',
  MAGE_ELEMENTALIST_ELEMENTAL_CONVERGENCE: 'ability-paths-mage-elementalist_elemental_convergence',

  MAGE_DESTROYER: 'ability-paths-mage-destroyer',
  MAGE_DESTROYER_OVERWHELMING_POWER: 'ability-paths-mage-destroyer_overwhelming_power',
  MAGE_DESTROYER_SPELL_SURGE: 'ability-paths-mage-destroyer_spell_surge',
  MAGE_DESTROYER_GLASS_CANNON: 'ability-paths-mage-destroyer_glass_cannon',
  MAGE_DESTROYER_APOCALYPSE: 'ability-paths-mage-destroyer_apocalypse',

  // Mage - Enchanter path
  MAGE_ENCHANTER: 'ability-paths-mage-enchanter',
  MAGE_ENCHANTER_PASSIVE_POWER: 'ability-paths-mage-enchanter_passive_power',
  MAGE_ENCHANTER_MANA_REGEN: 'ability-paths-mage-enchanter_mana_regen',
  MAGE_ENCHANTER_DAMAGE_AURA: 'ability-paths-mage-enchanter_damage_aura',
  MAGE_ENCHANTER_DOT_AMPLIFY: 'ability-paths-mage-enchanter_dot_amplify',

  // Mage - Enchanter subpaths
  MAGE_SPELLWEAVER: 'ability-paths-mage-spellweaver',
  MAGE_SPELLWEAVER_AUTO_CAST: 'ability-paths-mage-spellweaver_auto_cast',
  MAGE_SPELLWEAVER_CHAIN_CAST: 'ability-paths-mage-spellweaver_chain_cast',
  MAGE_SPELLWEAVER_EFFICIENT_AUTOMATION: 'ability-paths-mage-spellweaver_efficient_automation',
  MAGE_SPELLWEAVER_ARCANE_ASSEMBLY: 'ability-paths-mage-spellweaver_arcane_assembly',

  MAGE_SAGE: 'ability-paths-mage-sage',
  MAGE_SAGE_WISDOM_AURA: 'ability-paths-mage-sage_wisdom_aura',
  MAGE_SAGE_TOXIC_FIELD: 'ability-paths-mage-sage_toxic_field',
  MAGE_SAGE_ARCANE_FIELD: 'ability-paths-mage-sage_arcane_field',
  MAGE_SAGE_OVERWHELMING_PRESENCE: 'ability-paths-mage-sage_overwhelming_presence',

  // Rogue - Assassin path
  ROGUE_ASSASSIN: 'ability-paths-rogue-assassin',
  ROGUE_ASSASSIN_VITAL_STRIKE: 'ability-paths-rogue-rogue_assassin_vital_strike',
  ROGUE_ASSASSIN_AMBUSH: 'ability-paths-rogue-rogue_assassin_ambush',
  ROGUE_ASSASSIN_PRECISION: 'ability-paths-rogue-rogue_assassin_precision',
  ROGUE_ASSASSIN_RUTHLESS_EFFICIENCY: 'ability-paths-rogue-rogue_assassin_ruthless_efficiency',
  ROGUE_ASSASSIN_KILLING_SPREE: 'ability-paths-rogue-rogue_assassin_killing_spree',
  ROGUE_ASSASSIN_EXECUTE: 'ability-paths-rogue-rogue_assassin_execute',
  ROGUE_ASSASSIN_SHADOW_DANCE: 'ability-paths-rogue-rogue_assassin_shadow_dance',
  ROGUE_ASSASSIN_DEATH_MARK: 'ability-paths-rogue-rogue_assassin_death_mark',

  // Rogue - Assassin subpaths
  ROGUE_SHADOWBLADE: 'ability-paths-rogue-shadowblade',
  ROGUE_NIGHTSTALKER: 'ability-paths-rogue-nightstalker',

  // Rogue - Duelist path
  ROGUE_DUELIST: 'ability-paths-rogue-duelist',
  ROGUE_DUELIST_RIPOSTE: 'ability-paths-rogue-rogue_duelist_riposte',
  ROGUE_DUELIST_EN_GARDE: 'ability-paths-rogue-rogue_duelist_en_garde',
  ROGUE_DUELIST_BLADE_DANCER: 'ability-paths-rogue-rogue_duelist_blade_dancer',
  ROGUE_DUELIST_EVASION: 'ability-paths-rogue-rogue_duelist_evasion',
  ROGUE_DUELIST_UNCANNY_DODGE: 'ability-paths-rogue-rogue_duelist_uncanny_dodge',
  ROGUE_DUELIST_BLUR: 'ability-paths-rogue-rogue_duelist_blur',
  ROGUE_DUELIST_PERFECT_FORM: 'ability-paths-rogue-rogue_duelist_perfect_form',
  ROGUE_DUELIST_SHADOWSTEP: 'ability-paths-rogue-rogue_duelist_shadowstep',

  // Rogue - Duelist subpaths
  ROGUE_SWASHBUCKLER: 'ability-paths-rogue-swashbuckler',
  ROGUE_PHANTOM: 'ability-paths-rogue-phantom',

  // Paladin - Crusader path
  PALADIN_CRUSADER: 'ability-paths-paladin-paladin_crusader',
  PALADIN_HOLY_STRIKE: 'ability-paths-paladin-holy_strike',
  PALADIN_RIGHTEOUS_FURY: 'ability-paths-paladin-righteous_fury',
  PALADIN_SMITE_THE_WICKED: 'ability-paths-paladin-smite_the_wicked',
  PALADIN_MARK_OF_JUDGMENT: 'ability-paths-paladin-mark_of_judgment',
  PALADIN_WEAKENING_LIGHT: 'ability-paths-paladin-weakening_light',
  PALADIN_DIVINE_CONDEMNATION: 'ability-paths-paladin-divine_condemnation',
  PALADIN_CRUSADER_HOLY_AVENGER: 'ability-paths-paladin-crusader_holy_avenger',
  PALADIN_CRUSADER_DIVINE_WRATH: 'ability-paths-paladin-crusader_divine_wrath',

  // Paladin - Crusader subpaths
  PALADIN_TEMPLAR: 'ability-paths-paladin-templar',
  PALADIN_INQUISITOR: 'ability-paths-paladin-inquisitor',

  // Paladin - Protector path
  PALADIN_PROTECTOR: 'ability-paths-paladin-paladin_protector',
  PALADIN_BLESSED_RECOVERY: 'ability-paths-paladin-blessed_recovery',
  PALADIN_HEALING_WARD: 'ability-paths-paladin-healing_ward',
  PALADIN_SHIELD_OF_RENEWAL: 'ability-paths-paladin-shield_of_renewal',
  PALADIN_ENDURING_FAITH: 'ability-paths-paladin-enduring_faith',
  PALADIN_ARMOR_OF_SACRIFICE: 'ability-paths-paladin-armor_of_sacrifice',
  PALADIN_LAST_STAND: 'ability-paths-paladin-last_stand',
  PALADIN_PROTECTOR_ETERNAL_GUARDIAN: 'ability-paths-paladin-protector_eternal_guardian',
  PALADIN_PROTECTOR_UNBREAKABLE_WILL: 'ability-paths-paladin-protector_unbreakable_will',

  // Paladin - Protector subpaths
  PALADIN_SENTINEL: 'ability-paths-paladin-sentinel',
  PALADIN_MARTYR: 'ability-paths-paladin-martyr',
} as const;

".

Definition update_icons_constants : io bool :=
  inject filepath path_ability_icons_section AlreadyExists (Updated filepath).

End update_icons_constants.

(** ** [update_path_icons.py] *)

Module update_path_icons.

(** [WARRIOR_ICONS] is written with braces: it is a Python [set] of
    pairs.  The list below holds its elements in the order of the source
    text; iterating over the set visits them in some order, which the
    source text does not fix (string hashes differ from one interpreter
    run to the next). *)
Definition WARRIOR_ICONS : list entry :=
  [
   ("blood_rage", "ability-paths-warrior-blood_rage");
   ("pain_fueled", "ability-paths-warrior-pain_fueled");
   ("adrenaline_rush", "ability-paths-warrior-adrenaline_rush");
   ("bloodbath", "ability-paths-warrior-bloodbath");
   ("reckless_fury", "ability-paths-warrior-reckless_fury");
   ("battle_trance", "ability-paths-warrior-battle_trance");
   ("intimidating_presence", "ability-paths-warrior-intimidating_presence");
   ("warlord_command", "ability-paths-warrior-warlord_command");
   ("crushing_blows", "ability-paths-warrior-crushing_blows");
   ("executioners_strike", "ability-paths-warrior-executioners_strike");
   ("killing_spree", "ability-paths-warrior-killing_spree");
   ("mortal_wounds", "ability-paths-warrior-mortal_wounds");
   ("undying_fury", "ability-paths-warrior-undying_fury");
   ("iron_skin", "ability-paths-warrior-iron_skin");
   ("regeneration", "ability-paths-warrior-regeneration");
   ("damage_reduction", "ability-paths-warrior-damage_reduction");
   ("auto_block", "ability-paths-warrior-auto_block");
   ("last_stand", "ability-paths-warrior-last_stand");
   ("endurance", "ability-paths-warrior-endurance");
   ("fortress_stance", "ability-paths-warrior-fortress_stance");
   ("immovable_object", "ability-paths-warrior-immovable_object");
   ("healing_aura", "ability-paths-warrior-healing_aura");
   ("thorns", "ability-paths-warrior-thorns");
   ("vengeful_strike", "ability-paths-warrior-vengeful_strike");
   ("retribution", "ability-paths-warrior-retribution");
   ("immortal_guardian", "ability-paths-warrior-immortal_guardian");
   ("warlord", "ability-paths-warrior-warlord");
   ("executioner", "ability-paths-warrior-executioner");
   ("fortress", "ability-paths-warrior-fortress");
   ("avenger", "ability-paths-warrior-avenger");
   ("berserker", "ability-paths-warrior-berserker");
   ("guardian", "ability-paths-warrior-guardian")
  ].

(** [pattern = rf"(id:\s*'{re.escape(ability_id)}',[\s\S]*?)icon:\s*'[^']+'"].
    The escaped id is a run of literal characters: [re.escape] makes every
    character of [ability_id] stand for itself. *)
Definition pattern (ability_id : string) : Re.regex :=
  Re.Cat
    (Re.Group
       (Re.Cat (Re.Lit "id:")
       (Re.Cat (Re.Star Re.is_space)
       (Re.Cat (Re.Lit ("'" ++ ability_id ++ "',"))
               (Re.LazyStar Re.any_char)))))
    (Re.Cat (Re.Lit "icon:")
    (Re.Cat (Re.Star Re.is_space)
    (Re.Cat (Re.Lit "'")
    (Re.Cat (Re.Plus Re.not_quote)
            (Re.Lit "'"))))).

(** [replacement = rf"\1icon: '{new_icon}'"] *)
Definition replacement (new_icon : string) : string :=
  "\1icon: '" ++ new_icon ++ "'".

(** One turn of the loop:
    [content = re.sub(pattern, replacement, content, count=1)]. *)
Definition update_entry (e : entry) (content : string) : exn + string :=
  let '(ability_id, new_icon) := e in
  Re.sub1 (pattern ability_id) (replacement new_icon) content.

(** The whole loop, over the entries in the order of iteration. *)
Fixpoint update_all_entries (icon_mappings : list entry) (content : string)
  : exn + string :=
  match icon_mappings with
  | [] => inr content
  | e :: rest =>
      match update_entry e content with
      | inl err => inl err
      | inr content' => update_all_entries rest content'
      end
  end.

Definition update_file (filepath : string) (icon_mappings : list entry)
  : io bool :=
  (print (Processing filepath) ;;
   content <- read_file filepath ;;
   let original_content := content in
   content <- lift (update_all_entries icon_mappings content) ;;
   if negb (content =? original_content)%string then
     (write_file filepath content ;;
      print (Updated filepath) ;;
      ret true)
   else (print (NoChangesMadeTo filepath) ;; ret false))%io.

End update_path_icons.

(* ================================================================== *)
(** * Vocabulary of the statements *)
(* ================================================================== *)

(** The entries the examples of the specification use. *)
Definition flame_entry : entry := ("Flame", "ability-paths-warrior-blood_rage").

Definition blood_rage_entry : entry :=
  ("blood_rage", "ability-paths-warrior-blood_rage").

(** A world in which [path] holds [content] and nothing has been written
    or printed yet. *)
Definition one_file (path content : string) : world :=
  mkWorld [(path, Text content)] [] [].

(** The longest head of [s] made of [p]-characters, and what follows it. *)
Fixpoint take_while (p : ascii -> bool) (s : string) : string :=
  match s with
  | String c s' => if p c then String c (take_while p s') else EmptyString
  | EmptyString => EmptyString
  end.

Fixpoint drop_while (p : ascii -> bool) (s : string) : string :=
  match s with
  | String c s' => if p c then drop_while p s' else s
  | EmptyString => EmptyString
  end.

(** The head of [s], if any, is not a [p]-character. *)
Definition stops (p : ascii -> bool) (s : string) : Prop :=
  match s with
  | String c _ => p c = false
  | EmptyString => True
  end.

(** The two halves of the anchored pattern, read as shapes of text.  An
    anchor of an id is [id:], white space, and the id between quotes with
    a comma; an icon field is [icon:], white space, and a value of one
    character or more, none of them a quote, between quotes. *)
Definition is_anchor (ability_id a : string) : Prop :=
  exists ws,
    every Re.is_space ws = true /\
    a = "id:" ++ ws ++ "'" ++ ability_id ++ "',".

Definition is_field (f : string) : Prop :=
  exists ws v,
    every Re.is_space ws = true /\
    v <> "" /\ every Re.not_quote v = true /\
    f = "icon:" ++ ws ++ "'" ++ v ++ "'".

Definition anchor_at (ability_id s : string) : Prop :=
  exists a rest, is_anchor ability_id a /\ s = a ++ rest.

Definition field_at (s : string) : Prop :=
  exists f rest, is_field f /\ s = f ++ rest.

(** The same shapes as functions: what follows the anchor (the field) at
    the head of [s], if there is one. *)
Definition anchor_end (ability_id s : string) : option string :=
  if startswith "id:" s then
    let s1 := drop_while Re.is_space (skip 3 s) in
    let q := "'" ++ ability_id ++ "'," in
    if startswith q s1 then Some (skip (length q) s1) else None
  else None.

Definition field_end (s : string) : option string :=
  if startswith "icon:" s then
    let s1 := drop_while Re.is_space (skip 5 s) in
    if startswith "'" s1 then
      match skip 1 s1 with
      | String c s3 =>
          if Re.not_quote c then
            let s4 := drop_while Re.not_quote s3 in
            if startswith "'" s4 then Some (skip 1 s4) else None
          else None
      | EmptyString => None
      end
    else None
  else None.

(** The first suffix of [s] that starts with a field, with what follows
    that field. *)
Fixpoint next_field (s : string) : option (string * string) :=
  match field_end s with
  | Some r => Some (s, r)
  | None =>
      match s with
      | String _ s' => next_field s'
      | EmptyString => None
      end
  end.

(** The match of the anchored pattern at the head of [s], by shapes. *)
Definition match_spec (ability_id s : string) : option Re.match_object :=
  match anchor_end ability_id s with
  | Some s1 =>
      match next_field s1 with
      | Some (s2, r) =>
          Some (Re.mkMatch (take (length s - length r) s)
                           (Some (take (length s - length s2) s)) r)
      | None => None
      end
  | None => None
  end.

(** The field half of the pattern, as a pattern. *)
Definition field_regex : Re.regex :=
  Re.Cat (Re.Lit "icon:")
  (Re.Cat (Re.Star Re.is_space)
  (Re.Cat (Re.Lit "'")
  (Re.Cat (Re.Plus Re.not_quote)
          (Re.Lit "'")))).

(** The anchor of an id occurs somewhere in a text. *)
Definition anchor_occurs (ability_id text : string) : Prop :=
  exists pre a post, is_anchor ability_id a /\ text = pre ++ a ++ post.

(** The characters of a string, each as a string of its own. *)
Definition chars (s : string) : list string :=
  map (fun c => String c EmptyString) (list_ascii_of_string s).

(** [anchor_occurs], as a test. *)
Fixpoint has_anchor (ability_id s : string) : bool :=
  match anchor_end ability_id s with
  | Some _ => true
  | None =>
      match s with
      | String _ s' => has_anchor ability_id s'
      | EmptyString => false
      end
  end.

(** The iteration order of [WARRIOR_ICONS] with its first two elements
    the other way round. *)
Definition WARRIOR_ICONS_swapped : list entry :=
  match update_path_icons.WARRIOR_ICONS with
  | e1 :: e2 :: rest => e2 :: e1 :: rest
  | l => l
  end.


(** ** Counting occurrences *)

(** The number of indices of [s] at which [sub] occurs. *)
Fixpoint occurrences (sub s : string) : nat :=
  (if startswith sub s then 1 else 0) +
  match s with
  | EmptyString => 0
  | String _ s' => occurrences sub s'
  end.

(** The number of indices within [a] at which [sub] occurs in [a ++ b]. *)
Fixpoint starts_within (sub a b : string) : nat :=
  match a with
  | EmptyString => 0
  | String _ a' =>
      (if startswith sub (a ++ b) then 1 else 0) + starts_within sub a' b
  end.

(** The number of entries of a direct-mode list that look for [pattern]. *)
Definition entries_for (pattern : string) (es : list entry) : nat :=
  List.length
    (filter (fun e => (direct_pattern (fst e) =? pattern)%string) es).

(** [s.endswith(suffix)] *)
Definition ends_with (suffix s : string) : bool :=
  (length suffix <=? length s)%nat &&
  (skip (length s - length suffix) s =? suffix)%string.
(* ================================================================== *)
(** * The entry points *)
(* ================================================================== *)

From Stdlib Require Import ZArith.

(** The scripts' [main] functions look files up before they open them,
    print lines of their own between those of the functions they call,
    run external commands and leave through [sys.exit].  They are
    modelled over a session: the files, the writes performed, everything
    printed in order, and the commands run. *)

Module Proc.

(** [subprocess.run] of one of the three command lines of
    [execute_wave4_updates.py]. *)
Inductive command : Type :=
| NpmRunBuild
| GitAdd (paths : list string)
| GitCommit (message : string).

(** What a command gives: it ran and returned a code, with what it wrote
    to standard error; or it could not be started, which [subprocess.run]
    reports by raising [OSError]. *)
Inductive outcome : Type :=
| Ran (returncode : Z) (stderr : string)
| NotStarted.

(** How a script can stop short: an exception of the functions it calls,
    an [OSError] of a command, or [sys.exit(code)]. *)
Inductive fault : Type :=
| Raised (e : exn)
| OSError
| SystemExit (code : nat).

(** The lines the entry points print themselves, by message. *)
Inductive report : Type :=
| UpdatedName (name : string)
| NoChangesIn (name : string)
| NotFound (path : string)
| CompletedOf4 (updated_count : nat)
| FileNotFound (path : string)
| Rule
| UpdatedOutOf (updated_count total : nat)
| Banner
| WorkingDirectory
| ErrorChangingDirectory
| Step1Header
| UpdatedPathFiles (count : nat)
| FailedToUpdatePathFiles
| Step3Header
| CompilationSuccessful
| CompilationFailed
| BuildStderr (stderr : string)
| ErrorRunningBuild
| BuildFailed
| Step4Header
| ChangesCommitted
| ErrorCommitting
| CommitFailed
| WaveComplete
| SummaryUpdated (count : nat)
| SummaryAdded
| SummaryCompiles
| SummaryCommitted.

Inductive output : Type :=
| Inner (l : line)
| Outer (r : report).

Record session : Type := mkSession {
  disk     : list (string * file);
  written  : list (string * string);
  console  : list output;
  commands : list command
}.

Definition proc (A : Type) : Type := session -> (fault + A) * session.

Definition pure {A : Type} (a : A) : proc A := fun s => (inr a, s).

Definition and_then {A B : Type} (c : proc A) (k : A -> proc B) : proc B :=
  fun s =>
    match c s with
    | (inl f, s') => (inl f, s')
    | (inr a, s') => k a s'
    end.

(** A call of one of the functions over files: it runs on the files and
    writes of the session, and what it prints goes to the console. *)
Definition call {A : Type} (c : io A) : proc A :=
  fun s =>
    let '(r, w) := c (mkWorld (disk s) (written s) []) in
    (match r with
     | inl e => inl (Raised e)
     | inr a => inr a
     end,
     mkSession (files w) (writes w)
               (console s ++ map Inner (stdout w)) (commands s)).

(** [print(...)] in an entry point *)
Definition say (r : report) : proc unit :=
  fun s =>
    (inr tt, mkSession (disk s) (written s) (console s ++ [Outer r])
                       (commands s)).

(** [filepath.exists()] *)
Definition path_exists (path : string) : proc bool :=
  fun s =>
    (inr (present path (disk s)), s).

(** [sys.exit(code)] *)
Definition exit {A : Type} (code : nat) : proc A :=
  fun s => (inl (SystemExit code), s).

(** [subprocess.run(...)]: the answer of the outside world, which may
    depend on all that has happened so far, is given by [respond]. *)
Definition run_command (respond : session -> command -> outcome)
           (c : command) : proc outcome :=
  fun s =>
    (inr (respond s c),
     mkSession (disk s) (written s) (console s) (commands s ++ [c])).

End Proc.

Import Proc.

Declare Scope proc_scope.
Delimit Scope proc_scope with proc.
Notation "x <- c ;; k" := (and_then c (fun x => k))
  (at level 61, c at next level, right associativity) : proc_scope.
Notation "c ;; k" := (and_then c (fun _ => k))
  (at level 61, right associativity) : proc_scope.

(** [base_path / name] *)
Definition path_join (base name : string) : string := base ++ "/" ++ name.

(** ** [apply_icon_updates.py]: [main] *)

Module apply_icon_updates_main.

Definition base_path : string :=
  "/Users/gilbrowdy/rogue-wave4-data/src/data/paths".

Definition warrior_replacements : list entry :=
  [
   ("Flame", "ability-paths-warrior-blood_rage");
   ("Zap", "ability-paths-warrior-pain_fueled");
   ("Zap", "ability-paths-warrior-adrenaline_rush");
   ("Heart", "ability-paths-warrior-bloodbath");
   ("Skull", "ability-paths-warrior-reckless_fury");
   ("Timer", "ability-paths-warrior-battle_trance");
   ("Shield", "ability-paths-warrior-intimidating_presence");
   ("Swords", "ability-paths-warrior-warlord_command");
   ("Hammer", "ability-paths-warrior-crushing_blows");
   ("Sword", "ability-paths-warrior-executioners_strike");
   ("Sparkles", "ability-paths-warrior-killing_spree");
   ("Droplet", "ability-paths-warrior-mortal_wounds");
   ("Flame", "ability-paths-warrior-undying_fury");
   ("Crown", "ability-paths-warrior-warlord");
   ("Skull", "ability-paths-warrior-executioner");
   ("Flame", "ability-paths-warrior-berserker");
   ("Shield", "ability-paths-warrior-iron_skin");
   ("Heart", "ability-paths-warrior-regeneration");
   ("ShieldCheck", "ability-paths-warrior-damage_reduction");
   ("ShieldAlert", "ability-paths-warrior-auto_block");
   ("Shield", "ability-paths-warrior-last_stand");
   ("HeartPulse", "ability-paths-warrior-endurance");
   ("Castle", "ability-paths-warrior-fortress_stance");
   ("Mountain", "ability-paths-warrior-immovable_object");
   ("Sparkles", "ability-paths-warrior-healing_aura");
   ("Swords", "ability-paths-warrior-thorns");
   ("Sword", "ability-paths-warrior-vengeful_strike");
   ("Zap", "ability-paths-warrior-retribution");
   ("ShieldCheck", "ability-paths-warrior-immortal_guardian");
   ("Castle", "ability-paths-warrior-fortress");
   ("Swords", "ability-paths-warrior-avenger");
   ("Shield", "ability-paths-warrior-guardian")
  ].

Definition mage_replacements : list entry :=
  [
   ("Sparkles", "ability-paths-mage-archmage_spell_power");
   ("Droplets", "ability-paths-mage-archmage_mana_efficiency");
   ("Clock", "ability-paths-mage-archmage_cooldown_mastery");
   ("Zap", "ability-paths-mage-archmage_spell_crit");
   ("Flame", "ability-paths-mage-elementalist_fire_mastery");
   ("Snowflake", "ability-paths-mage-elementalist_ice_mastery");
   ("Zap", "ability-paths-mage-elementalist_lightning_mastery");
   ("Sparkles", "ability-paths-mage-elementalist_elemental_convergence");
   ("Flame", "ability-paths-mage-destroyer_overwhelming_power");
   ("RefreshCw", "ability-paths-mage-destroyer_spell_surge");
   ("Flame", "ability-paths-mage-destroyer_glass_cannon");
   ("Skull", "ability-paths-mage-destroyer_apocalypse");
   ("Wand2", "ability-paths-mage-enchanter_passive_power");
   ("Droplets", "ability-paths-mage-enchanter_mana_regen");
   ("Sparkles", "ability-paths-mage-enchanter_damage_aura");
   ("Timer", "ability-paths-mage-enchanter_dot_amplify");
   ("Sparkles", "ability-paths-mage-spellweaver_auto_cast");
   ("Link", "ability-paths-mage-spellweaver_chain_cast");
   ("Zap", "ability-paths-mage-spellweaver_efficient_automation");
   ("Factory", "ability-paths-mage-spellweaver_arcane_assembly");
   ("Brain", "ability-paths-mage-sage_wisdom_aura");
   ("Droplet", "ability-paths-mage-sage_toxic_field");
   ("Shield", "ability-paths-mage-sage_arcane_field");
   ("Crown", "ability-paths-mage-sage_overwhelming_presence");
   ("Sparkles", "ability-paths-mage-archmage");
   ("Flame", "ability-paths-mage-elementalist");
   ("Skull", "ability-paths-mage-destroyer");
   ("Wand2", "ability-paths-mage-enchanter");
   ("Link", "ability-paths-mage-spellweaver");
   ("Brain", "ability-paths-mage-sage")
  ].

Definition rogue_replacements : list entry :=
  [
   ("Crosshair", "ability-paths-rogue-assassin");
   ("Target", "ability-paths-rogue-shadowblade");
   ("Zap", "ability-paths-rogue-nightstalker");
   ("Target", "ability-paths-rogue-rogue_assassin_vital_strike");
   ("Eye", "ability-paths-rogue-rogue_assassin_ambush");
   ("Crosshair", "ability-paths-rogue-rogue_assassin_precision");
   ("Zap", "ability-paths-rogue-rogue_assassin_ruthless_efficiency");
   ("Flame", "ability-paths-rogue-rogue_assassin_killing_spree");
   ("Skull", "ability-paths-rogue-rogue_assassin_execute");
   ("Swords", "ability-paths-rogue-rogue_assassin_shadow_dance");
   ("Crosshair", "ability-paths-rogue-rogue_assassin_death_mark");
   ("Shield", "ability-paths-rogue-duelist");
   ("Swords", "ability-paths-rogue-swashbuckler");
   ("EyeOff", "ability-paths-rogue-phantom");
   ("Swords", "ability-paths-rogue-rogue_duelist_riposte");
   ("Sparkles", "ability-paths-rogue-rogue_duelist_en_garde");
   ("Wind", "ability-paths-rogue-rogue_duelist_blade_dancer");
   ("EyeOff", "ability-paths-rogue-rogue_duelist_evasion");
   ("Shield", "ability-paths-rogue-rogue_duelist_uncanny_dodge");
   ("Ghost", "ability-paths-rogue-rogue_duelist_blur");
   ("Zap", "ability-paths-rogue-rogue_duelist_perfect_form");
   ("Ghost", "ability-paths-rogue-rogue_duelist_shadowstep")
  ].

Definition paladin_replacements : list entry :=
  [
   ("Sword", "ability-paths-paladin-templar");
   ("CrosshairIcon", "ability-paths-paladin-inquisitor");
   ("Sun", "ability-paths-paladin-holy_strike");
   ("Sparkles", "ability-paths-paladin-righteous_fury");
   ("Zap", "ability-paths-paladin-smite_the_wicked");
   ("CrosshairIcon", "ability-paths-paladin-mark_of_judgment");
   ("ShieldAlert", "ability-paths-paladin-weakening_light");
   ("Flame", "ability-paths-paladin-divine_condemnation");
   ("Sword", "ability-paths-paladin-crusader_holy_avenger");
   ("Zap", "ability-paths-paladin-crusader_divine_wrath");
   ("Heart", "ability-paths-paladin-sentinel");
   ("Shield", "ability-paths-paladin-martyr");
   ("Heart", "ability-paths-paladin-blessed_recovery");
   ("Plus", "ability-paths-paladin-healing_ward");
   ("ShieldPlus", "ability-paths-paladin-shield_of_renewal");
   ("Shield", "ability-paths-paladin-enduring_faith");
   ("ShieldCheck", "ability-paths-paladin-armor_of_sacrifice");
   ("Cross", "ability-paths-paladin-last_stand");
   ("HeartPulse", "ability-paths-paladin-protector_eternal_guardian");
   ("ShieldBan", "ability-paths-paladin-protector_unbreakable_will")
  ].

(** A file to update: its name under [base_path] and its replacements. *)
Definition files_to_update : list (string * list entry) :=
  [("warrior.ts", warrior_replacements);
   ("mage.ts", mage_replacements);
   ("rogue.ts", rogue_replacements);
   ("paladin.ts", paladin_replacements)].

(** The loop over [files_to_update], from a given [updated_count]. *)
Fixpoint update_files (todo : list (string * list entry)) (updated_count : nat)
  : proc nat :=
  match todo with
  | [] => pure updated_count
  | (name, replacements) :: rest =>
      let filepath := path_join base_path name in
      (found <- path_exists filepath ;;
       if found then
         (updated <- call (apply_icon_updates.replace_icons_in_file
                             filepath replacements) ;;
          if updated then
            (say (UpdatedName name) ;; update_files rest (S updated_count))
          else
            (say (NoChangesIn name) ;; update_files rest updated_count))
       else
         (say (NotFound filepath) ;; update_files rest updated_count))%proc
  end.

Definition main_on (todo : list (string * list entry)) : proc unit :=
  (updated_count <- update_files todo 0 ;;
   say (CompletedOf4 updated_count))%proc.

Definition main : proc unit := main_on files_to_update.

End apply_icon_updates_main.

(** ** [update_path_icons.py]: [main] *)

Module update_path_icons_main.

Definition base_path : string :=
  "/Users/gilbrowdy/rogue-wave4-data/src/data/paths".

(** The other three tables; like [WARRIOR_ICONS] they are sets, given
    here by their elements in the order of the source text. *)
Definition MAGE_ICONS : list entry :=
  [
   ("archmage_spell_power", "ability-paths-mage-archmage_spell_power");
   ("archmage_mana_efficiency", "ability-paths-mage-archmage_mana_efficiency");
   ("archmage_cooldown_mastery", "ability-paths-mage-archmage_cooldown_mastery");
   ("archmage_spell_crit", "ability-paths-mage-archmage_spell_crit");
   ("elementalist_fire_mastery", "ability-paths-mage-elementalist_fire_mastery");
   ("elementalist_ice_mastery", "ability-paths-mage-elementalist_ice_mastery");
   ("elementalist_lightning_mastery", "ability-paths-mage-elementalist_lightning_mastery");
   ("elementalist_elemental_convergence", "ability-paths-mage-elementalist_elemental_convergence");
   ("destroyer_overwhelming_power", "ability-paths-mage-destroyer_overwhelming_power");
   ("destroyer_spell_surge", "ability-paths-mage-destroyer_spell_surge");
   ("destroyer_glass_cannon", "ability-paths-mage-destroyer_glass_cannon");
   ("destroyer_apocalypse", "ability-paths-mage-destroyer_apocalypse");
   ("enchanter_passive_power", "ability-paths-mage-enchanter_passive_power");
   ("enchanter_mana_regen", "ability-paths-mage-enchanter_mana_regen");
   ("enchanter_damage_aura", "ability-paths-mage-enchanter_damage_aura");
   ("enchanter_dot_amplify", "ability-paths-mage-enchanter_dot_amplify");
   ("spellweaver_auto_cast", "ability-paths-mage-spellweaver_auto_cast");
   ("spellweaver_chain_cast", "ability-paths-mage-spellweaver_chain_cast");
   ("spellweaver_efficient_automation", "ability-paths-mage-spellweaver_efficient_automation");
   ("spellweaver_arcane_assembly", "ability-paths-mage-spellweaver_arcane_assembly");
   ("sage_wisdom_aura", "ability-paths-mage-sage_wisdom_aura");
   ("sage_toxic_field", "ability-paths-mage-sage_toxic_field");
   ("sage_arcane_field", "ability-paths-mage-sage_arcane_field");
   ("sage_overwhelming_presence", "ability-paths-mage-sage_overwhelming_presence");
   ("elementalist", "ability-paths-mage-elementalist");
   ("destroyer", "ability-paths-mage-destroyer");
   ("spellweaver", "ability-paths-mage-spellweaver");
   ("sage", "ability-paths-mage-sage");
   ("archmage", "ability-paths-mage-archmage");
   ("enchanter", "ability-paths-mage-enchanter")
  ].

Definition ROGUE_ICONS : list entry :=
  [
   ("rogue_assassin_vital_strike", "ability-paths-rogue-rogue_assassin_vital_strike");
   ("rogue_assassin_ambush", "ability-paths-rogue-rogue_assassin_ambush");
   ("rogue_assassin_precision", "ability-paths-rogue-rogue_assassin_precision");
   ("rogue_assassin_ruthless_efficiency", "ability-paths-rogue-rogue_assassin_ruthless_efficiency");
   ("rogue_assassin_killing_spree", "ability-paths-rogue-rogue_assassin_killing_spree");
   ("rogue_assassin_execute", "ability-paths-rogue-rogue_assassin_execute");
   ("rogue_assassin_shadow_dance", "ability-paths-rogue-rogue_assassin_shadow_dance");
   ("rogue_assassin_death_mark", "ability-paths-rogue-rogue_assassin_death_mark");
   ("rogue_duelist_riposte", "ability-paths-rogue-rogue_duelist_riposte");
   ("rogue_duelist_en_garde", "ability-paths-rogue-rogue_duelist_en_garde");
   ("rogue_duelist_blade_dancer", "ability-paths-rogue-rogue_duelist_blade_dancer");
   ("rogue_duelist_evasion", "ability-paths-rogue-rogue_duelist_evasion");
   ("rogue_duelist_uncanny_dodge", "ability-paths-rogue-rogue_duelist_uncanny_dodge");
   ("rogue_duelist_blur", "ability-paths-rogue-rogue_duelist_blur");
   ("rogue_duelist_perfect_form", "ability-paths-rogue-rogue_duelist_perfect_form");
   ("rogue_duelist_shadowstep", "ability-paths-rogue-rogue_duelist_shadowstep");
   ("shadowblade", "ability-paths-rogue-shadowblade");
   ("nightstalker", "ability-paths-rogue-nightstalker");
   ("swashbuckler", "ability-paths-rogue-swashbuckler");
   ("phantom", "ability-paths-rogue-phantom");
   ("assassin", "ability-paths-rogue-assassin");
   ("duelist", "ability-paths-rogue-duelist")
  ].

Definition PALADIN_ICONS : list entry :=
  [
   ("holy_strike", "ability-paths-paladin-holy_strike");
   ("righteous_fury", "ability-paths-paladin-righteous_fury");
   ("smite_the_wicked", "ability-paths-paladin-smite_the_wicked");
   ("mark_of_judgment", "ability-paths-paladin-mark_of_judgment");
   ("weakening_light", "ability-paths-paladin-weakening_light");
   ("divine_condemnation", "ability-paths-paladin-divine_condemnation");
   ("crusader_holy_avenger", "ability-paths-paladin-crusader_holy_avenger");
   ("crusader_divine_wrath", "ability-paths-paladin-crusader_divine_wrath");
   ("blessed_recovery", "ability-paths-paladin-blessed_recovery");
   ("healing_ward", "ability-paths-paladin-healing_ward");
   ("shield_of_renewal", "ability-paths-paladin-shield_of_renewal");
   ("enduring_faith", "ability-paths-paladin-enduring_faith");
   ("armor_of_sacrifice", "ability-paths-paladin-armor_of_sacrifice");
   ("last_stand", "ability-paths-paladin-last_stand");
   ("protector_eternal_guardian", "ability-paths-paladin-protector_eternal_guardian");
   ("protector_unbreakable_will", "ability-paths-paladin-protector_unbreakable_will");
   ("templar", "ability-paths-paladin-templar");
   ("inquisitor", "ability-paths-paladin-inquisitor");
   ("sentinel", "ability-paths-paladin-sentinel");
   ("martyr", "ability-paths-paladin-martyr");
   ("paladin_crusader", "ability-paths-paladin-paladin_crusader");
   ("paladin_protector", "ability-paths-paladin-paladin_protector")
  ].

(** [files]: a dict, visited in the order of insertion. *)
Definition files : list (string * list entry) :=
  [("warrior.ts", update_path_icons.WARRIOR_ICONS);
   ("mage.ts", MAGE_ICONS);
   ("rogue.ts", ROGUE_ICONS);
   ("paladin.ts", PALADIN_ICONS)].

(** The loop over [files.items()].  Each table comes as the list of its
    elements in the order in which the set happens to be iterated. *)
Fixpoint update_files (todo : list (string * list entry)) (updated_count : nat)
  : proc nat :=
  match todo with
  | [] => pure updated_count
  | (filename, icon_mappings) :: rest =>
      let filepath := path_join base_path filename in
      (found <- path_exists filepath ;;
       if found then
         (updated <- call (update_path_icons.update_file filepath icon_mappings) ;;
          if updated then update_files rest (S updated_count)
          else update_files rest updated_count)
       else
         (say (FileNotFound filepath) ;; update_files rest updated_count))%proc
  end.

Definition main_on (todo : list (string * list entry)) : proc unit :=
  (updated_count <- update_files todo 0 ;;
   say Rule ;;
   say (UpdatedOutOf updated_count (List.length todo)) ;;
   say Rule)%proc.

Definition main : proc unit := main_on files.

(** [todo] is [files] up to the order of iteration of each set. *)
Definition iteration_of (todo : list (string * list entry)) : Prop :=
  Forall2 (fun given source =>
             fst given = fst source /\ Permutation (snd source) (snd given))
          todo files.

End update_path_icons_main.

(** ** [execute_wave4_updates.py]: the steps and [main] *)

Module execute_wave4_main.

Definition base_path : string := "src/data/paths".

Definition warrior_replacements : list entry :=
  [
   ("Flame", "ability-paths-warrior-blood_rage");
   ("Zap", "ability-paths-warrior-pain_fueled");
   ("Zap", "ability-paths-warrior-adrenaline_rush");
   ("Heart", "ability-paths-warrior-bloodbath");
   ("Skull", "ability-paths-warrior-reckless_fury");
   ("Timer", "ability-paths-warrior-battle_trance");
   ("Shield", "ability-paths-warrior-intimidating_presence");
   ("Swords", "ability-paths-warrior-warlord_command");
   ("Hammer", "ability-paths-warrior-crushing_blows");
   ("Sword", "ability-paths-warrior-executioners_strike");
   ("Sparkles", "ability-paths-warrior-killing_spree");
   ("Droplet", "ability-paths-warrior-mortal_wounds");
   ("Flame", "ability-paths-warrior-undying_fury");
   ("Crown", "ability-paths-warrior-warlord");
   ("Skull", "ability-paths-warrior-executioner");
   ("Flame", "ability-paths-warrior-berserker");
   ("Shield", "ability-paths-warrior-iron_skin");
   ("Heart", "ability-paths-warrior-regeneration");
   ("ShieldCheck", "ability-paths-warrior-damage_reduction");
   ("ShieldAlert", "ability-paths-warrior-auto_block");
   ("Shield", "ability-paths-warrior-last_stand");
   ("HeartPulse", "ability-paths-warrior-endurance");
   ("Castle", "ability-paths-warrior-fortress_stance");
   ("Mountain", "ability-paths-warrior-immovable_object");
   ("Sparkles", "ability-paths-warrior-healing_aura");
   ("Swords", "ability-paths-warrior-thorns");
   ("Sword", "ability-paths-warrior-vengeful_strike");
   ("Zap", "ability-paths-warrior-retribution");
   ("ShieldCheck", "ability-paths-warrior-immortal_guardian");
   ("Castle", "ability-paths-warrior-fortress");
   ("Swords", "ability-paths-warrior-avenger");
   ("Shield", "ability-paths-warrior-guardian")
  ].

Definition mage_replacements : list entry :=
  [
   ("Sparkles", "ability-paths-mage-archmage_spell_power");
   ("Droplets", "ability-paths-mage-archmage_mana_efficiency");
   ("Clock", "ability-paths-mage-archmage_cooldown_mastery");
   ("Zap", "ability-paths-mage-archmage_spell_crit");
   ("Flame", "ability-paths-mage-elementalist_fire_mastery");
   ("Snowflake", "ability-paths-mage-elementalist_ice_mastery");
   ("Zap", "ability-paths-mage-elementalist_lightning_mastery");
   ("Sparkles", "ability-paths-mage-elementalist_elemental_convergence");
   ("Flame", "ability-paths-mage-destroyer_overwhelming_power");
   ("RefreshCw", "ability-paths-mage-destroyer_spell_surge");
   ("Flame", "ability-paths-mage-destroyer_glass_cannon");
   ("Skull", "ability-paths-mage-destroyer_apocalypse");
   ("Wand2", "ability-paths-mage-enchanter_passive_power");
   ("Droplets", "ability-paths-mage-enchanter_mana_regen");
   ("Sparkles", "ability-paths-mage-enchanter_damage_aura");
   ("Timer", "ability-paths-mage-enchanter_dot_amplify");
   ("Sparkles", "ability-paths-mage-spellweaver_auto_cast");
   ("Link", "ability-paths-mage-spellweaver_chain_cast");
   ("Zap", "ability-paths-mage-spellweaver_efficient_automation");
   ("Factory", "ability-paths-mage-spellweaver_arcane_assembly");
   ("Brain", "ability-paths-mage-sage_wisdom_aura");
   ("Droplet", "ability-paths-mage-sage_toxic_field");
   ("Shield", "ability-paths-mage-sage_arcane_field");
   ("Crown", "ability-paths-mage-sage_overwhelming_presence");
   ("Sparkles", "ability-paths-mage-archmage");
   ("Flame", "ability-paths-mage-elementalist");
   ("Skull", "ability-paths-mage-destroyer");
   ("Wand2", "ability-paths-mage-enchanter");
   ("Link", "ability-paths-mage-spellweaver");
   ("Brain", "ability-paths-mage-sage")
  ].

Definition rogue_replacements : list entry :=
  [
   ("Crosshair", "ability-paths-rogue-assassin");
   ("Target", "ability-paths-rogue-shadowblade");
   ("Zap", "ability-paths-rogue-nightstalker");
   ("Target", "ability-paths-rogue-rogue_assassin_vital_strike");
   ("Eye", "ability-paths-rogue-rogue_assassin_ambush");
   ("Crosshair", "ability-paths-rogue-rogue_assassin_precision");
   ("Zap", "ability-paths-rogue-rogue_assassin_ruthless_efficiency");
   ("Flame", "ability-paths-rogue-rogue_assassin_killing_spree");
   ("Skull", "ability-paths-rogue-rogue_assassin_execute");
   ("Swords", "ability-paths-rogue-rogue_assassin_shadow_dance");
   ("Crosshair", "ability-paths-rogue-rogue_assassin_death_mark");
   ("Shield", "ability-paths-rogue-duelist");
   ("Swords", "ability-paths-rogue-swashbuckler");
   ("EyeOff", "ability-paths-rogue-phantom");
   ("Swords", "ability-paths-rogue-rogue_duelist_riposte");
   ("Sparkles", "ability-paths-rogue-rogue_duelist_en_garde");
   ("Wind", "ability-paths-rogue-rogue_duelist_blade_dancer");
   ("EyeOff", "ability-paths-rogue-rogue_duelist_evasion");
   ("Shield", "ability-paths-rogue-rogue_duelist_uncanny_dodge");
   ("Ghost", "ability-paths-rogue-rogue_duelist_blur");
   ("Zap", "ability-paths-rogue-rogue_duelist_perfect_form");
   ("Ghost", "ability-paths-rogue-rogue_duelist_shadowstep")
  ].

Definition paladin_replacements : list entry :=
  [
   ("Sword", "ability-paths-paladin-templar");
   ("CrosshairIcon", "ability-paths-paladin-inquisitor");
   ("Sun", "ability-paths-paladin-holy_strike");
   ("Sparkles", "ability-paths-paladin-righteous_fury");
   ("Zap", "ability-paths-paladin-smite_the_wicked");
   ("CrosshairIcon", "ability-paths-paladin-mark_of_judgment");
   ("ShieldAlert", "ability-paths-paladin-weakening_light");
   ("Flame", "ability-paths-paladin-divine_condemnation");
   ("Sword", "ability-paths-paladin-crusader_holy_avenger");
   ("Zap", "ability-paths-paladin-crusader_divine_wrath");
   ("Heart", "ability-paths-paladin-sentinel");
   ("Shield", "ability-paths-paladin-martyr");
   ("Heart", "ability-paths-paladin-blessed_recovery");
   ("Plus", "ability-paths-paladin-healing_ward");
   ("ShieldPlus", "ability-paths-paladin-shield_of_renewal");
   ("Shield", "ability-paths-paladin-enduring_faith");
   ("ShieldCheck", "ability-paths-paladin-armor_of_sacrifice");
   ("Cross", "ability-paths-paladin-last_stand");
   ("HeartPulse", "ability-paths-paladin-protector_eternal_guardian");
   ("ShieldBan", "ability-paths-paladin-protector_unbreakable_will")
  ].

Definition files_to_update : list (string * list entry) :=
  [("warrior.ts", warrior_replacements);
   ("mage.ts", mage_replacements);
   ("rogue.ts", rogue_replacements);
   ("paladin.ts", paladin_replacements)].

(** The loop of [update_path_files], on the list [updated_files]. *)
Fixpoint update_files (todo : list (string * list entry))
         (updated_files : list string) : proc (list string) :=
  match todo with
  | [] => pure updated_files
  | (name, replacements) :: rest =>
      let filepath := path_join base_path name in
      (found <- path_exists filepath ;;
       if found then
         (updated <- call (execute_wave4_updates.replace_icons_in_file
                             filepath replacements) ;;
          if updated then update_files rest (updated_files ++ [filepath])
          else update_files rest updated_files)
       else
         (say (FileNotFound filepath) ;; update_files rest updated_files))%proc
  end.

Definition update_path_files_on (todo : list (string * list entry))
  : proc (list string) :=
  (say Step1Header ;;
   updated_files <- update_files todo [] ;;
   say (UpdatedPathFiles (List.length updated_files)) ;;
   pure updated_files)%proc.

Definition update_path_files : proc (list string) :=
  update_path_files_on files_to_update.

Section Outside.

(** The outside world: whether [os.chdir] succeeds, and what the
    commands answer. *)
Variable chdir_ok : bool.
Variable respond : session -> command -> outcome.

(** [run_build]: any exception of [subprocess.run] is caught. *)
Definition run_build : proc bool :=
  (say Step3Header ;;
   result <- run_command respond NpmRunBuild ;;
   match result with
   | Ran returncode stderr =>
       if (returncode =? 0)%Z then
         (say CompilationSuccessful ;; pure true)
       else
         (say CompilationFailed ;; say (BuildStderr stderr) ;; pure false)
   | NotStarted => (say ErrorRunningBuild ;; pure false)
   end)%proc.

Definition files_to_commit : list string :=
  ["src/data/paths/warrior.ts";
   "src/data/paths/mage.ts";
   "src/data/paths/rogue.ts";
   "src/data/paths/paladin.ts";
   "src/constants/icons.ts"].

Definition commit_message : string :=
  "feat(data): update path files to use PixelIcon type strings (Wave 4.1-4.4)".

(** [commit_changes]: [check=True] turns a return code other than 0 into
    [CalledProcessError], the one exception that is caught; a command that
    cannot be started raises [OSError], which is not. *)
Definition commit_changes : proc bool :=
  (say Step4Header ;;
   added <- run_command respond (GitAdd files_to_commit) ;;
   match added with
   | NotStarted => fun s => (inl OSError, s)
   | Ran returncode _ =>
       if (returncode =? 0)%Z then
         (committed <- run_command respond (GitCommit commit_message) ;;
          match committed with
          | NotStarted => fun s => (inl OSError, s)
          | Ran returncode' _ =>
              if (returncode' =? 0)%Z then
                (say ChangesCommitted ;; pure true)
              else (say ErrorCommitting ;; pure false)
          end)
       else (say ErrorCommitting ;; pure false)
   end)%proc.

Definition main_on (todo : list (string * list entry)) : proc unit :=
  (say Banner ;;
   (if chdir_ok then say WorkingDirectory
    else (say ErrorChangingDirectory ;; exit 1)) ;;
   path_files <- update_path_files_on todo ;;
   (match path_files with
    | [] => (say FailedToUpdatePathFiles ;; exit 1)
    | _ => pure tt
    end) ;;
   icons_updated <- call execute_wave4_updates.update_icons_constants ;;
   build_success <- run_build ;;
   (if build_success then pure tt else (say BuildFailed ;; exit 1)) ;;
   commit_success <- commit_changes ;;
   (if commit_success then pure tt else (say CommitFailed ;; exit 1)) ;;
   say WaveComplete ;;
   say (SummaryUpdated (List.length path_files)) ;;
   say SummaryAdded ;;
   say SummaryCompiles ;;
   say SummaryCommitted)%proc.

Definition main : proc unit := main_on files_to_update.

End Outside.

End execute_wave4_main.

(** ** [scripts/create_health_icon.py] *)

Module create_health_icon.

(** A colour as the script writes one: a tuple of four Python integers. *)
Definition colour : Type := (Z * Z * Z * Z)%type.

(** The pixels of an image, by rows: the pixel [(x, y)] is the element
    [x] of the row [y].  A pixel of an RGBA image holds four bytes. *)
Definition image : Type := list (list colour).

(** [Image.new('RGBA', (16, 16), (0, 0, 0, 0))] *)
Definition transparent : colour := (0, 0, 0, 0)%Z.

Definition new_image : image := repeat (repeat transparent 16) 16.

Definition OUTLINE : colour := (122, 26, 26, 255)%Z.
Definition HIGHLIGHT : colour := (255, 107, 107, 255)%Z.
Definition BASE : colour := (239, 68, 68, 255)%Z.
Definition SHADOW : colour := (204, 34, 34, 255)%Z.

(** What ends the script other than its last line. *)
Inductive failure := OverflowError.

(** Pillow turns the tuple assigned to [pixels[x, y]] into the four bytes
    of the pixel: the first integer is read as a C [long long] and the
    other three as a C [int], with [OverflowError] for one that does not
    fit, and each is then brought into 0..255: below 0 it is 0 and above
    255 it is 255. *)
Definition CLIP8 (v : Z) : Z :=
  (if v <=? 0 then 0 else if v <? 256 then v else 255)%Z.

Definition fits_long_long (v : Z) : bool :=
  ((- 2 ^ 63 <=? v) && (v <? 2 ^ 63))%Z.

Definition fits_int (v : Z) : bool :=
  ((- 2 ^ 31 <=? v) && (v <? 2 ^ 31))%Z.

Definition accepted (color : colour) : bool :=
  let '(r, g, b, a) := color in
  fits_long_long r && fits_int g && fits_int b && fits_int a.

Definition clip (color : colour) : colour :=
  let '(r, g, b, a) := color in (CLIP8 r, CLIP8 g, CLIP8 b, CLIP8 a).

Definition getink (color : colour) : failure + colour :=
  if accepted color then inr (clip color) else inl OverflowError.

(** [l[n] = v] for an index within the list *)
Fixpoint list_set {A : Type} (n : nat) (v : A) (l : list A) : list A :=
  match l, n with
  | [], _ => []
  | _ :: l', O => v :: l'
  | a :: l', S n' => a :: list_set n' v l'
  end.

(** [pixels[x, y]], and the bytes [ink] put at [pixels[x, y]], for
    indices within the image *)
Definition get_pixel (x y : nat) (pixels : image) : option colour :=
  match nth_error pixels y with
  | Some row => nth_error row x
  | None => None
  end.

Definition put_pixel (x y : nat) (ink : colour) (pixels : image) : image :=
  match nth_error pixels y with
  | Some row => list_set y (list_set x ink row) pixels
  | None => pixels
  end.

(** [set_pixel]: coordinates are Python integers; the colour is looked at
    only when the pixel is within the image. *)
Definition set_pixel (x y : Z) (color : colour) (pixels : image)
  : failure + image :=
  if ((0 <=? x) && (x <? 16) && (0 <=? y) && (y <? 16))%Z then
    match getink color with
    | inr ink => inr (put_pixel (Z.to_nat x) (Z.to_nat y) ink pixels)
    | inl e => inl e
    end
  else inr pixels.

(** The calls of [set_pixel] the script makes, in order. *)
Definition heart_calls : list (Z * Z * colour) :=
  [
   (4, 1, OUTLINE);
   (5, 1, OUTLINE);
   (10, 1, OUTLINE);
   (11, 1, OUTLINE);
   (3, 2, OUTLINE);
   (4, 2, HIGHLIGHT);
   (5, 2, HIGHLIGHT);
   (6, 2, OUTLINE);
   (9, 2, OUTLINE);
   (10, 2, HIGHLIGHT);
   (11, 2, HIGHLIGHT);
   (12, 2, OUTLINE);
   (2, 3, OUTLINE);
   (3, 3, HIGHLIGHT);
   (4, 3, HIGHLIGHT);
   (5, 3, HIGHLIGHT);
   (6, 3, BASE);
   (7, 3, BASE);
   (8, 3, BASE);
   (9, 3, BASE);
   (10, 3, HIGHLIGHT);
   (11, 3, HIGHLIGHT);
   (12, 3, HIGHLIGHT);
   (13, 3, OUTLINE);
   (2, 4, OUTLINE);
   (3, 4, HIGHLIGHT);
   (4, 4, HIGHLIGHT);
   (5, 4, BASE);
   (6, 4, BASE);
   (7, 4, BASE);
   (8, 4, BASE);
   (9, 4, BASE);
   (10, 4, BASE);
   (11, 4, BASE);
   (12, 4, HIGHLIGHT);
   (13, 4, OUTLINE);
   (1, 5, OUTLINE);
   (2, 5, BASE);
   (3, 5, BASE);
   (4, 5, BASE);
   (5, 5, BASE);
   (6, 5, BASE);
   (7, 5, BASE);
   (8, 5, BASE);
   (9, 5, BASE);
   (10, 5, BASE);
   (11, 5, BASE);
   (12, 5, BASE);
   (13, 5, BASE);
   (14, 5, OUTLINE);
   (1, 6, OUTLINE);
   (2, 6, BASE);
   (3, 6, BASE);
   (4, 6, BASE);
   (5, 6, BASE);
   (6, 6, BASE);
   (7, 6, BASE);
   (8, 6, BASE);
   (9, 6, BASE);
   (10, 6, BASE);
   (11, 6, BASE);
   (12, 6, BASE);
   (13, 6, BASE);
   (14, 6, OUTLINE);
   (1, 7, OUTLINE);
   (2, 7, BASE);
   (3, 7, BASE);
   (4, 7, BASE);
   (5, 7, BASE);
   (6, 7, BASE);
   (7, 7, BASE);
   (8, 7, BASE);
   (9, 7, BASE);
   (10, 7, BASE);
   (11, 7, BASE);
   (12, 7, BASE);
   (13, 7, SHADOW);
   (14, 7, OUTLINE);
   (2, 8, OUTLINE);
   (3, 8, BASE);
   (4, 8, BASE);
   (5, 8, BASE);
   (6, 8, BASE);
   (7, 8, BASE);
   (8, 8, BASE);
   (9, 8, BASE);
   (10, 8, BASE);
   (11, 8, BASE);
   (12, 8, SHADOW);
   (13, 8, OUTLINE);
   (3, 9, OUTLINE);
   (4, 9, BASE);
   (5, 9, BASE);
   (6, 9, BASE);
   (7, 9, BASE);
   (8, 9, BASE);
   (9, 9, BASE);
   (10, 9, BASE);
   (11, 9, SHADOW);
   (12, 9, OUTLINE);
   (4, 10, OUTLINE);
   (5, 10, BASE);
   (6, 10, BASE);
   (7, 10, BASE);
   (8, 10, BASE);
   (9, 10, BASE);
   (10, 10, SHADOW);
   (11, 10, SHADOW);
   (12, 10, OUTLINE);
   (5, 11, OUTLINE);
   (6, 11, BASE);
   (7, 11, BASE);
   (8, 11, BASE);
   (9, 11, SHADOW);
   (10, 11, SHADOW);
   (11, 11, OUTLINE);
   (4, 12, OUTLINE);
   (5, 12, OUTLINE);
   (6, 12, OUTLINE);
   (7, 12, SHADOW);
   (8, 12, SHADOW);
   (9, 12, SHADOW);
   (10, 12, SHADOW);
   (11, 12, OUTLINE);
   (5, 13, OUTLINE);
   (6, 13, SHADOW);
   (7, 13, SHADOW);
   (8, 13, SHADOW);
   (9, 13, SHADOW);
   (10, 13, OUTLINE);
   (6, 14, OUTLINE);
   (7, 14, SHADOW);
   (8, 14, SHADOW);
   (9, 14, OUTLINE);
   (7, 15, OUTLINE);
   (8, 15, OUTLINE)
  ]%Z.

(** A run of calls, one after the other; the first that raises ends it. *)
Fixpoint draw (calls : list (Z * Z * colour)) (pixels : image)
  : failure + image :=
  match calls with
  | [] => inr pixels
  | (x, y, color) :: rest =>
      match set_pixel x y color pixels with
      | inr pixels' => draw rest pixels'
      | inl e => inl e
      end
  end.

(** The image the script saves. *)
Definition health_icon : failure + image := draw heart_calls new_image.

End create_health_icon.

(** ** Vocabulary of the further statements *)

(** Between [w] and [w'] nothing happened to the files but, at most, one
    write of the file at [path], which was there before: nothing else has
    changed, nothing has appeared or gone. *)
Definition touches_only (path : string) (w w' : world) : Prop :=
  (forall p, p <> path -> find_file p (files w') = find_file p (files w)) /\
  present path (files w') = present path (files w) /\
  (writes w' = writes w /\
   find_file path (files w') = find_file path (files w)
   \/
   exists content,
     writes w' = (writes w ++ [(path, content)])%list /\
     find_file path (files w') = Some (Text content)).

(** [old] without its last character. *)
Definition but_last (old : string) : string := take (length old - 1) old.

(** No character of [s] is one that [re.escape] escapes. *)
Definition plain (s : string) : bool := every (fun c => negb (is_special c)) s.


(** ** What the loops over the files amount to *)

Section Loop.

(** The directory of the files and what is done to the text of one. *)
Variable base : string.
Variable transform : list entry -> string -> string.

(** The path of an element of the list of files. *)
Definition target (t : string * list entry) : string :=
  path_join base (fst t).

(** The write the loop performs for [t] on the files [d], if any: the
    file is there and its text changes. *)
Definition write_for (d : list (string * file)) (t : string * list entry)
  : option (string * string) :=
  match lookup (target t) d with
  | Some content =>
      if (transform (snd t) content =? content)%string then None
      else Some (target t, transform (snd t) content)
  | None => None
  end.

(** The writes of the loop, each on the files its predecessors left. *)
Fixpoint writes_of (d : list (string * file))
         (todo : list (string * list entry)) : list (string * string) :=
  match todo with
  | [] => []
  | t :: rest =>
      match write_for d t with
      | Some wr => wr :: writes_of (store (fst wr) (snd wr) d) rest
      | None => writes_of d rest
      end
  end.

(** The writes as read off the files the run started with. *)
Definition expected_writes (d : list (string * file))
           (todo : list (string * list entry)) : list (string * string) :=
  flat_map (fun t => match write_for d t with
                     | Some wr => [wr]
                     | None => []
                     end) todo.

End Loop.

(** The files after a list of writes. *)
Definition stored (ws : list (string * string)) (d : list (string * file))
  : list (string * file) :=
  fold_left (fun d wr => store (fst wr) (snd wr) d) ws d.

(** Something is at [path] that cannot be read as text. *)
Definition unreadable (path : string) (d : list (string * file)) : bool :=
  match find_file path d with
  | Some (Text _) => false
  | Some _ => true
  | None => false
  end.

(** The text the anchored mode gives when it raises nothing. *)
Definition anchored_text (es : list entry) (content : string) : string :=
  match update_path_icons.update_all_entries es content with
  | inr content' => content'
  | inl _ => content
  end.

(** The text the second copy of the direct mode gives. *)
Definition wave4_text_of (es : list entry) (content : string) : string :=
  fst (execute_wave4_updates.replace_all_entries es content).

(** ** Vocabulary for the pixel script *)

(** An image of 16 rows of 16 pixels, as [Image.new] makes it. *)
Definition is_16x16 (pixels : create_health_icon.image) : Prop :=
  List.length pixels = 16 /\ Forall (fun row => List.length row = 16) pixels.

(** The coordinates of a call of [set_pixel]. *)
Definition coordinates (call : Z * Z * create_health_icon.colour) : Z * Z :=
  fst call.

(** The pixel [(x, y)] is one of the image. *)
Definition within (x y : Z) : bool :=
  ((0 <=? x) && (x <? 16) && (0 <=? y) && (y <? 16))%Z.

(** A call of [set_pixel] that raises: its pixel is one of the image and
    its colour is not one Pillow accepts. *)
Definition raises (call : Z * Z * create_health_icon.colour) : bool :=
  let '(x, y, color) := call in
  within x y && negb (create_health_icon.accepted color).

(** Each of the four integers of a colour is a byte. *)
Definition is_rgba (color : create_health_icon.colour) : bool :=
  let '(r, g, b, a) := color in
  ((0 <=? r) && (r <? 256) && (0 <=? g) && (g <? 256) &&
   (0 <=? b) && (b <? 256) && (0 <=? a) && (a <? 256))%Z.

(** What a call of [set_pixel] that does not raise makes of the image. *)
Definition paint (x y : Z) (color : create_health_icon.colour)
           (pixels : create_health_icon.image) : create_health_icon.image :=
  if within x y then
    create_health_icon.put_pixel (Z.to_nat x) (Z.to_nat y)
                                 (create_health_icon.clip color) pixels
  else pixels.

(** What a run of calls none of which raises makes of the image. *)
Definition painted (calls : list (Z * Z * create_health_icon.colour))
           (pixels : create_health_icon.image) : create_health_icon.image :=
  fold_left (fun pixels '(x, y, color) => paint x y color pixels) calls pixels.

(** The colour of the last call at [(x, y)] in a run of calls, if any. *)
Fixpoint last_call (x y : Z) (calls : list (Z * Z * create_health_icon.colour))
  : option create_health_icon.colour :=
  match calls with
  | [] => None
  | (x', y', color) :: rest =>
      match last_call x y rest with
      | Some later => Some later
      | None => if ((x' =? x) && (y' =? y))%Z then Some color else None
      end
  end.
(* ------------------------------------------------------------------ *)
(** ** Facts about the string operations *)
(* ------------------------------------------------------------------ *)

Section StringFacts.

Lemma sapp_nil_r (s : string) : s ++ "" = s.
Proof. induction s as [|c s IH]; simpl; [reflexivity | now rewrite IH]. Qed.

Lemma sapp_assoc (a b c : string) : (a ++ b) ++ c = a ++ b ++ c.
Proof. induction a as [|x a IH]; simpl; [reflexivity | now rewrite IH]. Qed.

Lemma slength_app (a b : string) : length (a ++ b) = length a + length b.
Proof. induction a as [|x a IH]; simpl; [reflexivity | now rewrite IH]. Qed.

Lemma skip_app (a b : string) : skip (length a) (a ++ b) = b.
Proof. induction a as [|x a IH]; simpl; [now destruct b | exact IH]. Qed.

Lemma take_app (a b : string) : take (length a) (a ++ b) = a.
Proof. induction a as [|x a IH]; simpl; [reflexivity | now rewrite IH]. Qed.

Lemma take_skip (n : nat) (s : string) : take n s ++ skip n s = s.
Proof.
  revert s; induction n as [|n IH]; intros [|c s]; simpl; try reflexivity.
  now rewrite IH.
Qed.

Lemma length_skip (n : nat) (s : string) : length (skip n s) = length s - n.
Proof.
  revert s; induction n as [|n IH]; intros [|c s]; simpl; try reflexivity.
  apply IH.
Qed.

Lemma skip_app_lt (k : nat) (a b : string) :
  k <= length a -> skip k (a ++ b) = skip k a ++ b.
Proof.
  revert a; induction k as [|k IH]; intros a H; [reflexivity|].
  destruct a as [|x a]; simpl in *; [lia | apply IH; lia].
Qed.

Lemma startswith_iff (p s : string) :
  startswith p s = true <-> exists r, s = p ++ r.
Proof.
  unfold startswith. revert s; induction p as [|x p IH]; intros s; simpl.
  - split; [intros _; now exists s | now destruct s].
  - destruct s as [|y s]; simpl.
    + split; [discriminate | intros [r Hr]; discriminate].
    + destruct (ascii_dec x y) as [->|Hn].
      * rewrite IH. split; intros [r Hr]; exists r; [now rewrite Hr | now injection Hr].
      * split; [discriminate | intros [r Hr]; injection Hr as H1 _; congruence].
Qed.

Lemma startswith_app (p r : string) : startswith p (p ++ r) = true.
Proof. apply startswith_iff. now exists r. Qed.

Lemma startswith_skip (p s : string) :
  startswith p s = true -> s = p ++ skip (length p) s.
Proof.
  intros H. apply startswith_iff in H as [r ->]. now rewrite skip_app.
Qed.

Lemma occurs_at_0 (sub s : string) :
  occurs_at sub s 0 <-> startswith sub s = true.
Proof.
  rewrite startswith_iff. split.
  - intros (pre & post & -> & Hl). destruct pre; [|discriminate]. now exists post.
  - intros [r ->]. now exists "", r.
Qed.

Lemma occurs_at_S (sub : string) (c : ascii) (s : string) (k : nat) :
  occurs_at sub (String c s) (S k) <-> occurs_at sub s k.
Proof.
  split.
  - intros (pre & post & H & Hl). destruct pre as [|x pre]; [discriminate|].
    simpl in H, Hl. injection H as _ H. injection Hl as Hl.
    now exists pre, post.
  - intros (pre & post & -> & Hl). exists (String c pre), post.
    simpl. now rewrite Hl.
Qed.

Lemma contains_iff (sub s : string) :
  contains sub s = true <-> exists k, occurs_at sub s k.
Proof.
  induction s as [|c s IH]; simpl.
  - destruct (startswith sub "") eqn:E.
    + split; [intros _; exists 0; now apply occurs_at_0 | reflexivity].
    + split; [discriminate|]. intros [k (pre & post & H & Hl)].
      destruct pre; [|discriminate]. simpl in H.
      assert (startswith sub "" = true) by (apply startswith_iff; now exists post).
      congruence.
  - destruct (startswith sub (String c s)) eqn:E.
    + split; [intros _; exists 0; now apply occurs_at_0 | reflexivity].
    + rewrite IH. split; intros [k Hk].
      * exists (S k). now apply occurs_at_S.
      * destruct k as [|k].
        -- apply occurs_at_0 in Hk. congruence.
        -- exists k. now apply occurs_at_S in Hk.
Qed.

Lemma contains_app (sub pre post : string) :
  contains sub (pre ++ sub ++ post) = true.
Proof. apply contains_iff. exists (length pre), pre, post. auto. Qed.

(** Containment is transitive: [a in b] and [b in s] give [a in s]. *)
Lemma contains_trans (a b s : string) :
  contains a b = true -> contains b s = true -> contains a s = true.
Proof.
  rewrite !contains_iff.
  intros [i (p1 & q1 & -> & _)] [j (p2 & q2 & -> & _)].
  exists (length (p2 ++ p1)), (p2 ++ p1), (q1 ++ q2).
  split; [|reflexivity]. now rewrite !sapp_assoc.
Qed.

End StringFacts.
(* ------------------------------------------------------------------ *)
(** ** Facts about [replace_first] and [replace] *)
(* ------------------------------------------------------------------ *)

Section ReplaceFacts.

Variables old new : string.

Lemma contains_cons (sub : string) (c : ascii) (s : string) :
  contains sub s = true -> contains sub (String c s) = true.
Proof. intros H. simpl. rewrite H. now destruct (startswith sub (String c s)). Qed.

Lemma contains_head (sub r : string) : contains sub (sub ++ r) = true.
Proof. apply (contains_app sub "" r). Qed.

Lemma contains_refl (sub : string) : contains sub sub = true.
Proof.
  apply contains_iff. exists 0, "", "". split; [|reflexivity].
  simpl. now rewrite sapp_nil_r.
Qed.

Lemma contains_app_l (sub a b : string) :
  contains sub a = true -> contains sub (a ++ b) = true.
Proof.
  rewrite !contains_iff. intros [k (p & q & -> & _)].
  exists (length p), p, (q ++ b). now rewrite !sapp_assoc.
Qed.

Lemma not_startswith_of_not_contains (s : string) :
  contains old s = false -> startswith old s = false.
Proof. destruct s; simpl; now destruct (startswith old _). Qed.

Lemma replace_first_absent (s : string) :
  contains old s = false -> replace_first old new s = s.
Proof.
  induction s as [|c s IH]; intros H.
  - simpl. now rewrite (not_startswith_of_not_contains _ H).
  - pose proof (not_startswith_of_not_contains _ H) as E.
    simpl in *. rewrite E in *. now rewrite IH.
Qed.

(** When [old] occurs, the occurrence of least index is the one replaced:
    what stands before it and after it is kept. *)
Lemma replace_first_present (s : string) :
  contains old s = true ->
  exists pre post,
    s = pre ++ old ++ post /\
    (forall k, occurs_at old s k -> length pre <= k) /\
    replace_first old new s = pre ++ new ++ post.
Proof.
  induction s as [|c s IH]; intros H.
  - simpl in *. destruct (startswith old "") eqn:E; [|discriminate].
    exists "", (skip (length old) ""). repeat split.
    + now apply startswith_skip.
    + simpl; lia.
  - simpl in *. destruct (startswith old (String c s)) eqn:E.
    + exists "", (skip (length old) (String c s)). repeat split.
      * now apply startswith_skip.
      * simpl; lia.
    + destruct (IH H) as (pre & post & Hs & Hfirst & Hr).
      exists (String c pre), post. repeat split.
      * simpl. now rewrite <- Hs.
      * intros [|k] Hk.
        -- apply occurs_at_0 in Hk. congruence.
        -- apply occurs_at_S in Hk. apply Hfirst in Hk. simpl; lia.
      * simpl. now rewrite Hr.
Qed.

Lemma replace_absent (s : string) :
  contains old s = false -> replace old new s = s.
Proof.
  unfold replace. induction s as [|c s IH]; intros H.
  - simpl. now rewrite (not_startswith_of_not_contains _ H).
  - pose proof (not_startswith_of_not_contains _ H) as E.
    simpl in *. rewrite E in *. now rewrite IH.
Qed.

(** When [old] occurs, the result holds [new]. *)
Lemma replace_present (s : string) :
  contains old s = true -> contains new (replace old new s) = true.
Proof.
  unfold replace. induction s as [|c s IH]; intros H.
  - simpl in *. destruct (startswith old ""); [|discriminate].
    apply contains_refl.
  - simpl in *. destruct (startswith old (String c s)) eqn:E.
    + destruct old; apply contains_head.
    + apply contains_cons. now apply IH.
Qed.

(** What [new] holds and [s] holds, the result still holds. *)
Lemma replace_keeps (x s : string) :
  contains x new = true -> contains x s = true ->
  contains x (replace old new s) = true.
Proof.
  intros Hn Hs. destruct (contains old s) eqn:E.
  - eapply contains_trans; [exact Hn | now apply replace_present].
  - now rewrite replace_absent.
Qed.

End ReplaceFacts.

(* ------------------------------------------------------------------ *)
(** ** Facts about the file store *)
(* ------------------------------------------------------------------ *)

Lemma find_store (path content : string) (fs : list (string * file)) :
  find_file path (store path content fs) = Some (Text content).
Proof.
  induction fs as [|[p f] fs IH]; simpl.
  - now rewrite String.eqb_refl.
  - destruct (p =? path)%string eqn:E; simpl; now rewrite E.
Qed.

Lemma find_store_other (p path content : string) (fs : list (string * file)) :
  p <> path -> find_file p (store path content fs) = find_file p fs.
Proof.
  intros Hp. induction fs as [|[q f] fs IH]; simpl.
  - destruct (path =? p)%string eqn:E; [|reflexivity].
    apply String.eqb_eq in E. congruence.
  - destruct (q =? path)%string eqn:E; simpl.
    + apply String.eqb_eq in E. subst q.
      destruct (path =? p)%string eqn:E'; [|reflexivity].
      apply String.eqb_eq in E'. congruence.
    + destruct (q =? p)%string; [reflexivity | exact IH].
Qed.

Lemma lookup_store (path content : string) (fs : list (string * file)) :
  lookup path (store path content fs) = Some content.
Proof. unfold lookup. now rewrite find_store. Qed.

Lemma eqb_false_of_neq (a b : string) : a <> b -> (a =? b)%string = false.
Proof. apply String.eqb_neq. Qed.

(* ------------------------------------------------------------------ *)
(** ** The direct-mode loops *)
(* ------------------------------------------------------------------ *)

(** The two copies of [replace_icons_in_file] compute the same text; the
    second one counts the entries that matched on the way. *)
Lemma wave4_entry_text (e : entry) (content : string) (n : nat) :
  fst (execute_wave4_updates.replace_entry e (content, n)) =
  apply_icon_updates.replace_entry e content.
Proof.
  destruct e as [old_icon new_icon]. simpl.
  destruct (contains (direct_pattern old_icon) content) eqn:E; simpl.
  - reflexivity.
  - now rewrite replace_first_absent.
Qed.

Lemma wave4_fold_text (es : list entry) (content : string) (n : nat) :
  fst (fold_left (fun st e => execute_wave4_updates.replace_entry e st) es
                 (content, n)) =
  apply_icon_updates.replace_all_entries es content.
Proof.
  unfold apply_icon_updates.replace_all_entries.
  revert content n; induction es as [|e es IH]; intros content n; simpl.
  - reflexivity.
  - pose proof (wave4_entry_text e content n) as H.
    destruct (execute_wave4_updates.replace_entry e (content, n)) as [c' n'].
    simpl in H. rewrite <- H. apply IH.
Qed.

Lemma wave4_text (es : list entry) (content : string) :
  fst (execute_wave4_updates.replace_all_entries es content) =
  apply_icon_updates.replace_all_entries es content.
Proof. apply wave4_fold_text. Qed.

(* ------------------------------------------------------------------ *)
(** ** How the scripts run on a file that exists *)
(* ------------------------------------------------------------------ *)

Section Runs.

Variables (w : world) (path content : string).
Hypothesis Hfile : lookup path (files w) = Some content.

Lemma find_text : find_file path (files w) = Some (Text content).
Proof.
  unfold lookup in Hfile.
  destruct (find_file path (files w)) as [[c| | |]|]; congruence.
Qed.

Lemma inject_run (section : string) (already done : line) :
  inject path section already done w =
  if contains block_name content then
    (inr false, mkWorld (files w) (writes w) (stdout w ++ [already]))
  else
    (inr true,
     mkWorld (store path (inject_content section content) (files w))
             (writes w ++ [(path, inject_content section content)])
             (stdout w ++ [done])).
Proof.
  unfold inject, bind, read_file, write_file. rewrite Hfile.
  destruct (contains block_name content); [reflexivity|].
  cbv beta iota zeta. now rewrite find_text.
Qed.

Lemma apply_icon_updates_run (replacements : list entry) :
  apply_icon_updates.replace_icons_in_file path replacements w =
  let content' := apply_icon_updates.replace_all_entries replacements content in
  if (content' =? content)%string then (inr false, w)
  else (inr true,
        mkWorld (store path content' (files w))
                (writes w ++ [(path, content')])
                (stdout w)).
Proof.
  unfold apply_icon_updates.replace_icons_in_file, bind, read_file, write_file.
  rewrite Hfile. cbv zeta.
  destruct (_ =? content)%string; [reflexivity|].
  cbn [negb]. cbv beta iota zeta. now rewrite find_text.
Qed.

Lemma execute_wave4_updates_run (replacements : list entry) :
  execute_wave4_updates.replace_icons_in_file path replacements w =
  let st := execute_wave4_updates.replace_all_entries replacements content in
  if (fst st =? content)%string then
    (inr false,
     mkWorld (files w) (writes w) (stdout w ++ [Processing path; NoChangesMade]))
  else
    (inr true,
     mkWorld (store path (fst st) (files w))
             (writes w ++ [(path, fst st)])
             (stdout w ++ [Processing path; Replaced (snd st)])).
Proof.
  unfold execute_wave4_updates.replace_icons_in_file, bind, read_file, print,
    write_file.
  cbn [files writes stdout]. rewrite Hfile. cbv zeta.
  destruct (execute_wave4_updates.replace_all_entries replacements content)
    as [c' n].
  cbn [fst snd]. destruct (c' =? content)%string;
    cbn [negb]; cbv beta iota zeta; cbn [files writes stdout];
    rewrite ?find_text;
    unfold ret; cbn [files writes stdout];
    rewrite <- List.app_assoc; reflexivity.
Qed.

Lemma update_file_run (icon_mappings : list entry) :
  update_path_icons.update_file path icon_mappings w =
  match update_path_icons.update_all_entries icon_mappings content with
  | inl e =>
      (inl e, mkWorld (files w) (writes w) (stdout w ++ [Processing path]))
  | inr content' =>
      if (content' =? content)%string then
        (inr false,
         mkWorld (files w) (writes w)
                 (stdout w ++ [Processing path; NoChangesMadeTo path]))
      else
        (inr true,
         mkWorld (store path content' (files w))
                 (writes w ++ [(path, content')])
                 (stdout w ++ [Processing path; Updated path]))
  end.
Proof.
  unfold update_path_icons.update_file, bind, read_file, print, lift,
    write_file.
  cbn [files writes stdout]. rewrite Hfile.
  destruct (update_path_icons.update_all_entries icon_mappings content)
    as [e|c']; [reflexivity|].
  destruct (c' =? content)%string;
    cbn [negb]; cbv beta iota zeta; cbn [files writes stdout];
    rewrite ?find_text;
    unfold ret; cbn [files writes stdout];
    rewrite <- List.app_assoc; reflexivity.
Qed.

End Runs.

(** Both blocks declare [PATH_ABILITY_ICONS]. *)
Lemma section_names_block :
  contains block_name update_icons_constants.path_ability_icons_section = true.
Proof. vm_compute. reflexivity. Qed.

Lemma wave4_section_names_block :
  contains block_name execute_wave4_updates.path_ability_icons = true.
Proof. vm_compute. reflexivity. Qed.

Lemma new_export_names_block : contains block_name new_export = true.
Proof. vm_compute. reflexivity. Qed.

(** Once the marker is there, the injected text names the block. *)
Lemma inject_content_names_block (section content : string) :
  contains block_name section = true ->
  contains insertion_marker content = true ->
  contains block_name (inject_content section content) = true.
Proof.
  intros Hsec Hm. unfold inject_content.
  apply replace_keeps; [exact new_export_names_block|].
  eapply contains_trans; [|apply replace_present; exact Hm].
  now apply contains_app_l.
Qed.

(** Without the marker only the aggregate export is looked at. *)
Lemma inject_content_no_marker (section content : string) :
  contains insertion_marker content = false ->
  inject_content section content = replace old_export new_export content.
Proof.
  intros H. unfold inject_content.
  now rewrite (replace_absent insertion_marker _ content H).
Qed.

(** The two copies of [update_icons_constants] on a file that exists. *)
Lemma constants_run (w : world) (content : string) :
  lookup update_icons_constants.filepath (files w) = Some content ->
  update_icons_constants.update_icons_constants w =
  if contains block_name content then
    (inr false, mkWorld (files w) (writes w) (stdout w ++ [AlreadyExists]))
  else
    let content' :=
      inject_content update_icons_constants.path_ability_icons_section content in
    (inr true,
     mkWorld (store update_icons_constants.filepath content' (files w))
             (writes w ++ [(update_icons_constants.filepath, content')])
             (stdout w ++ [Updated update_icons_constants.filepath])).
Proof. intros H. unfold update_icons_constants.update_icons_constants.
  now rewrite (inject_run w _ content H). Qed.

Lemma wave4_constants_run (w : world) (content : string) :
  lookup execute_wave4_updates.filepath (files w) = Some content ->
  execute_wave4_updates.update_icons_constants w =
  if contains block_name content then
    (inr false,
     mkWorld (files w) (writes w) (stdout w ++ [Step2Header; AlreadyExists]))
  else
    let content' :=
      inject_content execute_wave4_updates.path_ability_icons content in
    (inr true,
     mkWorld (store execute_wave4_updates.filepath content' (files w))
             (writes w ++ [(execute_wave4_updates.filepath, content')])
             (stdout w ++ [Step2Header; Added execute_wave4_updates.filepath])).
Proof.
  intros H. unfold execute_wave4_updates.update_icons_constants, bind, print.
  rewrite (inject_run _ _ content); [|exact H]. cbn [files writes stdout].
  destruct (contains block_name content); cbv zeta;
    rewrite <- List.app_assoc; reflexivity.
Qed.

(* ------------------------------------------------------------------ *)
(** ** The matcher on the anchored pattern *)
(* ------------------------------------------------------------------ *)

Section WhileFacts.

Variable p : ascii -> bool.

Lemma take_drop_while (s : string) : take_while p s ++ drop_while p s = s.
Proof.
  induction s as [|c s IH]; simpl; [reflexivity|].
  destruct (p c); simpl; [now rewrite IH | reflexivity].
Qed.

Lemma every_take_while (s : string) : every p (take_while p s) = true.
Proof.
  induction s as [|c s IH]; simpl; [reflexivity|].
  destruct (p c) eqn:E; simpl; [now rewrite E | reflexivity].
Qed.

Lemma drop_while_app (a b : string) :
  every p a = true -> stops p b -> drop_while p (a ++ b) = b.
Proof.
  induction a as [|c a IH]; simpl; intros Ha Hb.
  - destruct b as [|d b]; [reflexivity|]. simpl in *. now rewrite Hb.
  - apply andb_true_iff in Ha as [Hc Ha]. rewrite Hc. now apply IH.
Qed.

Lemma every_app (a b : string) :
  every p (a ++ b) = every p a && every p b.
Proof.
  induction a as [|c a IH]; simpl; [reflexivity|].
  now rewrite IH, andb_assoc.
Qed.

End WhileFacts.

Section MatcherFacts.

Context {R : Type}.

(** A greedy repetition whose continuation refuses every input that
    starts with a character of the class gives nothing back: it takes the
    whole run. *)
Lemma greedy_cut (cls : ascii -> bool) (k : string -> option R) (s : string) :
  (forall c s', cls c = true -> k (String c s') = None) ->
  Re.greedy cls s k = k (drop_while cls s).
Proof.
  intros Hk. induction s as [|c s IH]; simpl; [reflexivity|].
  destruct (cls c) eqn:E; [|reflexivity].
  rewrite IH. destruct (k (drop_while cls s)); [reflexivity|].
  now apply Hk.
Qed.

Lemma startswith_cons_false (c d : ascii) (l s : string) :
  c <> d -> startswith (String d l) (String c s) = false.
Proof.
  intros H. destruct (startswith _ _) eqn:E; [|reflexivity].
  apply startswith_iff in E as [r Hr]. simpl in Hr. injection Hr as Hc _.
  congruence.
Qed.

Lemma space_not_quote (c : ascii) : Re.is_space c = true -> c <> "'"%char.
Proof. intros H ->. vm_compute in H. discriminate. Qed.

Lemma not_quote_neq (c : ascii) : Re.not_quote c = true -> c <> "'"%char.
Proof. intros H ->. vm_compute in H. discriminate. Qed.

Lemma not_quote_of_neq (c : ascii) : c <> "'"%char -> Re.not_quote c = true.
Proof.
  intros H. unfold Re.not_quote. destruct (Ascii.eqb_spec c "'"); [contradiction|].
  reflexivity.
Qed.

(** The field half of the pattern is deterministic: it matches exactly
    when [field_end] finds a field, and hands over what follows it. *)
Lemma exec_field (s : string) (g : option string)
      (k : string -> option string -> option R) :
  Re.exec field_regex s g k =
  match field_end s with
  | Some r => k r g
  | None => None
  end.
Proof.
  unfold field_regex, field_end. cbn [Re.exec].
  destruct (startswith "icon:" s); [|reflexivity].
  change (length "icon:") with 5. change (length "'") with 1.
  rewrite greedy_cut.
  2:{ intros c s' Hc. rewrite startswith_cons_false; [reflexivity|].
      now apply space_not_quote. }
  cbv zeta. destruct (startswith "'" _); [|reflexivity].
  destruct (skip 1 _) as [|c s3]; [reflexivity|].
  destruct (Re.not_quote c); [|reflexivity].
  rewrite greedy_cut.
  2:{ intros d s' Hd. rewrite startswith_cons_false; [reflexivity|].
      now apply not_quote_neq. }
  destruct (startswith "'" _); reflexivity.
Qed.

Lemma lazy_ext (cls : ascii -> bool) (k k' : string -> option R) (s : string) :
  (forall s', k s' = k' s') -> Re.lazy cls s k = Re.lazy cls s k'.
Proof.
  intros H. induction s as [|c s IH]; simpl; rewrite H; [reflexivity|].
  now rewrite IH.
Qed.

(** The lazy [[\s\S]*?] before the field half stops at the first
    suffix that starts with a field. *)
Lemma lazy_any_field (s : string) (k : string -> string -> R) :
  Re.lazy Re.any_char s
    (fun s2 => match field_end s2 with
               | Some r => Some (k s2 r)
               | None => None
               end) =
  match next_field s with
  | Some (s2, r) => Some (k s2 r)
  | None => None
  end.
Proof.
  induction s as [|c s IH].
  - cbn [Re.lazy next_field]. now destruct (field_end "").
  - cbn [Re.lazy next_field]. destruct (field_end (String c s)) as [r|].
    + reflexivity.
    + cbn [Re.any_char]. exact IH.
Qed.

End MatcherFacts.

(** The matcher on the pattern of an entry is [match_spec]. *)
Lemma match_at_pattern (ability_id s : string) :
  Re.match_at (update_path_icons.pattern ability_id) s = match_spec ability_id s.
Proof.
  unfold Re.match_at, update_path_icons.pattern, match_spec, anchor_end.
  change (Re.Cat (Re.Lit "icon:") _) with field_regex.
  cbn [Re.exec].
  destruct (startswith "id:" s); [|reflexivity].
  change (length "id:") with 3.
  rewrite greedy_cut.
  2:{ intros c s' Hc. cbn [append]. rewrite startswith_cons_false; [reflexivity|].
      now apply space_not_quote. }
  cbv zeta. destruct (startswith _ (drop_while _ _)); [|reflexivity].
  set (s1 := skip _ (drop_while _ _)).
  erewrite lazy_ext; [|intros s2; apply exec_field].
  cbv beta.
  rewrite (lazy_any_field s1
             (fun s2 r => Re.mkMatch (take (length s - length r) s)
                            (Some (take (length s - length s2) s)) r)).
  destruct (next_field s1) as [[s2 r]|]; reflexivity.
Qed.

(* ------------------------------------------------------------------ *)
(** ** The shapes as functions and as propositions *)
(* ------------------------------------------------------------------ *)

Lemma stops_space_quote (s : string) : stops Re.is_space (String "'" s).
Proof. reflexivity. Qed.

Lemma stops_not_quote_quote (s : string) : stops Re.not_quote (String "'" s).
Proof. reflexivity. Qed.

Lemma anchor_end_intro (ability_id a s1 : string) :
  is_anchor ability_id a -> anchor_end ability_id (a ++ s1) = Some s1.
Proof.
  intros (ws & Hws & ->). unfold anchor_end.
  rewrite !sapp_assoc. rewrite (startswith_app "id:").
  cbn [append skip]. rewrite drop_while_app; [|exact Hws|apply stops_space_quote].
  cbv zeta.
  change (String "'" (ability_id ++ String "'" (String "," s1)))
    with ("'" ++ ability_id ++ "'," ++ s1).
  replace ("'" ++ ability_id ++ "'," ++ s1)
    with (("'" ++ ability_id ++ "',") ++ s1)
    by now rewrite !sapp_assoc.
  now rewrite startswith_app, skip_app.
Qed.

Lemma anchor_end_elim (ability_id s s1 : string) :
  anchor_end ability_id s = Some s1 ->
  exists a, is_anchor ability_id a /\ s = a ++ s1.
Proof.
  unfold anchor_end. destruct (startswith "id:" s) eqn:E1; [|discriminate].
  cbv zeta. set (q := "'" ++ ability_id ++ "',").
  destruct (startswith q _) eqn:E2; [|discriminate].
  change (length "id:") with 3 in *. set (t := skip 3 s) in *.
  intros H.
  assert (Hs1 : skip (length q) (drop_while Re.is_space t) = s1) by congruence.
  clear H. apply startswith_skip in E1, E2. change (length "id:") with 3 in E1.
  fold t in E1. rewrite Hs1 in E2.
  exists ("id:" ++ take_while Re.is_space t ++ q). split.
  - exists (take_while Re.is_space t). split; [apply every_take_while | reflexivity].
  - rewrite !sapp_assoc. rewrite <- E2. rewrite take_drop_while. exact E1.
Qed.

Lemma anchor_end_iff (ability_id s s1 : string) :
  anchor_end ability_id s = Some s1 <->
  exists a, is_anchor ability_id a /\ s = a ++ s1.
Proof.
  split; [apply anchor_end_elim|].
  intros (a & Ha & ->). now apply anchor_end_intro.
Qed.

Lemma anchor_at_iff (ability_id s : string) :
  anchor_at ability_id s <-> anchor_end ability_id s <> None.
Proof.
  split.
  - intros (a & r & Ha & ->). now rewrite (anchor_end_intro _ _ _ Ha).
  - destruct (anchor_end ability_id s) as [s1|] eqn:E; [|congruence].
    intros _. apply anchor_end_elim in E as (a & Ha & ->). now exists a, s1.
Qed.

Lemma field_end_intro (f r : string) :
  is_field f -> field_end (f ++ r) = Some r.
Proof.
  intros (ws & v & Hws & Hv & Hnq & ->). unfold field_end.
  rewrite !sapp_assoc. rewrite (startswith_app "icon:").
  cbn [append skip]. rewrite drop_while_app; [|exact Hws|apply stops_space_quote].
  cbv zeta.
  change (String "'" (v ++ String "'" r)) with ("'" ++ v ++ "'" ++ r).
  rewrite (startswith_app "'"). cbn [append skip].
  destruct v as [|c v]; [contradiction|]. cbn [append].
  cbn [every] in Hnq. apply andb_true_iff in Hnq as [Hc Hnq]. rewrite Hc.
  rewrite drop_while_app; [|exact Hnq|apply stops_not_quote_quote].
  change (String "'" r) with ("'" ++ r).
  now rewrite (startswith_app "'").
Qed.

Lemma field_end_elim (s r : string) :
  field_end s = Some r -> exists f, is_field f /\ s = f ++ r.
Proof.
  unfold field_end. destruct (startswith "icon:" s) eqn:E1; [|discriminate].
  cbv zeta. apply startswith_skip in E1. change (length "icon:") with 5 in E1.
  set (t := skip 5 s) in *.
  destruct (startswith "'" (drop_while Re.is_space t)) eqn:E2; [|discriminate].
  apply startswith_skip in E2. change (length "'") with 1 in E2.
  destruct (skip 1 (drop_while Re.is_space t)) as [|c s3] eqn:E3; [discriminate|].
  destruct (Re.not_quote c) eqn:Ec; [|discriminate].
  destruct (startswith "'" (drop_while Re.not_quote s3)) eqn:E4; [|discriminate].
  apply startswith_skip in E4. change (length "'") with 1 in E4.
  intros H.
  assert (Hr : skip 1 (drop_while Re.not_quote s3) = r) by congruence.
  clear H. rewrite Hr in E4.
  exists ("icon:" ++ take_while Re.is_space t ++ "'" ++
          String c (take_while Re.not_quote s3) ++ "'").
  split.
  - exists (take_while Re.is_space t), (String c (take_while Re.not_quote s3)).
    repeat split.
    + apply every_take_while.
    + discriminate.
    + cbn [every]. rewrite Ec. apply every_take_while.
  - assert (H3 : s3 = take_while Re.not_quote s3 ++ "'" ++ r)
      by (now rewrite <- E4, take_drop_while).
    assert (Ht : t = take_while Re.is_space t ++ "'" ++ String c s3)
      by (now rewrite <- E2, take_drop_while).
    rewrite E1 at 1. rewrite Ht at 1. rewrite H3 at 1.
    rewrite !sapp_assoc. reflexivity.
Qed.

Lemma field_end_iff (s r : string) :
  field_end s = Some r <-> exists f, is_field f /\ s = f ++ r.
Proof.
  split; [apply field_end_elim|].
  intros (f & Hf & ->). now apply field_end_intro.
Qed.

Lemma field_at_iff (s : string) : field_at s <-> field_end s <> None.
Proof.
  split.
  - intros (f & r & Hf & ->). now rewrite (field_end_intro _ _ Hf).
  - destruct (field_end s) as [r|] eqn:E; [|congruence].
    intros _. apply field_end_elim in E as (f & Hf & ->). now exists f, r.
Qed.

(* ------------------------------------------------------------------ *)
(** ** The first field, the leftmost match *)
(* ------------------------------------------------------------------ *)

Lemma next_field_intro (mid s2 r : string) :
  field_end s2 = Some r ->
  (forall j, j < length mid -> field_end (skip j (mid ++ s2)) = None) ->
  next_field (mid ++ s2) = Some (s2, r).
Proof.
  induction mid as [|c mid IH]; intros Hf Hfirst.
  - cbn [append]. destruct s2; cbn [next_field]; now rewrite Hf.
  - cbn [append next_field].
    assert (H0 : field_end (String c (mid ++ s2)) = None)
      by (apply (Hfirst 0); simpl; lia).
    rewrite H0.
    apply IH; [exact Hf|]. intros j Hj. apply (Hfirst (S j)). simpl; lia.
Qed.

Lemma next_field_elim (s s2 r : string) :
  next_field s = Some (s2, r) ->
  exists mid,
    s = mid ++ s2 /\ field_end s2 = Some r /\
    (forall j, j < length mid -> field_end (skip j s) = None).
Proof.
  induction s as [|c s IH]; cbn [next_field].
  - destruct (field_end "") as [r0|] eqn:E; [|discriminate].
    intros H. injection H as <- <-. exists "". repeat split; [exact E|].
    simpl; lia.
  - destruct (field_end (String c s)) as [r0|] eqn:E.
    + intros H. injection H as <- <-. exists "". repeat split; [exact E|].
      simpl; lia.
    + intros H. destruct (IH H) as (mid & -> & Hf & Hfirst).
      exists (String c mid). repeat split; [exact Hf|].
      intros [|j] Hj; [exact E|]. apply Hfirst. simpl in Hj; lia.
Qed.

(** A field somewhere in [s] makes [next_field] succeed. *)
Lemma next_field_exists (a b : string) :
  field_end b <> None -> next_field (a ++ b) <> None.
Proof.
  intros Hb. induction a as [|c a IH]; cbn [append next_field].
  - destruct b; cbn [next_field]; destruct (field_end _); congruence.
  - destruct (field_end (String c (a ++ b))); [congruence | exact IH].
Qed.

Section SearchFacts.

Variable r : Re.regex.

Lemma search_intro (pre s0 : string) (m : Re.match_object) :
  Re.match_at r s0 = Some m ->
  (forall k, k < length pre -> Re.match_at r (skip k (pre ++ s0)) = None) ->
  Re.search r (pre ++ s0) = Some (pre, m).
Proof.
  induction pre as [|c pre IH]; intros Hm Hfirst.
  - cbn [append]. destruct s0; cbn [Re.search]; now rewrite Hm.
  - cbn [append Re.search].
    assert (H0 : Re.match_at r (String c (pre ++ s0)) = None)
      by (apply (Hfirst 0); simpl; lia).
    rewrite H0.
    rewrite IH; [reflexivity | exact Hm |].
    intros k Hk. apply (Hfirst (S k)). simpl; lia.
Qed.

Lemma search_elim (s pre : string) (m : Re.match_object) :
  Re.search r s = Some (pre, m) ->
  exists s0,
    s = pre ++ s0 /\ Re.match_at r s0 = Some m /\
    (forall k, k < length pre -> Re.match_at r (skip k s) = None).
Proof.
  revert pre; induction s as [|c s IH]; intros pre; cbn [Re.search].
  - destruct (Re.match_at r "") as [m0|] eqn:E; [|discriminate].
    intros H. injection H as <- <-. exists "". repeat split; [exact E|].
    simpl; lia.
  - destruct (Re.match_at r (String c s)) as [m0|] eqn:E.
    + intros H. injection H as <- <-. exists (String c s).
      repeat split; [exact E|]. simpl; lia.
    + destruct (Re.search r s) as [[before m1]|] eqn:Es; [|discriminate].
      intros H. injection H as <- <-.
      destruct (IH before eq_refl) as (s0 & -> & Hm & Hfirst).
      exists s0. repeat split; [exact Hm|].
      intros [|k] Hk; [exact E|]. apply Hfirst. simpl in Hk; lia.
Qed.

(** A match somewhere in [s] makes [search] succeed. *)
Lemma search_exists (pre s0 : string) :
  Re.match_at r s0 <> None -> Re.search r (pre ++ s0) <> None.
Proof.
  intros H. induction pre as [|c pre IH]; cbn [append Re.search].
  - destruct s0; cbn [Re.search]; destruct (Re.match_at r _); congruence.
  - destruct (Re.match_at r (String c (pre ++ s0))); [congruence|].
    destruct (Re.search r (pre ++ s0)) as [[before m]|]; congruence.
Qed.

Lemma search_none (s : string) :
  (forall k, Re.match_at r (skip k s) = None) -> Re.search r s = None.
Proof.
  induction s as [|c s IH]; intros H; cbn [Re.search].
  - pose proof (H 0) as H0. cbn [skip] in H0. now rewrite H0.
  - pose proof (H 0) as H0. cbn [skip] in H0. rewrite H0.
    rewrite IH; [reflexivity|]. intros k. apply (H (S k)).
Qed.

End SearchFacts.

(* ------------------------------------------------------------------ *)
(** ** Replacement templates *)
(* ------------------------------------------------------------------ *)

Lemma no_backslash_cons (c : ascii) (s : string) :
  contains "\" (String c s) = false ->
  (c =? "\")%char = false /\ contains "\" s = false.
Proof.
  cbn [contains]. destruct (startswith "\" (String c s)) eqn:E; [discriminate|].
  intros H. split; [|exact H].
  destruct (Ascii.eqb_spec c "\"); [|reflexivity]. subst c.
  change (String "\" s) with ("\" ++ s) in E. now rewrite startswith_app in E.
Qed.

Lemma tokens_plain (s : string) :
  contains "\" s = false -> Re.tokens s = inr (chars s).
Proof.
  induction s as [|c s IH]; intros H; [reflexivity|].
  apply no_backslash_cons in H as [Hc Hs].
  cbn [Re.tokens]. rewrite Hc, (IH Hs). reflexivity.
Qed.

Lemma parse_tokens_chars (n : nat) (s : string) :
  Re.parse_tokens n None (chars s) = inr (map Re.Literal (chars s)).
Proof.
  induction s as [|c s IH]; [reflexivity|].
  unfold chars in *. cbn [list_ascii_of_string map Re.parse_tokens].
  now rewrite IH.
Qed.

Lemma expand_literals (s : string) (m : Re.match_object) :
  Re.expand (map Re.Literal (chars s)) m = s.
Proof.
  induction s as [|c s IH]; [reflexivity|].
  unfold chars in *. cbn [list_ascii_of_string map Re.expand Re.expand_piece].
  now rewrite IH.
Qed.

Lemma contains_backslash_app (a b : string) :
  contains "\" a = false -> contains "\" b = false ->
  contains "\" (a ++ b) = false.
Proof.
  induction a as [|c a IH]; intros Ha Hb; [exact Hb|].
  apply no_backslash_cons in Ha as [Hc Ha]. cbn [append contains].
  rewrite (IH Ha Hb). rewrite startswith_cons_false; [reflexivity|].
  intros ->. discriminate.
Qed.

(** [\1] before a token that is no digit is a reference to group 1. *)
Lemma parse_group1 (T : list string) :
  Re.parse_tokens 1 None ("\1" :: "i" :: T) =
  Re.cons_piece (Re.GroupRef 1)
    (Re.cons_piece (Re.Literal "i") (Re.parse_tokens 1 None T)).
Proof. reflexivity. Qed.

Lemma tokens_replacement (new_icon : string) :
  Re.tokens (update_path_icons.replacement new_icon) =
  match Re.tokens ("con: '" ++ new_icon ++ "'") with
  | inl e => inl e
  | inr ts => inr ("\1" :: "i" :: ts)
  end.
Proof.
  unfold update_path_icons.replacement.
  change ("\1icon: '" ++ new_icon ++ "'")
    with (String "\" (String "1" (String "i" ("con: '" ++ new_icon ++ "'")))).
  cbn [Re.tokens]. change ("\" =? "\")%char with true.
  change ("i" =? "\")%char with false. cbv iota.
  destruct (Re.tokens _); reflexivity.
Qed.

(** The template of an entry whose new value holds no backslash: group 1,
    then the field written out. *)
Lemma template_plain (new_icon : string) :
  contains "\" new_icon = false ->
  Re.parse_template (update_path_icons.replacement new_icon) 1 =
  inr (Re.GroupRef 1 :: map Re.Literal (chars ("icon: '" ++ new_icon ++ "'"))).
Proof.
  intros H. unfold Re.parse_template. rewrite tokens_replacement.
  assert (Hp : contains "\" ("con: '" ++ new_icon ++ "'") = false)
    by (apply (contains_backslash_app "con: '");
        [reflexivity | now apply contains_backslash_app]).
  rewrite (tokens_plain _ Hp), parse_group1, parse_tokens_chars. reflexivity.
Qed.

(** Whatever the new value, a template that compiles starts with
    group 1. *)
Lemma template_head (new_icon : string) (ps : list Re.piece) :
  Re.parse_template (update_path_icons.replacement new_icon) 1 = inr ps ->
  exists ps', ps = Re.GroupRef 1 :: ps'.
Proof.
  unfold Re.parse_template. rewrite tokens_replacement.
  destruct (Re.tokens _) as [e|ts]; [discriminate|].
  rewrite parse_group1.
  destruct (Re.parse_tokens 1 None ts) as [e|ps']; [discriminate|].
  cbn [Re.cons_piece]. intros H. injection H as <-. now eexists.
Qed.

(* ------------------------------------------------------------------ *)
(** ** One entry of the anchored mode *)
(* ------------------------------------------------------------------ *)

Lemma take_app_minus (x y : string) :
  take (length (x ++ y) - length y) (x ++ y) = x.
Proof.
  rewrite slength_app. replace (length x + length y - length y) with (length x) by lia.
  apply take_app.
Qed.

(** No anchor anywhere: the pattern matches nowhere. *)
Lemma search_without_anchor (ability_id text : string) :
  ~ anchor_occurs ability_id text ->
  Re.search (update_path_icons.pattern ability_id) text = None.
Proof.
  intros H. apply search_none. intros k. rewrite match_at_pattern.
  unfold match_spec.
  destruct (anchor_end ability_id (skip k text)) as [s1|] eqn:E; [|reflexivity].
  exfalso. apply H. apply anchor_end_elim in E as (a & Ha & Hs).
  exists (take k text), a, s1. split; [exact Ha|].
  rewrite <- Hs. now rewrite take_skip.
Qed.

Section OneEntry.

Variables ability_id new_icon : string.

Lemma update_entry_unmatched (text : string) (ps : list Re.piece) :
  Re.parse_template (update_path_icons.replacement new_icon) 1 = inr ps ->
  Re.search (update_path_icons.pattern ability_id) text = None ->
  update_path_icons.update_entry (ability_id, new_icon) text = inr text.
Proof.
  intros Hp Hs. unfold update_path_icons.update_entry, Re.sub1.
  change (Re.groups (update_path_icons.pattern ability_id)) with 1.
  now rewrite Hp, Hs.
Qed.

Lemma update_entry_matched (text pre : string) (m : Re.match_object)
      (ps : list Re.piece) :
  Re.parse_template (update_path_icons.replacement new_icon) 1 = inr ps ->
  Re.search (update_path_icons.pattern ability_id) text = Some (pre, m) ->
  update_path_icons.update_entry (ability_id, new_icon) text =
  inr (pre ++ Re.expand ps m ++ Re.rest m).
Proof.
  intros Hp Hs. unfold update_path_icons.update_entry, Re.sub1.
  change (Re.groups (update_path_icons.pattern ability_id)) with 1.
  now rewrite Hp, Hs.
Qed.

(** The match at the head of an anchor, a stretch without a field, and a
    field. *)
Lemma match_spec_intro (a mid f post : string) :
  is_anchor ability_id a -> is_field f ->
  (forall j, j < length mid -> field_end (skip j (mid ++ f ++ post)) = None) ->
  match_spec ability_id (a ++ mid ++ f ++ post) =
  Some (Re.mkMatch (a ++ mid ++ f) (Some (a ++ mid)) post).
Proof.
  intros Ha Hf Hfirst. unfold match_spec.
  rewrite (anchor_end_intro _ _ _ Ha).
  rewrite (next_field_intro mid (f ++ post) post);
    [|now apply field_end_intro|exact Hfirst].
  f_equal. f_equal.
  - replace (a ++ mid ++ f ++ post) with ((a ++ mid ++ f) ++ post)
      by now rewrite !sapp_assoc.
    apply take_app_minus.
  - f_equal.
    replace (a ++ mid ++ f ++ post) with ((a ++ mid) ++ f ++ post)
      by now rewrite !sapp_assoc.
    apply take_app_minus.
Qed.

Lemma match_spec_elim (s : string) (m : Re.match_object) :
  match_spec ability_id s = Some m ->
  exists a mid f,
    is_anchor ability_id a /\ is_field f /\
    s = a ++ mid ++ f ++ Re.rest m /\
    (forall j, j < length mid ->
               field_end (skip j (mid ++ f ++ Re.rest m)) = None) /\
    Re.group0 m = a ++ mid ++ f /\ Re.group1 m = Some (a ++ mid).
Proof.
  unfold match_spec.
  destruct (anchor_end ability_id s) as [s1|] eqn:Ea; [|discriminate].
  destruct (next_field s1) as [[s2 r]|] eqn:En; [|discriminate].
  intros H. injection H as <-. cbn [Re.rest Re.group0 Re.group1].
  apply anchor_end_elim in Ea as (a & Ha & ->).
  apply next_field_elim in En as (mid & -> & Hfe & Hfirst).
  apply field_end_elim in Hfe as (f & Hf & ->).
  exists a, mid, f. repeat split; try assumption.
  - replace (a ++ mid ++ f ++ r) with ((a ++ mid ++ f) ++ r)
      by now rewrite !sapp_assoc.
    apply take_app_minus.
  - f_equal.
    replace (a ++ mid ++ f ++ r) with ((a ++ mid) ++ f ++ r)
      by now rewrite !sapp_assoc.
    apply take_app_minus.
Qed.

(** Completeness: an anchor with no match of the pattern starting before
    it, then a stretch in which no field starts, then a field.  The field
    is written anew after group 1. *)
Lemma anchored_entry_applies (pre a mid f post : string) :
  contains "\" new_icon = false ->
  is_anchor ability_id a -> is_field f ->
  (forall k, k < length pre ->
             match_spec ability_id (skip k (pre ++ a ++ mid ++ f ++ post)) = None) ->
  (forall j, j < length mid -> field_end (skip j (mid ++ f ++ post)) = None) ->
  update_path_icons.update_entry (ability_id, new_icon)
    (pre ++ a ++ mid ++ f ++ post) =
  inr (pre ++ a ++ mid ++ ("icon: '" ++ new_icon ++ "'") ++ post).
Proof.
  intros Hn Ha Hf Hpre Hmid.
  rewrite (update_entry_matched _ pre
             (Re.mkMatch (a ++ mid ++ f) (Some (a ++ mid)) post)
             _ (template_plain _ Hn)).
  - cbn [Re.expand Re.expand_piece Re.group1 Re.rest].
    rewrite expand_literals. now rewrite !sapp_assoc.
  - apply search_intro.
    + rewrite match_at_pattern. now apply match_spec_intro.
    + intros k Hk. rewrite match_at_pattern. now apply Hpre.
Qed.

(** Soundness: what an entry that returns has done. *)
Lemma anchored_entry_result (text text' : string) :
  update_path_icons.update_entry (ability_id, new_icon) text = inr text' ->
  (Re.search (update_path_icons.pattern ability_id) text = None /\ text' = text)
  \/
  (exists pre a mid f post y,
      is_anchor ability_id a /\ is_field f /\
      text = pre ++ a ++ mid ++ f ++ post /\
      text' = pre ++ a ++ mid ++ y ++ post /\
      (contains "\" new_icon = false -> y = "icon: '" ++ new_icon ++ "'") /\
      (forall k, k < length pre -> match_spec ability_id (skip k text) = None) /\
      (forall j, j < length mid -> field_end (skip j (mid ++ f ++ post)) = None)).
Proof.
  unfold update_path_icons.update_entry, Re.sub1.
  change (Re.groups (update_path_icons.pattern ability_id)) with 1.
  destruct (Re.parse_template _ 1) as [e|ps] eqn:Hp; [discriminate|].
  destruct (Re.search _ text) as [[pre m]|] eqn:Hs.
  - intros H. injection H as <-. right.
    apply search_elim in Hs as (s0 & -> & Hm & Hfirst).
    rewrite match_at_pattern in Hm.
    destruct (match_spec_elim _ _ Hm) as (a & mid & f & Ha & Hf & -> & Hmid & _ & Hg).
    destruct (template_head _ _ Hp) as [ps' ->].
    exists pre, a, mid, f, (Re.rest m), (Re.expand ps' m).
    repeat split; try assumption.
    + cbn [Re.expand Re.expand_piece]. rewrite Hg. now rewrite !sapp_assoc.
    + intros Hn. rewrite (template_plain _ Hn) in Hp.
      assert (Hps : ps' = map Re.Literal (chars ("icon: '" ++ new_icon ++ "'")))
        by congruence.
      rewrite Hps. apply expand_literals.
    + intros k Hk. rewrite <- match_at_pattern. now apply Hfirst.
  - intros H. injection H as <-. now left.
Qed.

End OneEntry.

Lemma has_anchor_of_occurs (ability_id text : string) :
  anchor_occurs ability_id text -> has_anchor ability_id text = true.
Proof.
  intros (pre & a & post & Ha & ->).
  induction pre as [|c pre IH].
  - cbn [append]. pose proof (anchor_end_intro _ _ post Ha) as E.
    destruct (a ++ post); cbn [has_anchor]; now rewrite E.
  - cbn [append has_anchor]. rewrite IH. now destruct (anchor_end _ _).
Qed.

Lemma not_anchor_at (ability_id s : string) :
  ~ anchor_at ability_id s -> anchor_end ability_id s = None.
Proof.
  intros H. destruct (anchor_end ability_id s) eqn:E; [|reflexivity].
  exfalso. apply H. apply anchor_at_iff. congruence.
Qed.

Lemma not_field_at (s : string) : ~ field_at s -> field_end s = None.
Proof.
  intros H. destruct (field_end s) eqn:E; [|reflexivity].
  exfalso. apply H. apply field_at_iff. congruence.
Qed.

Lemma match_spec_without_anchor (ability_id s : string) :
  anchor_end ability_id s = None -> match_spec ability_id s = None.
Proof. intros H. unfold match_spec. now rewrite H. Qed.

(* ------------------------------------------------------------------ *)
(** ** What a match of the pattern depends on *)
(* ------------------------------------------------------------------ *)

(** Two ways of cutting one text, the first part of one no longer than
    the first part of the other. *)
Lemma app_eq_prefix (x s1 y t : string) :
  x ++ s1 = y ++ t -> length x <= length y ->
  exists z, y = x ++ z /\ s1 = z ++ t.
Proof.
  revert y; induction x as [|c x IH]; intros y H Hl.
  - exists y. split; [reflexivity | exact H].
  - destruct y as [|d y]; [simpl in Hl; lia|].
    cbn [append] in H. injection H as -> H.
    destruct (IH y H) as (z & -> & ->); [simpl in Hl; lia|].
    now exists z.
Qed.

(** A text is cut at its first quote in one way only. *)
Lemma first_quote_unique (h1 t1 h2 t2 : string) :
  every Re.not_quote h1 = true -> every Re.not_quote h2 = true ->
  h1 ++ "'" ++ t1 = h2 ++ "'" ++ t2 -> h1 = h2 /\ t1 = t2.
Proof.
  revert h2; induction h1 as [|c h1 IH]; intros h2 H1 H2 H.
  - destruct h2 as [|d h2]; cbn [append] in H.
    + injection H as H. now split.
    + injection H as <- _. cbn [every] in H2. discriminate.
  - destruct h2 as [|d h2]; cbn [append] in H.
    + injection H as -> _. cbn [every] in H1. discriminate.
    + injection H as -> H. cbn [every] in H1, H2.
      apply andb_true_iff in H1 as [_ H1]. apply andb_true_iff in H2 as [_ H2].
      destruct (IH h2 H1 H2 H) as [-> ->]. now split.
Qed.

Lemma first_quote_cases (s : string) :
  every Re.not_quote s = true \/
  exists h t, every Re.not_quote h = true /\ s = h ++ "'" ++ t.
Proof.
  induction s as [|c s IH]; [now left|].
  destruct (Re.not_quote c) eqn:Ec.
  - destruct IH as [IH|(h & t & Hh & ->)].
    + left. cbn [every]. now rewrite Ec.
    + right. exists (String c h), t. split; [|reflexivity].
      cbn [every]. now rewrite Ec.
  - right. exists "", s. split; [reflexivity|].
    unfold Re.not_quote in Ec. apply negb_false_iff in Ec.
    apply Ascii.eqb_eq in Ec. now subst c.
Qed.

Lemma space_is_not_quote (w : string) :
  every Re.is_space w = true -> every Re.not_quote w = true.
Proof.
  induction w as [|c w IH]; [reflexivity|]. cbn [every].
  intros H. apply andb_true_iff in H as [Hc Hw].
  rewrite (IH Hw), andb_true_r. apply not_quote_of_neq.
  now apply space_not_quote.
Qed.

Lemma every_get (p : ascii -> bool) (w : string) (n : nat) (c : ascii) :
  every p w = true -> String.get n w = Some c -> p c = true.
Proof.
  revert n; induction w as [|d w IH]; intros n Hw Hg; [discriminate|].
  cbn [every] in Hw. apply andb_true_iff in Hw as [Hd Hw].
  destruct n as [|n]; cbn [String.get] in Hg.
  - now injection Hg as <-.
  - now apply (IH n).
Qed.

(** A text that starts with a literal and white space cannot have an [i]
    at a place where the literal has none. *)
Lemma head_clash (lit w u1 x y : string) :
  every Re.is_space w = true ->
  u1 <> "" ->
  length u1 < length lit + length w ->
  (forall n, 1 <= n -> n < length lit -> String.get n lit <> Some "i"%char) ->
  u1 ++ String "i" x = lit ++ w ++ y -> False.
Proof.
  intros Hw Hu Hl Hlit H.
  assert (Hg : String.get (length u1) (u1 ++ String "i" x) = Some "i"%char).
  { exact (eq_sym (append_correct2 u1 (String "i" x) 0)). }
  rewrite H in Hg.
  assert (Hpos : 1 <= length u1) by (destruct u1; [contradiction | simpl; lia]).
  destruct (Nat.lt_ge_cases (length u1) (length lit)) as [Hlt|Hge].
  - rewrite <- append_correct1 in Hg by exact Hlt. now apply (Hlit _ Hpos Hlt).
  - replace (length u1) with ((length u1 - length lit) + length lit) in Hg by lia.
    rewrite <- append_correct2 in Hg.
    rewrite <- append_correct1 in Hg by lia.
    apply (every_get _ _ _ _ Hw) in Hg. vm_compute in Hg. discriminate.
Qed.

Lemma id_lit_clash (n : nat) :
  1 <= n -> n < length "id:" -> String.get n "id:" <> Some "i"%char.
Proof.
  intros H1 H2. destruct n as [|[|[|n]]]; try (simpl in *; lia); discriminate.
Qed.

Lemma icon_lit_clash (n : nat) :
  1 <= n -> n < length "icon:" -> String.get n "icon:" <> Some "i"%char.
Proof.
  intros H1 H2. destruct n as [|[|[|[|[|n]]]]]; try (simpl in *; lia);
    discriminate.
Qed.

(** Whether a text cut at its first two quotes starts with a field
    depends on what stands before the first quote and on whether there
    is anything between the two. *)
Lemma field_at_split (h x r : string) :
  every Re.not_quote h = true -> every Re.not_quote x = true ->
  field_at (h ++ "'" ++ x ++ "'" ++ r) <->
  (exists w, every Re.is_space w = true /\ h = "icon:" ++ w) /\ x <> "".
Proof.
  intros Hh Hx. split.
  - intros (f & r' & (w & v & Hw & Hv & Hnq & ->) & H).
    rewrite !sapp_assoc in H.
    replace ("icon:" ++ w ++ "'" ++ v ++ "'" ++ r')
      with (("icon:" ++ w) ++ "'" ++ (v ++ "'" ++ r')) in H
      by now rewrite !sapp_assoc.
    apply first_quote_unique in H as [-> H]; [|exact Hh|].
    2:{ rewrite every_app. now rewrite (space_is_not_quote _ Hw). }
    apply first_quote_unique in H as [-> _]; [|exact Hx|exact Hnq].
    split; [now exists w | exact Hv].
  - intros [(w & Hw & ->) Hne].
    exists ("icon:" ++ w ++ "'" ++ x ++ "'"), r. split.
    + now exists w, x.
    + now rewrite !sapp_assoc.
Qed.

(** A field that starts before another field starts does so whatever the
    white space and the value of that other field. *)
Lemma field_locality (u1 f f' post : string) :
  u1 <> "" -> is_field f -> is_field f' ->
  field_end (u1 ++ f ++ post) = None ->
  field_end (u1 ++ f' ++ post) = None.
Proof.
  intros Hu (ws & v & Hws & Hv & Hnq & ->) (ws' & v' & Hws' & Hv' & Hnq' & ->) H.
  apply not_field_at. intros Hfa.
  assert (Hno : ~ field_at (u1 ++ ("icon:" ++ ws ++ "'" ++ v ++ "'") ++ post)).
  { intros C. apply field_at_iff in C. contradiction. }
  apply Hno. clear Hno H.
  destruct (first_quote_cases u1) as [Hq|(h & t & Hh & ->)].
  - exfalso.
    replace (u1 ++ ("icon:" ++ ws' ++ "'" ++ v' ++ "'") ++ post)
      with ((u1 ++ "icon:" ++ ws') ++ "'" ++ v' ++ "'" ++ post) in Hfa
      by now rewrite !sapp_assoc.
    apply field_at_split in Hfa as [(w & Hw & E) _]; [| |exact Hnq'].
    2:{ rewrite !every_app, Hq. now rewrite (space_is_not_quote _ Hws'). }
    assert (Hlen : length u1 < length "icon:" + length w).
    { apply (f_equal String.length) in E. rewrite !slength_app in E.
      simpl in *. lia. }
    apply (head_clash "icon:" w u1 ("con:" ++ ws') "" Hw Hu Hlen icon_lit_clash).
    now rewrite sapp_nil_r.
  - destruct (first_quote_cases t) as [Hq|(y & z & Hy & ->)].
    + replace ((h ++ "'" ++ t) ++ ("icon:" ++ ws' ++ "'" ++ v' ++ "'") ++ post)
        with (h ++ "'" ++ (t ++ "icon:" ++ ws') ++ "'" ++ (v' ++ "'" ++ post))
        in Hfa by now rewrite !sapp_assoc.
      replace ((h ++ "'" ++ t) ++ ("icon:" ++ ws ++ "'" ++ v ++ "'") ++ post)
        with (h ++ "'" ++ (t ++ "icon:" ++ ws) ++ "'" ++ (v ++ "'" ++ post))
        by now rewrite !sapp_assoc.
      apply field_at_split in Hfa as [Hhead _]; [|exact Hh|].
      2:{ rewrite !every_app, Hq. now rewrite (space_is_not_quote _ Hws'). }
      apply field_at_split; [exact Hh| |].
      * rewrite !every_app, Hq. now rewrite (space_is_not_quote _ Hws).
      * split; [exact Hhead|]. destruct t; discriminate.
    + replace ((h ++ "'" ++ y ++ "'" ++ z) ++
               ("icon:" ++ ws' ++ "'" ++ v' ++ "'") ++ post)
        with (h ++ "'" ++ y ++ "'" ++
              (z ++ ("icon:" ++ ws' ++ "'" ++ v' ++ "'") ++ post))
        in Hfa by now rewrite !sapp_assoc.
      replace ((h ++ "'" ++ y ++ "'" ++ z) ++
               ("icon:" ++ ws ++ "'" ++ v ++ "'") ++ post)
        with (h ++ "'" ++ y ++ "'" ++
              (z ++ ("icon:" ++ ws ++ "'" ++ v ++ "'") ++ post))
        by now rewrite !sapp_assoc.
      apply field_at_split in Hfa; [|exact Hh|exact Hy].
      now apply field_at_split.
Qed.

Lemma length_anchor (ability_id a : string) :
  is_anchor ability_id a ->
  exists w, every Re.is_space w = true /\
            a = "id:" ++ w ++ "'" ++ ability_id ++ "'," /\
            length a = 6 + length w + length ability_id.
Proof.
  intros (w & Hw & ->). exists w. repeat split; [exact Hw|].
  rewrite !slength_app. simpl. lia.
Qed.

(** An anchor that starts before another anchor of the same id ends no
    later than that other anchor. *)
Lemma anchor_bound (ability_id ak a u1 s1 x : string) :
  is_anchor ability_id ak -> is_anchor ability_id a -> u1 <> "" ->
  ak ++ s1 = u1 ++ a ++ x ->
  length ak <= length u1 + length a.
Proof.
  intros Hk Ha Hu H.
  destruct (length_anchor _ _ Hk) as (wk & Hwk & -> & Lk).
  destruct (length_anchor _ _ Ha) as (w & Hw & -> & La).
  destruct (Nat.le_gt_cases
              (length ("id:" ++ wk ++ "'" ++ ability_id ++ "',"))
              (length u1 + length ("id:" ++ w ++ "'" ++ ability_id ++ "',")))
    as [Hle|Hgt]; [exact Hle | exfalso].
  apply (head_clash "id:" wk u1
           ("d:" ++ w ++ "'" ++ ability_id ++ "'," ++ x)
           ("'" ++ ability_id ++ "'," ++ s1) Hwk Hu).
  - simpl. lia.
  - exact id_lit_clash.
  - rewrite !sapp_assoc in H. cbn [append] in *. now rewrite <- H.
Qed.

Lemma skip_lt_nonempty (j : nat) (s : string) : j < length s -> skip j s <> "".
Proof.
  intros H E. apply (f_equal String.length) in E. rewrite length_skip in E.
  simpl in E. lia.
Qed.

Section Idempotence.

Variables ability_id : string.
Variables pre a mid f post : string.
Hypothesis Ha : is_anchor ability_id a.
Hypothesis Hf : is_field f.

Let text := pre ++ a ++ mid ++ f ++ post.

Hypothesis Hpre :
  forall k, k < length pre -> match_spec ability_id (skip k text) = None.

(** Before the leftmost match no anchor starts at all: an anchor there
    would end before the field and so would match. *)
Lemma no_anchor_before_match (k : nat) :
  k < length pre -> anchor_end ability_id (skip k text) = None.
Proof.
  intros Hk. destruct (anchor_end ability_id (skip k text)) as [s1|] eqn:E;
    [exfalso | reflexivity].
  pose proof (Hpre k Hk) as Hm. unfold match_spec in Hm. rewrite E in Hm.
  apply anchor_end_elim in E as (ak & Hak & E).
  unfold text in E. rewrite skip_app_lt in E by lia.
  assert (Hu : skip k pre <> "") by now apply skip_lt_nonempty.
  assert (Hb : length ak <= length (skip k pre ++ a)).
  { rewrite slength_app. eapply anchor_bound; [exact Hak|exact Ha|exact Hu|].
    symmetry. exact E. }
  replace (skip k pre ++ a ++ mid ++ f ++ post)
    with ((skip k pre ++ a) ++ mid ++ f ++ post) in E
    by now rewrite !sapp_assoc.
  symmetry in E. apply app_eq_prefix in E as (z & _ & ->); [|exact Hb].
  replace (z ++ mid ++ f ++ post) with ((z ++ mid) ++ f ++ post) in Hm
    by now rewrite !sapp_assoc.
  destruct (next_field ((z ++ mid) ++ f ++ post)) as [[s2 r]|] eqn:En;
    [discriminate|].
  revert En. apply next_field_exists.
  now rewrite (field_end_intro _ post Hf).
Qed.

(** The same holds once the field has been exchanged for another one. *)
Lemma no_anchor_before_rewritten (f' : string) (k : nat) :
  k < length pre ->
  anchor_end ability_id (skip k (pre ++ a ++ mid ++ f' ++ post)) = None.
Proof.
  intros Hk.
  destruct (anchor_end ability_id (skip k (pre ++ a ++ mid ++ f' ++ post)))
    as [s1|] eqn:E; [exfalso | reflexivity].
  apply anchor_end_elim in E as (ak & Hak & E).
  rewrite skip_app_lt in E by lia.
  assert (Hu : skip k pre <> "") by now apply skip_lt_nonempty.
  assert (Hb : length ak <= length (skip k pre ++ a)).
  { rewrite slength_app. eapply anchor_bound; [exact Hak|exact Ha|exact Hu|].
    symmetry. exact E. }
  replace (skip k pre ++ a ++ mid ++ f' ++ post)
    with ((skip k pre ++ a) ++ mid ++ f' ++ post) in E
    by now rewrite !sapp_assoc.
  symmetry in E. apply app_eq_prefix in E as (z & Hz & _); [|exact Hb].
  pose proof (no_anchor_before_match k Hk) as Hnone.
  unfold text in Hnone. rewrite skip_app_lt in Hnone by lia.
  replace (skip k pre ++ a ++ mid ++ f ++ post)
    with ((skip k pre ++ a) ++ mid ++ f ++ post) in Hnone
    by now rewrite !sapp_assoc.
  rewrite Hz, sapp_assoc in Hnone.
  rewrite (anchor_end_intro _ _ _ Hak) in Hnone. discriminate.
Qed.

End Idempotence.

(** One entry whose new value is not empty and holds no quote and no
    backslash, applied to its own result, changes nothing. *)
Lemma anchored_entry_idempotent (ability_id new_icon text once : string) :
  contains "\" new_icon = false ->
  new_icon <> "" ->
  every Re.not_quote new_icon = true ->
  update_path_icons.update_entry (ability_id, new_icon) text = inr once ->
  update_path_icons.update_entry (ability_id, new_icon) once = inr once.
Proof.
  intros Hn Hne Hq H.
  destruct (anchored_entry_result _ _ _ _ H)
    as [[_ ->]|(pre & a & mid & f & post & y & Ha & Hf & -> & -> & Hy & Hpre & Hmid)];
    [exact H|].
  rewrite (Hy Hn).
  assert (Hf' : is_field ("icon: '" ++ new_icon ++ "'")).
  { exists " ", new_icon. repeat split; assumption. }
  apply anchored_entry_applies; try assumption.
  - intros k Hk. apply match_spec_without_anchor.
    now apply (no_anchor_before_rewritten ability_id pre a mid f post Ha Hf Hpre).
  - intros j Hj. rewrite skip_app_lt by lia.
    apply (field_locality _ f); try assumption.
    + now apply skip_lt_nonempty.
    + rewrite <- skip_app_lt by lia. now apply Hmid.
Qed.

(** In direct mode, entries none of which finds its pattern leave the
    text as it is. *)
Lemma direct_all_absent (es : list entry) (text : string) :
  (forall e, In e es -> contains (direct_pattern (fst e)) text = false) ->
  apply_icon_updates.replace_all_entries es text = text /\
  execute_wave4_updates.replace_all_entries es text = (text, 0).
Proof.
  unfold apply_icon_updates.replace_all_entries,
    execute_wave4_updates.replace_all_entries.
  generalize 0 as n.
  induction es as [|[old_icon new_icon] es IH]; intros n H; [now split|].
  cbn [fold_left].
  assert (E : contains (direct_pattern old_icon) text = false)
    by (apply (H (old_icon, new_icon)); now left).
  unfold apply_icon_updates.replace_entry at 2.
  unfold execute_wave4_updates.replace_entry at 2.
  rewrite E, (replace_first_absent _ _ _ E).
  apply IH. intros e He. apply H. now right.
Qed.

(* ------------------------------------------------------------------ *)
(** ** Direct mode: how a replacement changes the number of occurrences *)
(* ------------------------------------------------------------------ *)

Lemma occurrences_app (sub a b : string) :
  occurrences sub (a ++ b) = starts_within sub a b + occurrences sub b.
Proof.
  induction a as [|c a IH]; [reflexivity|].
  cbn [append occurrences starts_within]. rewrite IH.
  cbn [append]. lia.
Qed.

Lemma occurrences_none (sub s : string) :
  occurrences sub s = 0 <-> contains sub s = false.
Proof.
  induction s as [|c s IH]; cbn [occurrences contains].
  - destruct (startswith sub ""); split; (discriminate || reflexivity).
  - destruct (startswith sub (String c s)).
    + split; discriminate.
    + cbn [plus]. exact IH.
Qed.

Lemma starts_within_none (sub a b : string) :
  (forall j, j < length a -> startswith sub (skip j (a ++ b)) = false) ->
  starts_within sub a b = 0.
Proof.
  induction a as [|c a IH]; intros H; [reflexivity|].
  cbn [starts_within].
  assert (H0 : startswith sub (String c a ++ b) = false)
    by (apply (H 0); cbn [length]; lia).
  rewrite H0. cbn [plus].
  apply IH. intros j Hj. apply (H (S j)). cbn [length]; lia.
Qed.

Lemma starts_within_head (sub post : string) :
  sub <> "" -> 1 <= starts_within sub sub post.
Proof.
  destruct sub as [|c sub]; [congruence|]. intros _.
  cbn [starts_within]. rewrite startswith_app. lia.
Qed.

(** A prefix of [u ++ t] lies within [u] or reaches into [t]. *)
Lemma startswith_split (q u t : string) :
  startswith q (u ++ t) = true ->
  startswith q u = true \/
  exists v, v <> "" /\ q = u ++ v /\ startswith v t = true.
Proof.
  intros H. apply startswith_iff in H as [r Hr].
  destruct (Nat.le_gt_cases (length q) (length u)) as [Hl|Hl].
  - left. symmetry in Hr.
    destruct (app_eq_prefix _ _ _ _ Hr Hl) as (z & -> & _).
    apply startswith_app.
  - right.
    destruct (app_eq_prefix u t q r Hr) as (v & -> & ->); [lia|].
    exists v. split; [|split; [reflexivity | apply startswith_app]].
    intros ->. rewrite sapp_nil_r in Hl. lia.
Qed.

Lemma startswith_app_l (q u t : string) :
  startswith q u = true -> startswith q (u ++ t) = true.
Proof.
  intros H. apply startswith_iff in H as [r ->].
  rewrite sapp_assoc. apply startswith_app.
Qed.

(** Where no occurrence reaches from [pre] into [new], putting [old] in
    its place loses no occurrence that starts in [pre]. *)
Lemma starts_within_kept (sub pre new old post : string) :
  (forall u v, u <> "" -> v <> "" -> sub = u ++ v ->
               startswith v (new ++ post) = false) ->
  starts_within sub pre (new ++ post) <= starts_within sub pre (old ++ post).
Proof.
  intros Hno. induction pre as [|c pre IH]; [reflexivity|].
  cbn [starts_within].
  destruct (startswith sub (String c pre ++ new ++ post)) eqn:E; [|lia].
  apply startswith_split in E as [E|(v & Hv & Hq & E)].
  - rewrite (startswith_app_l _ _ (old ++ post) E). lia.
  - rewrite (Hno (String c pre) v) in E; [discriminate|discriminate| |];
      assumption.
Qed.

(* ------------------------------------------------------------------ *)
(** ** Patterns and replacements of direct mode, character by character *)
(* ------------------------------------------------------------------ *)

Lemma re_escape_not_quote (s : string) :
  every Re.not_quote s = true -> every Re.not_quote (re_escape s) = true.
Proof.
  induction s as [|c s IH]; [reflexivity|]. cbn [every re_escape].
  intros H. apply andb_true_iff in H as [Hc Hs].
  destruct (is_special c); cbn [every]; rewrite Hc, (IH Hs); reflexivity.
Qed.

Lemma re_escape_no_space_head (s r : string) : re_escape s <> String " " r.
Proof.
  destruct s as [|c s]; cbn [re_escape]; [discriminate|].
  destruct (is_special c) eqn:E; [discriminate|].
  intros [= -> _]. vm_compute in E. discriminate.
Qed.

Lemma re_escape_no_colon_space (s a b : string) :
  re_escape s <> a ++ String ":" (String " " b).
Proof.
  revert a. induction s as [|c s IH]; intros a; cbn [re_escape].
  - destruct a; discriminate.
  - destruct (is_special c) eqn:E.
    + destruct a as [|x [|y a]]; cbn [append].
      * discriminate.
      * intros [= _ -> _]. vm_compute in E. discriminate.
      * intros [= _ _ H]. now apply (IH a).
    + destruct a as [|x a]; cbn [append].
      * intros [= _ H]. now apply (re_escape_no_space_head s b).
      * intros [= _ H]. now apply (IH a).
Qed.

Lemma ends_with_intro (suffix head : string) :
  ends_with suffix (head ++ suffix) = true.
Proof.
  unfold ends_with. rewrite slength_app.
  replace (length head + length suffix - length suffix) with (length head)
    by lia.
  rewrite skip_app, String.eqb_refl, andb_true_r.
  apply Nat.leb_le. lia.
Qed.

Lemma re_escape_open_ended (old_icon : string) :
  ends_with "icon: " (re_escape old_icon) = false.
Proof.
  destruct (ends_with "icon: " (re_escape old_icon)) eqn:E; [|reflexivity].
  exfalso. unfold ends_with in E. apply andb_true_iff in E as [_ E].
  apply String.eqb_eq in E.
  apply (re_escape_no_colon_space old_icon
           (take (length (re_escape old_icon) - 6) (re_escape old_icon)
            ++ "icon") "").
  rewrite <- (take_skip (length (re_escape old_icon) - 6)
                        (re_escape old_icon)) at 1.
  change (length "icon: ") with 6 in E. rewrite E.
  now rewrite sapp_assoc.
Qed.

(** A tail of [x ++ "'"] that is not empty ends with the quote. *)
Lemma tail_of_quoted (x a v : string) :
  v <> "" -> a ++ v = x ++ "'" -> exists x2, v = x2 ++ "'" /\ x = a ++ x2.
Proof.
  revert x. induction a as [|c a IH]; intros x Hv H.
  - exists x. split; [exact H | reflexivity].
  - destruct x as [|d x]; cbn [append] in H.
    + injection H as -> H. destruct a; [|discriminate].
      cbn [append] in H. congruence.
    + injection H as -> H.
      destruct (IH x Hv H) as (x2 & -> & ->).
      exists x2. now split.
Qed.

Section Straddle.

(** [x] is what stands between the quotes of the pattern looked for,
    [n] the new value of a replacement. *)
Variables x n : string.
Hypothesis Hx : every Re.not_quote x = true.
Hypothesis Hn : every Re.not_quote n = true.
Hypothesis Hxe : ends_with "icon: " x = false.
Hypothesis Hne : ends_with "icon: " n = false.
Hypothesis Hxn : x <> n.

Let q : string := "icon: '" ++ x ++ "'".
Let r : string := "icon: '" ++ n ++ "'".

Lemma opener_not_quote : every Re.not_quote "icon: " = true.
Proof. reflexivity. Qed.

(** No occurrence of the pattern reaches from before into the
    replacement. *)
Lemma no_straddle (u v post : string) :
  u <> "" -> v <> "" -> q = u ++ v -> startswith v (r ++ post) = false.
Proof.
  intros Hu Hv Hq. destruct (startswith v (r ++ post)) eqn:E; [|reflexivity].
  exfalso. apply startswith_iff in E as [rest E].
  unfold q, r in *.
  destruct v as [|v0 v]; [congruence|].
  cbn [append] in E. injection E as <- E.
  do 7 (destruct u as [|? u];
        [cbn [append] in Hq; try discriminate; try congruence|];
        cbn [append] in Hq; injection Hq as <- Hq).
  symmetry in Hq.
  destruct (tail_of_quoted x u (String "i" v) ltac:(discriminate) Hq)
    as (x2 & Hv2 & Hx2).
  assert (Hx2q : every Re.not_quote x2 = true).
  { rewrite Hx2, every_app in Hx. now apply andb_true_iff in Hx as [_ ?]. }
  assert (E2 : x2 ++ "'" ++ rest = "icon: " ++ "'" ++ (n ++ "'" ++ post)).
  { rewrite <- sapp_assoc, <- Hv2. cbn [append]. rewrite <- E.
    now rewrite sapp_assoc. }
  apply first_quote_unique in E2 as [E2 _];
    [|exact Hx2q|exact opener_not_quote].
  rewrite Hx2, E2, ends_with_intro in Hxe. discriminate.
Qed.

(** No occurrence of the pattern starts within the replacement. *)
Lemma no_start_within (post : string) (j : nat) :
  j < length r -> startswith q (skip j (r ++ post)) = false.
Proof.
  intros Hj. destruct (startswith q (skip j (r ++ post))) eqn:E; [|reflexivity].
  exfalso. apply startswith_iff in E as [rest E]. unfold q, r in *.
  destruct j as [|j].
  { (* at the head of the replacement *)
    cbn [skip append] in E. injection E as E.
    assert (E2 : n ++ "'" ++ post = x ++ "'" ++ rest).
    { rewrite <- !sapp_assoc. exact E. }
    apply first_quote_unique in E2 as [E2 _]; [|exact Hn|exact Hx].
    now apply Hxn. }
  do 6 (destruct j as [|j]; [cbn [skip append] in E; discriminate|]).
  - (* within the new value, or at its closing quote *)
    cbn [skip append] in E. rewrite sapp_assoc in E.
    rewrite !slength_app in Hj. cbn [length] in Hj.
    destruct (Nat.eq_dec j (length n)) as [->|Hjn].
    + rewrite skip_app in E. cbn [append] in E. discriminate.
    + rewrite skip_app_lt in E by lia.
      assert (E2 : skip j n ++ "'" ++ post =
                   "icon: " ++ "'" ++ (x ++ "'" ++ rest)).
      { rewrite E. now rewrite !sapp_assoc. }
      apply first_quote_unique in E2 as [E2 _];
        [| |exact opener_not_quote].
      * rewrite <- (take_skip j n), E2, ends_with_intro in Hne. discriminate.
      * rewrite <- (take_skip j n), every_app in Hn.
        now apply andb_true_iff in Hn as [_ ?].
Qed.

(** Replacing one occurrence of a pattern [p] by [r] does not raise the
    number of occurrences of [q], and lowers it when [q] is [p]. *)
Lemma occurrences_after (p pre post : string) :
  p <> "" ->
  occurrences q (pre ++ r ++ post) + (if (p =? q)%string then 1 else 0) <=
  occurrences q (pre ++ p ++ post).
Proof.
  intros Hp.
  rewrite (occurrences_app q pre (r ++ post)), (occurrences_app q r post).
  rewrite (occurrences_app q pre (p ++ post)), (occurrences_app q p post).
  rewrite (starts_within_none q r post) by (intros; now apply no_start_within).
  pose proof (starts_within_kept q pre r p post
                (fun u v Hu Hv Hq => no_straddle u v post Hu Hv Hq)) as Hk.
  destruct (p =? q)%string eqn:E; [|lia].
  apply String.eqb_eq in E. subst p.
  pose proof (starts_within_head q post Hp). lia.
Qed.

End Straddle.

(* ------------------------------------------------------------------ *)
(** ** Direct mode: a run uses up the occurrences *)
(* ------------------------------------------------------------------ *)

Lemma direct_pattern_nonempty (old_icon : string) : direct_pattern old_icon <> "".
Proof. discriminate. Qed.

(** One entry, seen from the pattern of [looked_for]: if the text holds
    at most [k] occurrences, and one more when the entry is for this
    pattern, then after the entry it holds at most [k]. *)
Lemma direct_entry_uses_one (looked_for old_icon new_icon text : string)
      (k : nat) :
  every Re.not_quote looked_for = true ->
  every Re.not_quote new_icon = true ->
  ends_with "icon: " new_icon = false ->
  new_icon <> re_escape looked_for ->
  occurrences (direct_pattern looked_for) text <=
  (if (direct_pattern old_icon =? direct_pattern looked_for)%string
   then 1 else 0) + k ->
  occurrences (direct_pattern looked_for)
    (apply_icon_updates.replace_entry (old_icon, new_icon) text) <= k.
Proof.
  intros Hq Hn Hne Hdiff Hocc. unfold apply_icon_updates.replace_entry.
  destruct (contains (direct_pattern old_icon) text) eqn:E.
  - destruct (replace_first_present (direct_pattern old_icon)
                (direct_replacement new_icon) text E)
      as (pre & post & Ht & _ & ->).
    rewrite Ht in Hocc.
    pose proof (occurrences_after
                  (re_escape looked_for) new_icon
                  (re_escape_not_quote _ Hq) Hn
                  (re_escape_open_ended looked_for) Hne
                  (fun H => Hdiff (eq_sym H))
                  (direct_pattern old_icon) pre post
                  (direct_pattern_nonempty old_icon)) as H.
    cbv zeta in H.
    assert (L : forall a b c : nat, a + c <= b -> b <= c + k -> a <= k)
      by (intros; lia).
    exact (L _ _ _ H Hocc).
  - rewrite (replace_first_absent _ _ _ E).
    destruct (_ =? _)%string eqn:Ep; [|exact Hocc].
    apply String.eqb_eq in Ep. rewrite <- Ep.
    apply occurrences_none in E. lia.
Qed.

Lemma entries_for_cons (pattern : string) (e : entry) (es : list entry) :
  entries_for pattern (e :: es) =
  (if (direct_pattern (fst e) =? pattern)%string then 1 else 0) +
  entries_for pattern es.
Proof.
  unfold entries_for. cbn [filter].
  now destruct (_ =? _)%string.
Qed.

(** A run whose list has, for each old value looked at, at least as
    many entries as the text has occurrences leaves none of them. *)
Lemma direct_run_clears (es : list entry) :
  forall (looked_for : string) (text : string),
    every Re.not_quote looked_for = true ->
    (forall e, In e es ->
               every Re.not_quote (snd e) = true /\
               ends_with "icon: " (snd e) = false /\
               snd e <> re_escape looked_for) ->
    occurrences (direct_pattern looked_for) text <=
    entries_for (direct_pattern looked_for) es ->
    contains (direct_pattern looked_for)
             (apply_icon_updates.replace_all_entries es text) = false.
Proof.
  unfold apply_icon_updates.replace_all_entries.
  induction es as [|[old_icon new_icon] es IH];
    intros looked_for text Hq Hes Hocc.
  - cbn [fold_left]. apply occurrences_none.
    unfold entries_for in Hocc. cbn [filter List.length] in Hocc.
    now apply Nat.le_0_r.
  - cbn [fold_left]. apply IH; [exact Hq | |].
    + intros e He. apply Hes. now right.
    + rewrite entries_for_cons in Hocc. cbn [fst] in Hocc.
      destruct (Hes (old_icon, new_icon) (or_introl eq_refl))
        as (Hn & Hne & Hdiff).
      now apply direct_entry_uses_one.
Qed.

(* ================================================================== *)
(** * Direct mode *)
(* ================================================================== *)

(** C4.  Direct mode replaces the first occurrence only.  For every text
    that holds [icon: 'Flame'], the single entry
    [('Flame', 'ability-paths-warrior-blood_rage')] rewrites the occurrence
    of least index and keeps all that stands before and after it, later
    occurrences included; this holds for both copies of
    [replace_icons_in_file].  A list of entries is applied in list order,
    each entry on the text the entries before it left, and each entry
    either finds no occurrence and changes nothing or rewrites exactly the
    first occurrence that remains. *)
Theorem direct_first_occurrence_only :
  (forall text,
      contains "icon: 'Flame'" text = true ->
      exists pre post,
        text = pre ++ "icon: 'Flame'" ++ post /\
        (forall k, occurs_at "icon: 'Flame'" text k -> length pre <= k) /\
        apply_icon_updates.replace_all_entries [flame_entry] text =
          pre ++ "icon: 'ability-paths-warrior-blood_rage'" ++ post /\
        fst (execute_wave4_updates.replace_all_entries [flame_entry] text) =
          pre ++ "icon: 'ability-paths-warrior-blood_rage'" ++ post)
  /\
  (forall (e : entry) (es : list entry) (text : string),
      apply_icon_updates.replace_all_entries (e :: es) text =
        apply_icon_updates.replace_all_entries es
          (apply_icon_updates.replace_entry e text) /\
      fst (execute_wave4_updates.replace_all_entries (e :: es) text) =
        apply_icon_updates.replace_all_entries (e :: es) text /\
      let pat := direct_pattern (fst e) in
      let rep := direct_replacement (snd e) in
      ((contains pat text = false /\
        apply_icon_updates.replace_entry e text = text)
       \/
       (exists pre post,
           text = pre ++ pat ++ post /\
           (forall k, occurs_at pat text k -> length pre <= k) /\
           apply_icon_updates.replace_entry e text = pre ++ rep ++ post))).
Proof.
  split.
  - intros text H.
    destruct (replace_first_present "icon: 'Flame'"
                "icon: 'ability-paths-warrior-blood_rage'" text H)
      as (pre & post & Ht & Hfirst & Hr).
    exists pre, post. repeat split; try assumption.
    rewrite wave4_text. exact Hr.
  - intros [old_icon new_icon] es text. repeat split.
    + apply wave4_text.
    + unfold apply_icon_updates.replace_entry. cbn [fst snd].
      destruct (contains (direct_pattern old_icon) text) eqn:E.
      * right. now apply replace_first_present.
      * left. split; [reflexivity | now apply replace_first_absent].
Qed.

Lemma direct_first_occurrence_only_witness :
  exists pre post,
    "icon: 'Flame', name: 'Rage', icon: 'Flame'," =
      pre ++ "icon: 'Flame'" ++ post /\
    (forall k,
        occurs_at "icon: 'Flame'"
                  "icon: 'Flame', name: 'Rage', icon: 'Flame'," k ->
        length pre <= k) /\
    apply_icon_updates.replace_all_entries [flame_entry]
      "icon: 'Flame', name: 'Rage', icon: 'Flame'," =
      pre ++ "icon: 'ability-paths-warrior-blood_rage'" ++ post /\
    fst (execute_wave4_updates.replace_all_entries [flame_entry]
      "icon: 'Flame', name: 'Rage', icon: 'Flame',") =
      pre ++ "icon: 'ability-paths-warrior-blood_rage'" ++ post.
Proof.
  apply (proj1 direct_first_occurrence_only
               "icon: 'Flame', name: 'Rage', icon: 'Flame',").
  reflexivity.
Defined.

(** The example of the specification, evaluated: two occurrences, the
    first one rewritten. *)
Example direct_flame_example :
  apply_icon_updates.replace_all_entries [flame_entry]
    "icon: 'Flame', name: 'Rage', icon: 'Flame'," =
  "icon: 'ability-paths-warrior-blood_rage', name: 'Rage', icon: 'Flame',".
Proof. reflexivity. Qed.

(* ================================================================== *)
(** * The section injector *)
(* ================================================================== *)

(** C1, as stated, fails: on a text that holds neither the block name nor
    the marker, [update_icons_constants] writes the file back unchanged,
    prints its line of success and returns [True]. *)
Lemma anchor_missing_counterexample :
  let text := "export const STAT_ICONS = {} as const;" in
  contains block_name text = false /\
  contains insertion_marker text = false /\
  update_icons_constants.update_icons_constants
    (one_file update_icons_constants.filepath text) =
  (inr true,
   mkWorld [(update_icons_constants.filepath, Text text)]
           [(update_icons_constants.filepath, text)]
           [Updated update_icons_constants.filepath]).
Proof. vm_compute. repeat split. Qed.

(** C1, amended.  When the text holds neither the block name nor the
    marker, no failure is signalled: both copies of
    [update_icons_constants] insert no block, apply the rewrite of the
    aggregate export alone, write the result, print their line of success
    and return [True], as after an insertion.  When the aggregate export is
    absent too, what is written is the text as it was. *)
Theorem anchor_missing_is_not_detected (w : world) (content : string) :
  contains block_name content = false ->
  contains insertion_marker content = false ->
  let content' := replace old_export new_export content in
  (lookup update_icons_constants.filepath (files w) = Some content ->
   update_icons_constants.update_icons_constants w =
   (inr true,
    mkWorld (store update_icons_constants.filepath content' (files w))
            (writes w ++ [(update_icons_constants.filepath, content')])
            (stdout w ++ [Updated update_icons_constants.filepath])))
  /\
  (lookup execute_wave4_updates.filepath (files w) = Some content ->
   execute_wave4_updates.update_icons_constants w =
   (inr true,
    mkWorld (store execute_wave4_updates.filepath content' (files w))
            (writes w ++ [(execute_wave4_updates.filepath, content')])
            (stdout w ++ [Step2Header; Added execute_wave4_updates.filepath])))
  /\
  (contains old_export content = false -> content' = content).
Proof.
  intros Hb Hm content'. repeat split.
  - intros Hf. rewrite (constants_run w content Hf), Hb. cbv zeta.
    now rewrite inject_content_no_marker.
  - intros Hf. rewrite (wave4_constants_run w content Hf), Hb. cbv zeta.
    now rewrite inject_content_no_marker.
  - intros Ho. now apply replace_absent.
Qed.

Lemma anchor_missing_is_not_detected_witness :
  update_icons_constants.update_icons_constants
    (one_file update_icons_constants.filepath "// icons") =
  (inr true,
   mkWorld
     (store update_icons_constants.filepath
            (replace old_export new_export "// icons")
            [(update_icons_constants.filepath, Text "// icons")])
     ([] ++ [(update_icons_constants.filepath,
              replace old_export new_export "// icons")])
     ([] ++ [Updated update_icons_constants.filepath])).
Proof.
  apply (proj1 (anchor_missing_is_not_detected
                  (one_file update_icons_constants.filepath "// icons")
                  "// icons" eq_refl eq_refl)).
  reflexivity.
Defined.

(** C7.  The guard of the injector.  On a text that already holds
    [PATH_ABILITY_ICONS], both copies of [update_icons_constants] return
    [False], write nothing and leave the file as it is.  And after an
    injection (block name absent, marker present: the block is written into
    the file and [True] returned), a second call finds the block name,
    returns [False] and writes nothing. *)
Theorem injector_guard_idempotent (w : world) (content : string) :
  (lookup update_icons_constants.filepath (files w) = Some content ->
   (contains block_name content = true ->
    update_icons_constants.update_icons_constants w =
    (inr false, mkWorld (files w) (writes w) (stdout w ++ [AlreadyExists])))
   /\
   (contains block_name content = false ->
    contains insertion_marker content = true ->
    exists w1 content1,
      update_icons_constants.update_icons_constants w = (inr true, w1) /\
      lookup update_icons_constants.filepath (files w1) = Some content1 /\
      writes w1 = (writes w ++ [(update_icons_constants.filepath, content1)])%list /\
      update_icons_constants.update_icons_constants w1 =
      (inr false, mkWorld (files w1) (writes w1) (stdout w1 ++ [AlreadyExists]))))
  /\
  (lookup execute_wave4_updates.filepath (files w) = Some content ->
   (contains block_name content = true ->
    execute_wave4_updates.update_icons_constants w =
    (inr false,
     mkWorld (files w) (writes w) (stdout w ++ [Step2Header; AlreadyExists])))
   /\
   (contains block_name content = false ->
    contains insertion_marker content = true ->
    exists w1 content1,
      execute_wave4_updates.update_icons_constants w = (inr true, w1) /\
      lookup execute_wave4_updates.filepath (files w1) = Some content1 /\
      writes w1 = (writes w ++ [(execute_wave4_updates.filepath, content1)])%list /\
      execute_wave4_updates.update_icons_constants w1 =
      (inr false,
       mkWorld (files w1) (writes w1)
               (stdout w1 ++ [Step2Header; AlreadyExists])))).
Proof.
  split; intros Hf; split.
  - intros Hb. now rewrite (constants_run w content Hf), Hb.
  - intros Hb Hm. rewrite (constants_run w content Hf), Hb. cbv zeta.
    eexists. eexists. split; [reflexivity|]. cbn [files writes stdout].
    split; [apply lookup_store|]. split; [reflexivity|].
    erewrite constants_run; [|cbn [files]; apply lookup_store].
    rewrite inject_content_names_block;
      [reflexivity | exact section_names_block | exact Hm].
  - intros Hb. now rewrite (wave4_constants_run w content Hf), Hb.
  - intros Hb Hm. rewrite (wave4_constants_run w content Hf), Hb. cbv zeta.
    eexists. eexists. split; [reflexivity|]. cbn [files writes stdout].
    split; [apply lookup_store|]. split; [reflexivity|].
    erewrite wave4_constants_run; [|cbn [files]; apply lookup_store].
    rewrite inject_content_names_block;
      [reflexivity | exact wave4_section_names_block | exact Hm].
Qed.

Lemma injector_guard_idempotent_witness :
  update_icons_constants.update_icons_constants
    (one_file update_icons_constants.filepath
              "export const PATH_ABILITY_ICONS = {};") =
  (inr false,
   mkWorld [(update_icons_constants.filepath,
             Text "export const PATH_ABILITY_ICONS = {};")]
           [] ([] ++ [AlreadyExists]))
  /\
  exists w1 content1,
    update_icons_constants.update_icons_constants
      (one_file update_icons_constants.filepath
                "// Export all icon constants") = (inr true, w1) /\
    lookup update_icons_constants.filepath (files w1) = Some content1 /\
    writes w1 = ([] ++ [(update_icons_constants.filepath, content1)])%list /\
    update_icons_constants.update_icons_constants w1 =
    (inr false, mkWorld (files w1) (writes w1) (stdout w1 ++ [AlreadyExists])).
Proof.
  split.
  - apply (proj1 (proj1 (injector_guard_idempotent
             (one_file update_icons_constants.filepath
                       "export const PATH_ABILITY_ICONS = {};")
             "export const PATH_ABILITY_ICONS = {};") eq_refl)).
    reflexivity.
  - apply (proj2 (proj1 (injector_guard_idempotent
             (one_file update_icons_constants.filepath
                       "// Export all icon constants")
             "// Export all icon constants") eq_refl)); reflexivity.
Defined.

(** C8, as stated, fails: whether the aggregate export was rewritten does
    not show in what the injector reports.  On a text with the marker
    alone and on a text with the marker and the aggregate export, the
    value returned and the lines printed are the same, while the first
    result holds no rewritten export and the second one does. *)
Lemma aggregate_outcome_not_reported :
  let t1 := insertion_marker in
  let t2 := insertion_marker ++ " " ++ old_export in
  let run t :=
    update_icons_constants.update_icons_constants
      (one_file update_icons_constants.filepath t) in
  fst (run t1) = inr true /\
  fst (run t2) = inr true /\
  stdout (snd (run t1)) = stdout (snd (run t2)) /\
  option_map (contains new_export)
    (lookup update_icons_constants.filepath (files (snd (run t1)))) =
    Some false /\
  option_map (contains new_export)
    (lookup update_icons_constants.filepath (files (snd (run t2)))) =
    Some true.
Proof. vm_compute. repeat split. Qed.

(** C8, amended.  The two steps of the injector take effect or do nothing
    independently of each other, and one report covers them both.  On a
    text without the block name both copies return [True], print one
    line and write the text with the block put before every marker and
    then the aggregate export rewritten; when the aggregate export is not
    found in the text at that point the second step changes nothing, and
    when the marker is not found the first step changes nothing and the
    second one is applied to the text as it was. *)
Theorem injector_steps_are_independent (w : world) (content : string) :
  contains block_name content = false ->
  (forall section,
      let inserted :=
        replace insertion_marker (section ++ insertion_marker) content in
      inject_content section content = replace old_export new_export inserted /\
      (contains old_export inserted = false ->
       inject_content section content = inserted) /\
      (contains insertion_marker content = false ->
       inject_content section content = replace old_export new_export content))
  /\
  (lookup update_icons_constants.filepath (files w) = Some content ->
   let content' :=
     inject_content update_icons_constants.path_ability_icons_section content in
   update_icons_constants.update_icons_constants w =
   (inr true,
    mkWorld (store update_icons_constants.filepath content' (files w))
            (writes w ++ [(update_icons_constants.filepath, content')])
            (stdout w ++ [Updated update_icons_constants.filepath])))
  /\
  (lookup execute_wave4_updates.filepath (files w) = Some content ->
   let content' :=
     inject_content execute_wave4_updates.path_ability_icons content in
   execute_wave4_updates.update_icons_constants w =
   (inr true,
    mkWorld (store execute_wave4_updates.filepath content' (files w))
            (writes w ++ [(execute_wave4_updates.filepath, content')])
            (stdout w ++ [Step2Header; Added execute_wave4_updates.filepath]))).
Proof.
  intros Hb. repeat split.
  - intros Ho. unfold inject_content. now apply replace_absent.
  - now apply inject_content_no_marker.
  - intros Hf. now rewrite (constants_run w content Hf), Hb.
  - intros Hf. now rewrite (wave4_constants_run w content Hf), Hb.
Qed.

Lemma injector_steps_are_independent_witness :
  update_icons_constants.update_icons_constants
    (one_file update_icons_constants.filepath insertion_marker) =
  (inr true,
   mkWorld
     (store update_icons_constants.filepath
        (inject_content update_icons_constants.path_ability_icons_section
                        insertion_marker)
        [(update_icons_constants.filepath, Text insertion_marker)])
     ([] ++ [(update_icons_constants.filepath,
              inject_content update_icons_constants.path_ability_icons_section
                             insertion_marker)])
     ([] ++ [Updated update_icons_constants.filepath])).
Proof.
  apply (proj1 (proj2 (injector_steps_are_independent
           (one_file update_icons_constants.filepath insertion_marker)
           insertion_marker eq_refl))).
  reflexivity.
Defined.

(** The four combinations of the two steps, evaluated on small texts:
    the block is abbreviated to [<B>]. *)
Example injector_four_cases :
  inject_content "<B>" "x" = "x" /\
  inject_content "<B>" ("x " ++ insertion_marker) =
    "x <B>" ++ insertion_marker /\
  inject_content "<B>" ("x " ++ old_export) = "x " ++ new_export /\
  inject_content "<B>" (insertion_marker ++ " " ++ old_export) =
    "<B>" ++ insertion_marker ++ " " ++ new_export.
Proof. vm_compute. repeat split. Qed.

(* ================================================================== *)
(** * When the file is written *)
(* ================================================================== *)

(** C2, as stated, fails for the injector: on a text without the block
    name, the marker and the aggregate export, the text is left as it was
    and is written to the file all the same, with [True] returned. *)
Lemma injector_writes_unchanged_text :
  let text := "export const UI_ICONS = {} as const;" in
  inject_content execute_wave4_updates.path_ability_icons text = text /\
  execute_wave4_updates.update_icons_constants
    (one_file execute_wave4_updates.filepath text) =
  (inr true,
   mkWorld [(execute_wave4_updates.filepath, Text text)]
           [(execute_wave4_updates.filepath, text)]
           [Step2Header; Added execute_wave4_updates.filepath]).
Proof. vm_compute. repeat split. Qed.

(** C2, amended.  The three rewriting functions write the file if and
    only if the text they computed differs from the text they read: when
    it is the same they write nothing and return [False] (no exception),
    when it differs they write it and return [True]; an exception of the
    anchored rewrite leaves the file unwritten.  The injector is not
    conditional on a change: it writes nothing when the block name is
    found, and writes its result whenever the block name is not found. *)
Theorem write_iff_changed (w : world) (path content : string) :
  lookup path (files w) = Some content ->
  (forall replacements,
      let content' :=
        apply_icon_updates.replace_all_entries replacements content in
      (content' = content ->
       apply_icon_updates.replace_icons_in_file path replacements w =
       (inr false, w)) /\
      (content' <> content ->
       apply_icon_updates.replace_icons_in_file path replacements w =
       (inr true,
        mkWorld (store path content' (files w))
                (writes w ++ [(path, content')]) (stdout w))))
  /\
  (forall replacements,
      let st := execute_wave4_updates.replace_all_entries replacements content in
      (fst st = content ->
       execute_wave4_updates.replace_icons_in_file path replacements w =
       (inr false,
        mkWorld (files w) (writes w)
                (stdout w ++ [Processing path; NoChangesMade]))) /\
      (fst st <> content ->
       execute_wave4_updates.replace_icons_in_file path replacements w =
       (inr true,
        mkWorld (store path (fst st) (files w))
                (writes w ++ [(path, fst st)])
                (stdout w ++ [Processing path; Replaced (snd st)]))))
  /\
  (forall icon_mappings,
      (forall e,
          update_path_icons.update_all_entries icon_mappings content = inl e ->
          update_path_icons.update_file path icon_mappings w =
          (inl e,
           mkWorld (files w) (writes w) (stdout w ++ [Processing path]))) /\
      (forall content',
          update_path_icons.update_all_entries icon_mappings content =
            inr content' ->
          (content' = content ->
           update_path_icons.update_file path icon_mappings w =
           (inr false,
            mkWorld (files w) (writes w)
                    (stdout w ++ [Processing path; NoChangesMadeTo path]))) /\
          (content' <> content ->
           update_path_icons.update_file path icon_mappings w =
           (inr true,
            mkWorld (store path content' (files w))
                    (writes w ++ [(path, content')])
                    (stdout w ++ [Processing path; Updated path])))))
  /\
  (forall section already done,
      (contains block_name content = true ->
       inject path section already done w =
       (inr false,
        mkWorld (files w) (writes w) (stdout w ++ [already]))) /\
      (contains block_name content = false ->
       inject path section already done w =
       (inr true,
        mkWorld (store path (inject_content section content) (files w))
                (writes w ++ [(path, inject_content section content)])
                (stdout w ++ [done])))).
Proof.
  intros Hf. split; [|split; [|split]].
  - intros replacements content'.
    rewrite (apply_icon_updates_run w path content Hf). cbv zeta.
    fold content'. split; intros H.
    + rewrite H. now rewrite String.eqb_refl.
    + now rewrite (eqb_false_of_neq _ _ H).
  - intros replacements st.
    rewrite (execute_wave4_updates_run w path content Hf). cbv zeta.
    fold st. split; intros H.
    + rewrite H. now rewrite String.eqb_refl.
    + now rewrite (eqb_false_of_neq _ _ H).
  - intros icon_mappings. rewrite (update_file_run w path content Hf).
    split.
    + intros e H. now rewrite H.
    + intros content' H. rewrite H. split; intros H1.
      * rewrite H1. now rewrite String.eqb_refl.
      * now rewrite (eqb_false_of_neq _ _ H1).
  - intros section already done. rewrite (inject_run w path content Hf).
    split; intros H; now rewrite H.
Qed.

Lemma write_iff_changed_witness :
  apply_icon_updates.replace_icons_in_file "warrior.ts" [flame_entry]
    (one_file "warrior.ts" "icon: 'Zap',") =
  (inr false, one_file "warrior.ts" "icon: 'Zap',")
  /\
  apply_icon_updates.replace_icons_in_file "warrior.ts" [flame_entry]
    (one_file "warrior.ts" "icon: 'Flame',") =
  (inr true,
   mkWorld
     (store "warrior.ts"
        (apply_icon_updates.replace_all_entries [flame_entry] "icon: 'Flame',")
        [("warrior.ts", Text "icon: 'Flame',")])
     ([] ++ [("warrior.ts",
              apply_icon_updates.replace_all_entries [flame_entry]
                "icon: 'Flame',")])
     []).
Proof.
  split.
  - apply (proj1 (proj1 (write_iff_changed
             (one_file "warrior.ts" "icon: 'Zap',") "warrior.ts"
             "icon: 'Zap'," eq_refl) [flame_entry])).
    reflexivity.
  - apply (proj2 (proj1 (write_iff_changed
             (one_file "warrior.ts" "icon: 'Flame',") "warrior.ts"
             "icon: 'Flame'," eq_refl) [flame_entry])).
    discriminate.
Defined.

(* ================================================================== *)
(** * Anchored mode *)
(* ================================================================== *)

(** C3: the code departs from the claim.  [WARRIOR_ICONS] is a set, so
    the order in which [update_file] visits its entries is not fixed; on
    the text below, where the record of [blood_rage] has no icon field,
    two orders of the same entries give two different texts. *)
Theorem set_iteration_order_changes_output :
  let text :=
    "{ id: 'blood_rage', name: 'Blood Rage' }, { id: 'pain_fueled', icon: 'Zap' }" in
  Permutation update_path_icons.WARRIOR_ICONS WARRIOR_ICONS_swapped /\
  update_path_icons.update_all_entries update_path_icons.WARRIOR_ICONS text =
  inr "{ id: 'blood_rage', name: 'Blood Rage' }, { id: 'pain_fueled', icon: 'ability-paths-warrior-pain_fueled' }"
  /\
  update_path_icons.update_all_entries WARRIOR_ICONS_swapped text =
  inr "{ id: 'blood_rage', name: 'Blood Rage' }, { id: 'pain_fueled', icon: 'ability-paths-warrior-blood_rage' }".
Proof.
  split; [apply perm_swap|]. vm_compute. split; reflexivity.
Qed.

(** C5, as stated, fails for a field whose quoted value is empty: the
    pattern asks for one character at least between the quotes, so the
    entry passes over [icon: ''] and, in the second text, rewrites the icon
    of the record that follows. *)
Lemma empty_icon_value_is_passed_over :
  update_path_icons.update_entry blood_rage_entry
    "id: 'blood_rage', name: 'Blood Rage', icon: ''," =
  inr "id: 'blood_rage', name: 'Blood Rage', icon: '',"
  /\
  update_path_icons.update_entry blood_rage_entry
    "id: 'blood_rage', icon: '', }, { id: 'rend', icon: 'Zap'," =
  inr "id: 'blood_rage', icon: '', }, { id: 'rend', icon: 'ability-paths-warrior-blood_rage',".
Proof. vm_compute. split; reflexivity. Qed.

(** C5, amended.  Take a text that holds an anchor of [blood_rage]
    ([id:], white space, ['blood_rage',]) and, anywhere after it, an icon
    field ([icon:], white space, a quoted value that is not empty).  Then
    the text is made of a part in which no anchor of [blood_rage] starts,
    the first anchor, a stretch in which no icon field starts, the first
    icon field after that anchor, and a rest; and the entry of
    [blood_rage] gives the same text with that one field exchanged for
    [icon: 'ability-paths-warrior-blood_rage'], whatever its value was.
    Nothing else changes: no other anchor and no other field is touched. *)
Theorem anchored_entry_rewrites_next_field
        (text pre0 a0 mid0 f0 post0 : string) :
  is_anchor "blood_rage" a0 ->
  is_field f0 ->
  text = pre0 ++ a0 ++ mid0 ++ f0 ++ post0 ->
  exists pre a mid f post,
    is_anchor "blood_rage" a /\ is_field f /\
    text = pre ++ a ++ mid ++ f ++ post /\
    (forall k, k < length pre -> ~ anchor_at "blood_rage" (skip k text)) /\
    (forall j, j < length mid -> ~ field_at (skip j (mid ++ f ++ post))) /\
    update_path_icons.update_entry blood_rage_entry text =
    inr (pre ++ a ++ mid ++ "icon: 'ability-paths-warrior-blood_rage'" ++ post).
Proof.
  intros Ha0 Hf0 ->.
  set (text := pre0 ++ a0 ++ mid0 ++ f0 ++ post0).
  assert (Hs : Re.search (update_path_icons.pattern "blood_rage") text <> None).
  { apply search_exists. rewrite match_at_pattern. unfold match_spec.
    rewrite (anchor_end_intro _ _ _ Ha0).
    destruct (next_field (mid0 ++ f0 ++ post0)) as [[s2 r]|] eqn:E;
      [discriminate|].
    exfalso. revert E. apply next_field_exists.
    now rewrite (field_end_intro _ _ Hf0). }
  destruct (update_path_icons.update_entry blood_rage_entry text)
    as [e|text'] eqn:E.
  { exfalso. unfold blood_rage_entry, update_path_icons.update_entry, Re.sub1 in E.
    change (Re.groups (update_path_icons.pattern "blood_rage")) with 1 in E.
    rewrite (template_plain "ability-paths-warrior-blood_rage" eq_refl) in E.
    destruct (Re.search _ text) as [[before m]|]; discriminate. }
  destruct (anchored_entry_result _ _ _ _ E)
    as [[Hn _]|(pre & a & mid & f & post & y & Ha & Hf & Ht & -> & Hy & Hpre & Hmid)];
    [contradiction|].
  exists pre, a, mid, f, post. rewrite (Hy eq_refl).
  repeat split; try assumption.
  - intros k Hk Hat. apply anchor_at_iff in Hat. apply Hat.
    rewrite Ht. rewrite Ht in Hpre.
    now apply (no_anchor_before_match "blood_rage" pre a mid f post Ha Hf Hpre).
  - intros j Hj Hfa. apply field_at_iff in Hfa. apply Hfa. now apply Hmid.
Qed.

Lemma anchored_entry_rewrites_next_field_witness :
  exists pre a mid f post,
    is_anchor "blood_rage" a /\ is_field f /\
    "{ id: 'blood_rage', name: 'Blood Rage', icon: 'Flame', }" =
      pre ++ a ++ mid ++ f ++ post /\
    (forall k, k < length pre ->
       ~ anchor_at "blood_rage"
           (skip k "{ id: 'blood_rage', name: 'Blood Rage', icon: 'Flame', }")) /\
    (forall j, j < length mid -> ~ field_at (skip j (mid ++ f ++ post))) /\
    update_path_icons.update_entry blood_rage_entry
      "{ id: 'blood_rage', name: 'Blood Rage', icon: 'Flame', }" =
    inr (pre ++ a ++ mid ++ "icon: 'ability-paths-warrior-blood_rage'" ++ post).
Proof.
  apply (anchored_entry_rewrites_next_field
           "{ id: 'blood_rage', name: 'Blood Rage', icon: 'Flame', }"
           "{ " "id: 'blood_rage'," " name: 'Blood Rage', " "icon: 'Flame'" ", }").
  - exists " ". split; reflexivity.
  - exists " ", "Flame". repeat split; discriminate.
  - reflexivity.
Defined.

(** The example of the specification, evaluated. *)
Example anchored_blood_rage_example :
  update_path_icons.update_entry blood_rage_entry
    "id: 'blood_rage', name: 'Blood Rage', icon: 'Flame'," =
  inr "id: 'blood_rage', name: 'Blood Rage', icon: 'ability-paths-warrior-blood_rage',".
Proof. vm_compute. reflexivity. Qed.

(** C10, as stated, fails: the white space between [icon:] and the quote
    is outside the quoted value, and the rewrite replaces it by one
    space.  With two spaces in the text, the result is not the text with
    the quoted value alone exchanged. *)
Lemma anchored_rewrite_resets_spacing :
  update_path_icons.update_entry blood_rage_entry
    ("id: 'blood_rage', " ++ "icon:" ++ "  " ++ "'Flame'" ++ ",") =
  inr ("id: 'blood_rage', " ++ "icon:" ++ " " ++
       "'ability-paths-warrior-blood_rage'" ++ ",")
  /\
  update_path_icons.update_entry blood_rage_entry
    ("id: 'blood_rage', " ++ "icon:" ++ "  " ++ "'Flame'" ++ ",") <>
  inr ("id: 'blood_rage', " ++ "icon:" ++ "  " ++
       "'ability-paths-warrior-blood_rage'" ++ ",").
Proof. vm_compute. split; [reflexivity | discriminate]. Qed.

(** C10, amended.  When an entry returns, either nothing matched and the
    text is as it was, or the text is made of a part before the anchor, the
    anchor, a stretch in which no field starts, the first field after the
    anchor and a part after it, and the result is the same text with that
    one field exchanged for what the template gives: the part before the
    anchor, the anchor, the stretch and the part after the field are kept
    byte for byte.  When the new value holds no backslash the field
    becomes [icon: 'new_icon']: inside the field, the white space after
    [icon:] is replaced by one space and the quoted value by the new
    value. *)
Theorem anchored_frame (ability_id new_icon text text' : string) :
  update_path_icons.update_entry (ability_id, new_icon) text = inr text' ->
  text' = text \/
  exists pre a mid ws v post y,
    is_anchor ability_id a /\
    every Re.is_space ws = true /\ v <> "" /\ every Re.not_quote v = true /\
    text = pre ++ a ++ mid ++ ("icon:" ++ ws ++ "'" ++ v ++ "'") ++ post /\
    text' = pre ++ a ++ mid ++ y ++ post /\
    (contains "\" new_icon = false ->
     y = "icon:" ++ " " ++ "'" ++ new_icon ++ "'") /\
    (forall j, j < length mid ->
       ~ field_at (skip j (mid ++ ("icon:" ++ ws ++ "'" ++ v ++ "'") ++ post))).
Proof.
  intros H.
  destruct (anchored_entry_result _ _ _ _ H)
    as [[_ ->]|(pre & a & mid & f & post & y & Ha & Hf & -> & -> & Hy & _ & Hmid)];
    [now left | right].
  destruct Hf as (ws & v & Hws & Hv & Hnq & ->).
  exists pre, a, mid, ws, v, post, y. repeat split; try assumption.
  intros j Hj Hfa. apply field_at_iff in Hfa. apply Hfa. now apply Hmid.
Qed.

Lemma anchored_frame_witness :
  "id: 'blood_rage', icon: 'ability-paths-warrior-blood_rage'," =
  "id: 'blood_rage', icon:  'Flame',"
  \/
  exists pre a mid ws v post y,
    is_anchor "blood_rage" a /\
    every Re.is_space ws = true /\ v <> "" /\ every Re.not_quote v = true /\
    "id: 'blood_rage', icon:  'Flame'," =
      pre ++ a ++ mid ++ ("icon:" ++ ws ++ "'" ++ v ++ "'") ++ post /\
    "id: 'blood_rage', icon: 'ability-paths-warrior-blood_rage'," =
      pre ++ a ++ mid ++ y ++ post /\
    (contains "\" "ability-paths-warrior-blood_rage" = false ->
     y = "icon:" ++ " " ++ "'" ++ "ability-paths-warrior-blood_rage" ++ "'") /\
    (forall j, j < length mid ->
       ~ field_at (skip j (mid ++ ("icon:" ++ ws ++ "'" ++ v ++ "'") ++ post))).
Proof.
  apply (anchored_frame "blood_rage" "ability-paths-warrior-blood_rage").
  vm_compute. reflexivity.
Defined.

(* ================================================================== *)
(** * Entries that find nothing *)
(* ================================================================== *)

(** C9, as stated, fails in anchored mode: [re.sub] compiles the
    replacement template before it searches, so an entry whose new value
    does not give a valid template raises even though its anchor occurs
    nowhere in the text, and the entries after it are not reached. *)
Lemma bad_template_raises_without_anchor :
  let text := "{ id: 'rend', icon: 'Zap' }" in
  has_anchor "blood_rage" text = false /\
  update_path_icons.update_entry ("blood_rage", "\2") text = inl TemplateError /\
  update_path_icons.update_all_entries
    [("blood_rage", "\2"); ("rend", "ability-paths-warrior-rend")] text =
  inl TemplateError.
Proof. vm_compute. repeat split. Qed.

(** C9, amended.  In direct mode (both copies) an entry whose pattern
    does not occur in the text leaves the text as it is, and the entries
    after it are applied to that text: nothing is raised.  In anchored
    mode the same holds for an entry whose anchor does not occur, provided
    its new value gives a valid replacement template, which every new value
    without a backslash does; an entry whose template is not valid raises
    whatever the text. *)
Theorem unmatched_entry_is_noop :
  (forall old_icon new_icon es text,
      contains (direct_pattern old_icon) text = false ->
      apply_icon_updates.replace_entry (old_icon, new_icon) text = text /\
      apply_icon_updates.replace_all_entries ((old_icon, new_icon) :: es) text =
        apply_icon_updates.replace_all_entries es text /\
      execute_wave4_updates.replace_all_entries ((old_icon, new_icon) :: es) text =
        execute_wave4_updates.replace_all_entries es text)
  /\
  (forall ability_id new_icon es text ps,
      ~ anchor_occurs ability_id text ->
      Re.parse_template (update_path_icons.replacement new_icon) 1 = inr ps ->
      update_path_icons.update_entry (ability_id, new_icon) text = inr text /\
      update_path_icons.update_all_entries ((ability_id, new_icon) :: es) text =
        update_path_icons.update_all_entries es text)
  /\
  (forall new_icon,
      contains "\" new_icon = false ->
      exists ps,
        Re.parse_template (update_path_icons.replacement new_icon) 1 = inr ps)
  /\
  (forall ability_id new_icon es text e,
      Re.parse_template (update_path_icons.replacement new_icon) 1 = inl e ->
      update_path_icons.update_all_entries ((ability_id, new_icon) :: es) text =
        inl e).
Proof.
  split; [|split; [|split]].
  - intros old_icon new_icon es text H.
    assert (E : apply_icon_updates.replace_entry (old_icon, new_icon) text = text)
      by (now apply replace_first_absent).
    split; [exact E|]. split.
    + unfold apply_icon_updates.replace_all_entries. cbn [fold_left].
      now rewrite E.
    + unfold execute_wave4_updates.replace_all_entries. cbn [fold_left].
      unfold execute_wave4_updates.replace_entry at 2. now rewrite H.
  - intros ability_id new_icon es text ps Ha Hp.
    assert (E : update_path_icons.update_entry (ability_id, new_icon) text =
                inr text).
    { apply (update_entry_unmatched _ _ _ ps Hp).
      now apply search_without_anchor. }
    split; [exact E|]. cbn [update_path_icons.update_all_entries].
    now rewrite E.
  - intros new_icon H. eexists. now apply template_plain.
  - intros ability_id new_icon es text e H.
    cbn [update_path_icons.update_all_entries].
    unfold update_path_icons.update_entry, Re.sub1.
    change (Re.groups (update_path_icons.pattern ability_id)) with 1.
    now rewrite H.
Qed.

Lemma unmatched_entry_is_noop_witness :
  (apply_icon_updates.replace_entry ("Flame", "ability-paths-warrior-blood_rage")
     "icon: 'Zap'," = "icon: 'Zap'," /\
   apply_icon_updates.replace_all_entries
     [("Flame", "ability-paths-warrior-blood_rage");
      ("Zap", "ability-paths-warrior-pain_fueled")] "icon: 'Zap'," =
   apply_icon_updates.replace_all_entries
     [("Zap", "ability-paths-warrior-pain_fueled")] "icon: 'Zap'," /\
   execute_wave4_updates.replace_all_entries
     [("Flame", "ability-paths-warrior-blood_rage");
      ("Zap", "ability-paths-warrior-pain_fueled")] "icon: 'Zap'," =
   execute_wave4_updates.replace_all_entries
     [("Zap", "ability-paths-warrior-pain_fueled")] "icon: 'Zap',")
  /\
  (update_path_icons.update_entry
     ("blood_rage", "ability-paths-warrior-blood_rage")
     "{ id: 'rend', icon: 'Zap' }" = inr "{ id: 'rend', icon: 'Zap' }" /\
   update_path_icons.update_all_entries
     [("blood_rage", "ability-paths-warrior-blood_rage");
      ("rend", "ability-paths-warrior-rend")] "{ id: 'rend', icon: 'Zap' }" =
   update_path_icons.update_all_entries
     [("rend", "ability-paths-warrior-rend")] "{ id: 'rend', icon: 'Zap' }").
Proof.
  split.
  - apply (proj1 unmatched_entry_is_noop). reflexivity.
  - eapply (proj1 (proj2 unmatched_entry_is_noop)
              "blood_rage" "ability-paths-warrior-blood_rage").
    + intros H. apply has_anchor_of_occurs in H. vm_compute in H. discriminate.
    + vm_compute. reflexivity.
Defined.

(* ================================================================== *)
(** * Running a mapping twice *)
(* ================================================================== *)

(** C6, as stated, fails in both modes.  In direct mode an entry takes
    one occurrence per run: with two [icon: 'Flame'] in the text and one
    entry for it, the second run rewrites the second one; and a new value
    that is the old value of an earlier entry is rewritten by that entry
    on the second run.  In anchored mode an entry whose new value is empty
    writes a field that the pattern passes over, so the second run
    rewrites the field after it; and with two entries, even with words as
    new values, the rewrite of one entry can take away the anchor that
    the other used, so that on the second run it finds another anchor. *)
Lemma second_run_changes_text :
  (let text := "icon: 'Flame', name: 'Rage', icon: 'Flame'," in
   let once := apply_icon_updates.replace_all_entries [flame_entry] text in
   once = "icon: 'ability-paths-warrior-blood_rage', name: 'Rage', icon: 'Flame'," /\
   apply_icon_updates.replace_all_entries [flame_entry] once =
   "icon: 'ability-paths-warrior-blood_rage', name: 'Rage', icon: 'ability-paths-warrior-blood_rage',")
  /\
  (let es := [("B", "C"); ("A", "B")] in
   apply_icon_updates.replace_all_entries es "icon: 'A'," = "icon: 'B'," /\
   apply_icon_updates.replace_all_entries es "icon: 'B'," = "icon: 'C',")
  /\
  (let text := "id: 'rend', icon: 'Zap', }, { id: 'gore', icon: 'Axe'," in
   update_path_icons.update_all_entries [("rend", "")] text =
   inr "id: 'rend', icon: '', }, { id: 'gore', icon: 'Axe'," /\
   update_path_icons.update_all_entries [("rend", "")]
     "id: 'rend', icon: '', }, { id: 'gore', icon: 'Axe'," =
   inr "id: 'rend', icon: '', }, { id: 'gore', icon: '',")
  /\
  (let es := [("a", "x"); ("b", "y")] in
   update_path_icons.update_all_entries es
     "id: 'b', icon: 'zz id:'a', icon: 'p', id: 'a', icon: 'q'" =
   inr "id: 'b', icon: 'y'a', icon: 'x', id: 'a', icon: 'q'" /\
   update_path_icons.update_all_entries es
     "id: 'b', icon: 'y'a', icon: 'x', id: 'a', icon: 'q'" =
   inr "id: 'b', icon: 'y'a', icon: 'x', id: 'a', icon: 'x'").
Proof. vm_compute. repeat split. Qed.

(** Each condition of the amended statement below is needed: a second
    run changes the text when an old value holds a quote, when a new value
    holds a quote or ends with [icon: ] (direct mode), and when the new
    value of an anchored entry holds a quote or a backslash. *)
Example second_run_conditions_are_needed :
  (let es := [("B'C", "Z"); ("A", "B")] in
   apply_icon_updates.replace_all_entries es "icon: 'A'C'" = "icon: 'B'C'" /\
   apply_icon_updates.replace_all_entries es "icon: 'B'C'" = "icon: 'Z'")
  /\
  (let es := [("A", "B', icon: 'A")] in
   apply_icon_updates.replace_all_entries es "icon: 'A'," =
   "icon: 'B', icon: 'A'," /\
   apply_icon_updates.replace_all_entries es "icon: 'B', icon: 'A'," =
   "icon: 'B', icon: 'B', icon: 'A',")
  /\
  (let es := [("A", "B icon: ")] in
   apply_icon_updates.replace_all_entries es "icon: 'A'A'" =
   "icon: 'B icon: 'A'" /\
   apply_icon_updates.replace_all_entries es "icon: 'B icon: 'A'" =
   "icon: 'B icon: 'B icon: '")
  /\
  (let es := [("a", "x', icon: 'y")] in
   update_path_icons.update_all_entries es "id: 'a', icon: 'p'" =
   inr "id: 'a', icon: 'x', icon: 'y'" /\
   update_path_icons.update_all_entries es "id: 'a', icon: 'x', icon: 'y'" =
   inr "id: 'a', icon: 'x', icon: 'y', icon: 'y'")
  /\
  (let es := [("a", "\1")] in
   update_path_icons.update_all_entries es "id: 'a', icon: 'p'" =
   inr "id: 'a', icon: 'id: 'a', '" /\
   update_path_icons.update_all_entries es "id: 'a', icon: 'id: 'a', '" =
   inr "id: 'a', icon: 'id: 'a', 'a', '").
Proof. vm_compute. repeat split. Qed.

(** C6, amended.  In direct mode (both copies), for a list whose old and
    new values hold no quote, whose new values do not end with [icon: ]
    and are not the escaped form of an old value of the list: when the
    text holds, for each old value, no more occurrences of its pattern
    than the list has entries for that pattern, the first run leaves no
    occurrence of any pattern, and the second run changes nothing and
    counts no replacement.  In anchored mode, one entry whose new value is
    not empty and holds no quote and no backslash, applied to its own
    result, finds the same anchor and the same field and writes the same
    value: the text is unchanged. *)
Theorem second_run_is_noop :
  (forall es text,
      (forall e, In e es ->
                 every Re.not_quote (fst e) = true /\
                 every Re.not_quote (snd e) = true /\
                 ends_with "icon: " (snd e) = false) ->
      (forall e e', In e es -> In e' es -> snd e <> re_escape (fst e')) ->
      (forall e, In e es ->
                 occurrences (direct_pattern (fst e)) text <=
                 entries_for (direct_pattern (fst e)) es) ->
      let once := apply_icon_updates.replace_all_entries es text in
      (forall e, In e es -> contains (direct_pattern (fst e)) once = false) /\
      apply_icon_updates.replace_all_entries es once = once /\
      execute_wave4_updates.replace_all_entries es once = (once, 0))
  /\
  (forall ability_id new_icon text once,
      contains "\" new_icon = false ->
      new_icon <> "" ->
      every Re.not_quote new_icon = true ->
      update_path_icons.update_all_entries [(ability_id, new_icon)] text =
        inr once ->
      update_path_icons.update_all_entries [(ability_id, new_icon)] once =
        inr once).
Proof.
  split.
  - intros es text Hvalues Hfresh Hcount once.
    assert (Hclear : forall e, In e es ->
                       contains (direct_pattern (fst e)) once = false).
    { intros e He. destruct (Hvalues e He) as (Hold & _ & _).
      apply direct_run_clears; [exact Hold | | now apply Hcount].
      intros e' He'. destruct (Hvalues e' He') as (_ & Hnew & Hend).
      repeat split; [exact Hnew | exact Hend | now apply Hfresh]. }
    split; [exact Hclear | now apply direct_all_absent].
  - intros ability_id new_icon text once Hn Hne Hq H.
    cbn [update_path_icons.update_all_entries] in *.
    destruct (update_path_icons.update_entry (ability_id, new_icon) text)
      as [e|c] eqn:E; [discriminate|].
    injection H as ->.
    now rewrite (anchored_entry_idempotent _ _ _ _ Hn Hne Hq E).
Qed.

Lemma second_run_is_noop_witness :
  (let es := [("Zap", "ability-paths-warrior-pain_fueled");
              ("Zap", "ability-paths-warrior-adrenaline_rush")] in
   let once :=
     apply_icon_updates.replace_all_entries es
       "icon: 'Zap', name: 'A', icon: 'Zap'," in
   apply_icon_updates.replace_all_entries es once = once /\
   execute_wave4_updates.replace_all_entries es once = (once, 0))
  /\
  update_path_icons.update_all_entries [blood_rage_entry]
    "id: 'blood_rage', icon: 'ability-paths-warrior-blood_rage'," =
  inr "id: 'blood_rage', icon: 'ability-paths-warrior-blood_rage',".
Proof.
  split.
  - apply (proj1 second_run_is_noop
             [("Zap", "ability-paths-warrior-pain_fueled");
              ("Zap", "ability-paths-warrior-adrenaline_rush")]
             "icon: 'Zap', name: 'A', icon: 'Zap',").
    + intros e [<-|[<-|[]]]; repeat split; reflexivity.
    + intros e e' [<-|[<-|[]]] [<-|[<-|[]]]; vm_compute; discriminate.
    + intros e [<-|[<-|[]]]; vm_compute; repeat constructor.
  - apply (proj2 second_run_is_noop "blood_rage"
             "ability-paths-warrior-blood_rage"
             "id: 'blood_rage', icon:  'Flame',").
    + reflexivity.
    + discriminate.
    + reflexivity.
    + vm_compute. reflexivity.
Defined.
(* ================================================================== *)
(** * Further properties: the functions over files *)
(* ================================================================== *)

Lemma lookup_store_other (p path content : string) (fs : list (string * file)) :
  p <> path -> lookup p (store path content fs) = lookup p fs.
Proof. intros H. unfold lookup. now rewrite find_store_other. Qed.

Lemma present_store_other (p path content : string) (fs : list (string * file)) :
  p <> path -> present p (store path content fs) = present p fs.
Proof. intros H. unfold present. now rewrite find_store_other. Qed.

Lemma lookup_find (path content : string) (fs : list (string * file)) :
  lookup path fs = Some content <-> find_file path fs = Some (Text content).
Proof.
  unfold lookup. destruct (find_file path fs) as [[c| | |]|];
    split; congruence.
Qed.

Lemma lookup_present (path content : string) (fs : list (string * file)) :
  lookup path fs = Some content -> present path fs = true.
Proof.
  intros H. apply lookup_find in H. unfold present. now rewrite H.
Qed.

Lemma absent_lookup (path : string) (fs : list (string * file)) :
  present path fs = false -> lookup path fs = None.
Proof.
  unfold present, lookup. now destruct (find_file path fs).
Qed.

Lemma absent_read_error (path : string) (fs : list (string * file)) :
  present path fs = false -> read_error path fs = FileNotFoundError.
Proof.
  unfold present, read_error. now destruct (find_file path fs).
Qed.

Lemma touches_only_refl (path : string) (w w' : world) :
  files w' = files w -> writes w' = writes w -> touches_only path w w'.
Proof.
  intros Hf Hw. unfold touches_only. rewrite Hf, Hw.
  split; [auto|]. split; [reflexivity|]. now left.
Qed.

Lemma touches_only_write (path content c0 : string) (w : world) (out : list line) :
  lookup path (files w) = Some c0 ->
  touches_only path w
    (mkWorld (store path content (files w)) (writes w ++ [(path, content)]) out).
Proof.
  intros H. split; [|split]; cbn [files writes].
  - intros p Hp. now apply find_store_other.
  - unfold present. rewrite find_store.
    apply lookup_find in H. now rewrite H.
  - right. exists content. split; [reflexivity | apply find_store].
Qed.

(** Where no text can be read, the four functions end with what the
    read raises, before anything else is done. *)
Lemma no_text_raises (w : world) (path : string) :
  lookup path (files w) = None ->
  (forall replacements,
      apply_icon_updates.replace_icons_in_file path replacements w =
      (inl (read_error path (files w)), w)) /\
  (forall replacements,
      execute_wave4_updates.replace_icons_in_file path replacements w =
      (inl (read_error path (files w)),
       mkWorld (files w) (writes w) (stdout w ++ [Processing path]))) /\
  (forall icon_mappings,
      update_path_icons.update_file path icon_mappings w =
      (inl (read_error path (files w)),
       mkWorld (files w) (writes w) (stdout w ++ [Processing path]))) /\
  (forall section already done,
      inject path section already done w =
      (inl (read_error path (files w)), w)).
Proof.
  intros H. repeat split; intros.
  - unfold apply_icon_updates.replace_icons_in_file, bind, read_file.
    now rewrite H.
  - unfold execute_wave4_updates.replace_icons_in_file, bind, read_file, print.
    cbn [files]. now rewrite H.
  - unfold update_path_icons.update_file, bind, read_file, print.
    cbn [files]. now rewrite H.
  - unfold inject, bind, read_file. now rewrite H.
Qed.

(** X1.  On a path that has no file, each of the four functions over
    files raises [FileNotFoundError] from its [open] and writes nothing;
    the entries are not looked at, so even an entry of the anchored mode
    with an invalid template does not get to raise. *)
Theorem missing_file_raises (w : world) (path : string) :
  present path (files w) = false ->
  (forall replacements,
      apply_icon_updates.replace_icons_in_file path replacements w =
      (inl FileNotFoundError, w)) /\
  (forall replacements,
      execute_wave4_updates.replace_icons_in_file path replacements w =
      (inl FileNotFoundError,
       mkWorld (files w) (writes w) (stdout w ++ [Processing path]))) /\
  (forall icon_mappings,
      update_path_icons.update_file path icon_mappings w =
      (inl FileNotFoundError,
       mkWorld (files w) (writes w) (stdout w ++ [Processing path]))) /\
  (forall section already done,
      inject path section already done w = (inl FileNotFoundError, w)).
Proof.
  intros Habsent.
  pose proof (no_text_raises w path (absent_lookup _ _ Habsent)) as H.
  now rewrite (absent_read_error _ _ Habsent) in H.
Qed.

Lemma missing_file_raises_witness :
  update_path_icons.update_file "warrior.ts" [("blood_rage", "\2")]
    (mkWorld [("mage.ts", Text "id: 'x',")] [] []) =
  (inl FileNotFoundError,
   mkWorld [("mage.ts", Text "id: 'x',")] [] ([] ++ [Processing "warrior.ts"])).
Proof.
  apply (proj1 (proj2 (proj2 (missing_file_raises
           (mkWorld [("mage.ts", Text "id: 'x',")] [] []) "warrior.ts"
           eq_refl)))).
Defined.

(** X20.  On a path that holds something that cannot be read as text (a
    file whose bytes do not decode, a directory, a file that may not be
    opened), each of the four functions over files ends with the exception
    of its [open] or [read]: nothing catches it.  Nothing is written and
    the entries are not looked at. *)
Theorem unreadable_file_raises (w : world) (path : string) (f : file) :
  find_file path (files w) = Some f ->
  (forall content, f <> Text content) ->
  let e := match f with
           | Directory => IsADirectoryError
           | Forbidden => PermissionError
           | _ => UnicodeDecodeError
           end in
  (forall replacements,
      apply_icon_updates.replace_icons_in_file path replacements w =
      (inl e, w)) /\
  (forall replacements,
      execute_wave4_updates.replace_icons_in_file path replacements w =
      (inl e, mkWorld (files w) (writes w) (stdout w ++ [Processing path]))) /\
  (forall icon_mappings,
      update_path_icons.update_file path icon_mappings w =
      (inl e, mkWorld (files w) (writes w) (stdout w ++ [Processing path]))) /\
  (forall section already done,
      inject path section already done w = (inl e, w)).
Proof.
  intros Hf Hnot e.
  assert (H : lookup path (files w) = None).
  { unfold lookup. rewrite Hf. destruct f; [now destruct (Hnot content)| | |];
      reflexivity. }
  assert (He : read_error path (files w) = e).
  { unfold read_error, e. rewrite Hf.
    destruct f; [now destruct (Hnot content)| | |]; reflexivity. }
  pose proof (no_text_raises w path H) as Hr. now rewrite He in Hr.
Qed.

Lemma unreadable_file_raises_witness :
  apply_icon_updates.replace_icons_in_file "warrior.ts" [flame_entry]
    (mkWorld [("warrior.ts", Undecodable)] [] []) =
  (inl UnicodeDecodeError, mkWorld [("warrior.ts", Undecodable)] [] []).
Proof.
  apply (proj1 (unreadable_file_raises
                  (mkWorld [("warrior.ts", Undecodable)] [] []) "warrior.ts"
                  Undecodable eq_refl
                  ltac:(intros content; discriminate))).
Defined.

(** X2.  Whatever the world, the entries and the outcome, each of the
    four functions over files leaves every file other than its own as it
    was, creates no file and removes none, and performs at most one write,
    which is a write of its own file. *)
Theorem functions_touch_only_their_file (w : world) (path : string) :
  (forall replacements,
      touches_only path w
        (snd (apply_icon_updates.replace_icons_in_file path replacements w))) /\
  (forall replacements,
      touches_only path w
        (snd (execute_wave4_updates.replace_icons_in_file path replacements w))) /\
  (forall icon_mappings,
      touches_only path w
        (snd (update_path_icons.update_file path icon_mappings w))) /\
  (forall section already done,
      touches_only path w (snd (inject path section already done w))).
Proof.
  destruct (lookup path (files w)) as [content|] eqn:H.
  - split; [|split; [|split]]; intros.
    + rewrite (apply_icon_updates_run w path content H). cbv zeta.
      destruct (_ =? content)%string; cbn [snd].
      * now apply touches_only_refl.
      * now apply (touches_only_write _ _ content).
    + rewrite (execute_wave4_updates_run w path content H). cbv zeta.
      destruct (_ =? content)%string; cbn [snd].
      * now apply touches_only_refl.
      * now apply (touches_only_write _ _ content).
    + rewrite (update_file_run w path content H).
      destruct (update_path_icons.update_all_entries _ _) as [e|c'];
        [now apply touches_only_refl|].
      destruct (c' =? content)%string; cbn [snd].
      * now apply touches_only_refl.
      * now apply (touches_only_write _ _ content).
    + rewrite (inject_run w path content H).
      destruct (contains block_name content); cbn [snd].
      * now apply touches_only_refl.
      * now apply (touches_only_write _ _ content).
  - destruct (no_text_raises w path H) as (H1 & H2 & H3 & H4).
    split; [|split; [|split]]; intros; rewrite ?H1, ?H2, ?H3, ?H4; cbn [snd];
      now apply touches_only_refl.
Qed.

(** The count grows by at most one per entry, and only with the text. *)
Lemma wave4_count_from (es : list entry) (content : string) (n : nat) :
  let st := fold_left (fun st e => execute_wave4_updates.replace_entry e st)
                      es (content, n) in
  n <= snd st /\ snd st <= n + List.length es /\
  (snd st = n -> fst st = content).
Proof.
  revert content n; induction es as [|[old_icon new_icon] es IH];
    intros content n; cbn [fold_left].
  - cbn. repeat split; lia.
  - change (execute_wave4_updates.replace_entry (old_icon, new_icon) (content, n))
      with (if contains (direct_pattern old_icon) content
            then (replace_first (direct_pattern old_icon)
                    (direct_replacement new_icon) content, S n)
            else (content, n)).
    destruct (contains (direct_pattern old_icon) content) eqn:E.
    + destruct (IH (replace_first (direct_pattern old_icon)
                      (direct_replacement new_icon) content) (S n))
        as (H1 & H2 & _).
      cbv zeta in *. cbn [List.length]. repeat split; lia.
    + destruct (IH content n) as (H1 & H2 & H3).
      cbv zeta in *. cbn [List.length]. repeat split; try lia. exact H3.
Qed.

(** X3.  The count that [replace_icons_in_file] of
    [execute_wave4_updates.py] prints: it is at most the number of
    entries, and when the text has changed it is at least 1.  (A count of
    1 or more does not mean a change: an entry whose new value is its old
    value is counted and changes nothing.) *)
Theorem replaced_count_bounds (replacements : list entry) (content : string) :
  let st := execute_wave4_updates.replace_all_entries replacements content in
  snd st <= List.length replacements /\
  (fst st <> content -> 1 <= snd st) /\
  execute_wave4_updates.replace_all_entries [("Zap", "Zap")] "icon: 'Zap'" =
    ("icon: 'Zap'", 1).
Proof.
  destruct (wave4_count_from replacements content 0) as (H1 & H2 & H3).
  cbv zeta in *. unfold execute_wave4_updates.replace_all_entries.
  repeat split.
  - lia.
  - intros Hne.
    destruct (Nat.eq_dec
                (snd (fold_left
                        (fun st e => execute_wave4_updates.replace_entry e st)
                        replacements (content, 0))) 0) as [E|E]; [|lia].
    now apply H3 in E.
Qed.

Lemma replaced_count_bounds_witness :
  1 <= snd (execute_wave4_updates.replace_all_entries [flame_entry]
              "icon: 'Flame',").
Proof.
  apply (proj1 (proj2 (replaced_count_bounds [flame_entry] "icon: 'Flame',"))).
  vm_compute. discriminate.
Defined.

(* ------------------------------------------------------------------ *)
(** ** [re.escape] under [str.replace] *)
(* ------------------------------------------------------------------ *)

Lemma re_escape_plain (s : string) : plain s = true -> re_escape s = s.
Proof.
  unfold plain. induction s as [|c s IH]; [reflexivity|].
  cbn [every re_escape]. intros H. apply andb_true_iff in H as [Hc Hs].
  apply negb_true_iff in Hc. rewrite Hc. now rewrite IH.
Qed.

Lemma re_escape_backslash (s : string) :
  plain s = false -> contains "\" (re_escape s) = true.
Proof.
  unfold plain. induction s as [|c s IH]; [discriminate|].
  cbn [every re_escape]. intros H. destruct (is_special c) eqn:Hc.
  - apply (contains_head "\").
  - apply contains_cons. apply IH. exact H.
Qed.

Lemma contains_app_r_str (sub a b : string) :
  contains sub b = true -> contains sub (a ++ b) = true.
Proof.
  induction a as [|c a IH]; cbn [append]; intros H; [exact H|].
  apply contains_cons. now apply IH.
Qed.

(** X4.  The old value goes through [re.escape] although the pattern is
    handed to [str.replace], which takes it literally.  For an old value
    without any of the characters that [re.escape] escapes the pattern is
    [icon: 'old'] as meant.  For an old value with such a character (a
    hyphen, a dot, a space, ...) the pattern holds a backslash, so on a
    text without backslashes the entry never applies, in either copy. *)
Theorem escaped_old_value_never_matches (old_icon : string) :
  (plain old_icon = true ->
   direct_pattern old_icon = "icon: '" ++ old_icon ++ "'") /\
  (plain old_icon = false ->
   forall new_icon text,
     contains "\" text = false ->
     apply_icon_updates.replace_entry (old_icon, new_icon) text = text /\
     forall n,
       execute_wave4_updates.replace_entry (old_icon, new_icon) (text, n) =
       (text, n)).
Proof.
  split.
  - intros H. unfold direct_pattern. now rewrite re_escape_plain.
  - intros H new_icon text Ht.
    assert (E : contains (direct_pattern old_icon) text = false).
    { destruct (contains (direct_pattern old_icon) text) eqn:E; [|reflexivity].
      assert (Hb : contains "\" (direct_pattern old_icon) = true).
      { unfold direct_pattern. apply contains_app_r_str.
        apply contains_app_l. now apply re_escape_backslash. }
      rewrite (contains_trans _ _ _ Hb E) in Ht. discriminate. }
    split.
    + now apply replace_first_absent.
    + intros n. unfold execute_wave4_updates.replace_entry. now rewrite E.
Qed.

Lemma escaped_old_value_never_matches_witness :
  direct_pattern "ShieldCheck" = "icon: '" ++ "ShieldCheck" ++ "'" /\
  apply_icon_updates.replace_entry ("shield-check", "ability-x")
    "icon: 'shield-check'," = "icon: 'shield-check',".
Proof.
  split.
  - apply (proj1 (escaped_old_value_never_matches "ShieldCheck")). reflexivity.
  - apply (proj2 (escaped_old_value_never_matches "shield-check") eq_refl
             "ability-x" "icon: 'shield-check',").
    reflexivity.
Defined.

(* ------------------------------------------------------------------ *)
(** ** [str.replace] at the first occurrence and after it *)
(* ------------------------------------------------------------------ *)

Lemma replace_from_pending (old new o post : string) :
  replace_from old new (length o) (o ++ post) = replace_from old new 0 post.
Proof.
  induction o as [|d o IH]; [reflexivity|].
  cbn [length append replace_from]. exact IH.
Qed.

Lemma startswith_app_long (p x y : string) :
  length p <= length x -> startswith p (x ++ y) = startswith p x.
Proof.
  intros Hl. destruct (startswith p x) eqn:E.
  - apply startswith_iff in E as [z ->]. rewrite sapp_assoc.
    apply startswith_app.
  - destruct (startswith p (x ++ y)) eqn:E'; [|reflexivity].
    apply startswith_iff in E' as [r Hr]. symmetry in Hr.
    apply app_eq_prefix in Hr as (z & -> & _); [|exact Hl].
    now rewrite startswith_app in E.
Qed.

Lemma take_length (n : nat) (s : string) :
  n <= length s -> length (take n s) = n.
Proof.
  revert s; induction n as [|n IH]; intros [|c s]; simpl; intros H;
    try reflexivity; try lia.
  rewrite IH; lia.
Qed.

Lemma but_last_length (old : string) :
  length (but_last old) = length old - 1.
Proof. unfold but_last. apply take_length. lia. Qed.

Lemma but_last_split (old : string) :
  old = but_last old ++ skip (length old - 1) old.
Proof. unfold but_last. now rewrite take_skip. Qed.

(** When the first occurrence of [old] is the one shown, [str.replace]
    rewrites it and goes on with what follows it. *)
Lemma replace_step (old new pre post : string) :
  old <> "" ->
  contains old (pre ++ but_last old) = false ->
  replace old new (pre ++ old ++ post) = pre ++ new ++ replace old new post.
Proof.
  intros Hne. unfold replace. induction pre as [|c pre IH]; intros H.
  - cbn [append]. destruct old as [|d o]; [contradiction|].
    cbn [append replace_from].
    change (String d (o ++ post)) with (String d o ++ post).
    rewrite startswith_app. now rewrite replace_from_pending.
  - cbn [append contains] in H.
    destruct (startswith old (String c (pre ++ but_last old))) eqn:E;
      [discriminate|].
    cbn [append replace_from].
    assert (E' : startswith old (String c (pre ++ old ++ post)) = false).
    { rewrite (but_last_split old) at 2. rewrite sapp_assoc.
      change (String c (pre ++ but_last old ++
                        skip (length old - 1) old ++ post))
        with (String c pre ++ but_last old ++
              skip (length old - 1) old ++ post).
      rewrite <- (sapp_assoc (String c pre)).
      rewrite startswith_app_long; [exact E|].
      rewrite slength_app, but_last_length. simpl.
      destruct old; [contradiction | simpl; lia]. }
    rewrite E'. now rewrite (IH H).
Qed.

(** X5.  The block goes before every marker, not before the first one
    only: [content.replace] is called without a count.  On a text with two
    markers the block is inserted twice. *)
Theorem block_goes_before_every_marker (section a b c : string) :
  contains insertion_marker (a ++ but_last insertion_marker) = false ->
  contains insertion_marker (b ++ but_last insertion_marker) = false ->
  contains insertion_marker c = false ->
  contains old_export
    (a ++ section ++ insertion_marker ++
     b ++ section ++ insertion_marker ++ c) = false ->
  inject_content section
    (a ++ insertion_marker ++ b ++ insertion_marker ++ c) =
  a ++ section ++ insertion_marker ++ b ++ section ++ insertion_marker ++ c.
Proof.
  intros Ha Hb Hc Ho. unfold inject_content.
  assert (E : replace insertion_marker (section ++ insertion_marker)
                (a ++ insertion_marker ++ b ++ insertion_marker ++ c) =
              a ++ section ++ insertion_marker ++
              b ++ section ++ insertion_marker ++ c).
  { rewrite replace_step; [|discriminate|exact Ha].
    rewrite replace_step; [|discriminate|exact Hb].
    rewrite (replace_absent _ _ c Hc). now rewrite !sapp_assoc. }
  rewrite E. now apply replace_absent.
Qed.

Lemma block_goes_before_every_marker_witness :
  inject_content "<B> "
    ("a " ++ insertion_marker ++ " b " ++ insertion_marker ++ " c") =
  "a " ++ "<B> " ++ insertion_marker ++ " b " ++ "<B> " ++ insertion_marker ++ " c".
Proof.
  apply (block_goes_before_every_marker "<B> " "a " " b " " c");
    vm_compute; reflexivity.
Defined.

(** X6.  The injection as it is meant.  On a text made of a part without
    the marker, the marker, a part without the marker, the aggregate
    export as it was, and a part without it, the result is the same text
    with the block before the marker and the aggregate export extended by
    [...PATH_ABILITY_ICONS]: nothing else changes. *)
Theorem injection_on_expected_layout (section a b c : string) :
  contains insertion_marker (a ++ but_last insertion_marker) = false ->
  contains insertion_marker (b ++ old_export ++ c) = false ->
  contains old_export
    ((a ++ section ++ insertion_marker ++ b) ++ but_last old_export) = false ->
  contains old_export c = false ->
  inject_content section (a ++ insertion_marker ++ b ++ old_export ++ c) =
  a ++ section ++ insertion_marker ++ b ++ new_export ++ c.
Proof.
  intros Ha Hb Ho Hc. unfold inject_content.
  rewrite replace_step; [|discriminate|exact Ha].
  rewrite (replace_absent _ _ _ Hb).
  replace (a ++ (section ++ insertion_marker) ++ b ++ old_export ++ c)
    with ((a ++ section ++ insertion_marker ++ b) ++ old_export ++ c)
    by now rewrite !sapp_assoc.
  rewrite replace_step; [|discriminate|exact Ho].
  rewrite (replace_absent _ _ c Hc). now rewrite !sapp_assoc.
Qed.

Lemma injection_on_expected_layout_witness :
  inject_content update_icons_constants.path_ability_icons_section
    ("import x; " ++ insertion_marker ++ " " ++ old_export ++ " // end") =
  "import x; " ++ update_icons_constants.path_ability_icons_section ++
  insertion_marker ++ " " ++ new_export ++ " // end".
Proof.
  apply (injection_on_expected_layout
           update_icons_constants.path_ability_icons_section
           "import x; " " " " // end");
    vm_compute; reflexivity.
Defined.

(* ================================================================== *)
(** * Further properties: the anchored mode *)
(* ================================================================== *)

Lemma sapp_cancel_l (a x y : string) : a ++ x = a ++ y -> x = y.
Proof.
  induction a as [|c a IH]; cbn [append]; intros H; [exact H|].
  injection H as H. now apply IH.
Qed.

Lemma update_entry_plain (ability_id new_icon text : string) :
  contains "\" new_icon = false ->
  exists content,
    update_path_icons.update_entry (ability_id, new_icon) text = inr content.
Proof.
  intros H. unfold update_path_icons.update_entry, Re.sub1.
  change (Re.groups (update_path_icons.pattern ability_id)) with 1.
  rewrite (template_plain _ H).
  destruct (Re.search _ text) as [[before m]|]; eexists; reflexivity.
Qed.

Lemma update_all_entries_plain (es : list entry) (text : string) :
  Forall (fun e => contains "\" (snd e) = false) es ->
  exists content, update_path_icons.update_all_entries es text = inr content.
Proof.
  intros H. revert text. induction H as [|[ability_id new_icon] es He Hes IH];
    intros text; cbn [update_path_icons.update_all_entries].
  - now exists text.
  - destruct (update_entry_plain ability_id new_icon text He) as [c ->].
    apply IH.
Qed.

Lemma tables_hold_no_backslash :
  Forall (fun t : string * list entry =>
            Forall (fun e => contains "\" (snd e) = false) (snd t))
         update_path_icons_main.files.
Proof.
  repeat constructor.
Qed.

Lemma iteration_of_plain (todo : list (string * list entry)) :
  update_path_icons_main.iteration_of todo ->
  Forall (fun t : string * list entry =>
            Forall (fun e => contains "\" (snd e) = false) (snd t)) todo.
Proof.
  unfold update_path_icons_main.iteration_of.
  intros H. pose proof tables_hold_no_backslash as Hp.
  induction H as [|given source todo files [_ Hperm] _ IH]; [constructor|].
  inversion Hp as [|? ? Hs Hrest]; subst. constructor.
  - eapply Permutation_Forall; [exact Hperm | exact Hs].
  - now apply IH.
Qed.

(** X7.  A list of entries none of whose new values holds a backslash
    never raises, whatever the text; the four tables of
    [update_path_icons.py] are such lists, in whatever order each set is
    iterated. *)
Theorem plain_tables_never_raise :
  (forall es text,
      Forall (fun e => contains "\" (snd e) = false) es ->
      exists content,
        update_path_icons.update_all_entries es text = inr content)
  /\
  (forall todo,
      update_path_icons_main.iteration_of todo ->
      forall filename icon_mappings text,
        In (filename, icon_mappings) todo ->
        exists content,
          update_path_icons.update_all_entries icon_mappings text = inr content).
Proof.
  split; [exact update_all_entries_plain|].
  intros todo Hit filename icon_mappings text Hin.
  apply update_all_entries_plain.
  pose proof (iteration_of_plain todo Hit) as H.
  rewrite Forall_forall in H. exact (H _ Hin).
Qed.

Lemma plain_tables_never_raise_witness :
  exists content,
    update_path_icons.update_all_entries
      [("rend", "ability-paths-warrior-rend")] "id: 'rend', icon: 'Zap'," =
    inr content.
Proof.
  apply (proj1 plain_tables_never_raise). repeat constructor.
Defined.

(** One text does not start with the anchors of two ids without a
    quote. *)
Lemma anchor_at_one_id (id1 id2 s : string) :
  every Re.not_quote id1 = true ->
  every Re.not_quote id2 = true ->
  anchor_at id1 s -> anchor_at id2 s -> id1 = id2.
Proof.
  intros H1 H2 (a1 & r1 & (w1 & Hw1 & ->) & E1) (a2 & r2 & (w2 & Hw2 & ->) & E2).
  rewrite E1 in E2. rewrite !sapp_assoc in E2. cbn [append] in E2.
  injection E2 as E2.
  change (w1 ++ String "'" (id1 ++ String "'" (String "," r1)))
    with (w1 ++ "'" ++ (id1 ++ "'" ++ ("," ++ r1))) in E2.
  change (w2 ++ String "'" (id2 ++ String "'" (String "," r2)))
    with (w2 ++ "'" ++ (id2 ++ "'" ++ ("," ++ r2))) in E2.
  apply first_quote_unique in E2 as [_ E2];
    [|now apply space_is_not_quote|now apply space_is_not_quote].
  now apply first_quote_unique in E2 as [E2 _].
Qed.

(** X8.  The patterns of two different ids without a quote never match
    at the same place: where [re.sub] finds the anchor of one entry it
    does not find that of the other, so two such entries always start from
    different anchors.  The pattern of [warlord] does not match at
    [id: 'warlord_command',], nor the other way round. *)
Theorem anchor_names_one_id (id1 id2 : string) :
  every Re.not_quote id1 = true ->
  every Re.not_quote id2 = true ->
  id1 <> id2 ->
  (forall s m,
      Re.match_at (update_path_icons.pattern id2) s = Some m ->
      Re.match_at (update_path_icons.pattern id1) s = None) /\
  (forall text before1 m1 before2 m2,
      Re.search (update_path_icons.pattern id1) text = Some (before1, m1) ->
      Re.search (update_path_icons.pattern id2) text = Some (before2, m2) ->
      before1 <> before2).
Proof.
  intros H1 H2 Hne.
  assert (Hat : forall s m,
             Re.match_at (update_path_icons.pattern id2) s = Some m ->
             Re.match_at (update_path_icons.pattern id1) s = None).
  { intros s m Hm. rewrite match_at_pattern in *. unfold match_spec in *.
    destruct (anchor_end id1 s) as [s1|] eqn:E1; [|reflexivity].
    destruct (anchor_end id2 s) as [s2|] eqn:E2; [|discriminate].
    exfalso. apply Hne. apply (anchor_at_one_id id1 id2 s H1 H2).
    - apply anchor_at_iff. congruence.
    - apply anchor_at_iff. congruence. }
  split; [exact Hat|].
  intros text before1 m1 before2 m2 Hs1 Hs2 E. subst before2.
  apply search_elim in Hs1 as (s1 & -> & Hm1 & _).
  apply search_elim in Hs2 as (s2 & E2 & Hm2 & _).
  apply sapp_cancel_l in E2. subst s2.
  rewrite (Hat _ _ Hm2) in Hm1. discriminate.
Qed.

Lemma anchor_names_one_id_witness :
  Re.match_at (update_path_icons.pattern "warlord")
              "id: 'warlord_command', icon: 'Swords' }" = None.
Proof.
  eapply (proj1 (anchor_names_one_id "warlord" "warlord_command"
                   eq_refl eq_refl ltac:(discriminate))).
  vm_compute. reflexivity.
Defined.

(** The other way round, evaluated: the entry of [warlord] on a record of
    [warlord_command] alone. *)
Example warlord_is_not_warlord_command :
  update_path_icons.update_entry ("warlord", "ability-paths-warrior-warlord")
    "{ id: 'warlord_command', icon: 'Swords' }" =
  inr "{ id: 'warlord_command', icon: 'Swords' }".
Proof. vm_compute. reflexivity. Qed.

Lemma field_at_holds_icon (s : string) : field_at s -> contains "icon:" s = true.
Proof.
  intros (f & r & (ws & v & _ & _ & _ & ->) & ->).
  rewrite !sapp_assoc. apply (contains_head "icon:").
Qed.

Lemma contains_skip (sub s : string) (n : nat) :
  contains sub (skip n s) = true -> contains sub s = true.
Proof.
  intros H. rewrite <- (take_skip n s). now apply contains_app_r_str.
Qed.

(** X9.  An anchor after which no icon field with a value follows is
    left alone: when no such field stands anywhere after any anchor of the
    id, the entry (with a valid template) returns the text as it is.  The
    record is not given an [icon] field. *)
Theorem anchor_without_field_is_noop
        (ability_id new_icon text : string) (ps : list Re.piece) :
  Re.parse_template (update_path_icons.replacement new_icon) 1 = inr ps ->
  (forall pre a rest,
      is_anchor ability_id a -> text = pre ++ a ++ rest ->
      forall j, ~ field_at (skip j rest)) ->
  update_path_icons.update_entry (ability_id, new_icon) text = inr text.
Proof.
  intros Hp H. apply (update_entry_unmatched _ _ _ ps Hp).
  apply search_none. intros k. rewrite match_at_pattern. unfold match_spec.
  destruct (anchor_end ability_id (skip k text)) as [s1|] eqn:Ea; [|reflexivity].
  destruct (next_field s1) as [[s2 r]|] eqn:En; [exfalso | reflexivity].
  apply anchor_end_elim in Ea as (a & Ha & Ea).
  apply next_field_elim in En as (mid & -> & Hfe & _).
  refine (H (take k text) a (mid ++ s2) Ha _ (length mid) _).
  - rewrite <- Ea. now rewrite take_skip.
  - rewrite skip_app. apply field_at_iff. congruence.
Qed.

Lemma anchor_without_field_is_noop_witness :
  update_path_icons.update_entry blood_rage_entry
    "{ id: 'blood_rage', name: 'Blood Rage' }" =
  inr "{ id: 'blood_rage', name: 'Blood Rage' }".
Proof.
  eapply (anchor_without_field_is_noop "blood_rage"
            "ability-paths-warrior-blood_rage").
  - vm_compute. reflexivity.
  - intros pre a rest _ E j Hf.
    apply field_at_holds_icon, contains_skip in Hf.
    assert (C : contains "icon:" "{ id: 'blood_rage', name: 'Blood Rage' }" = true).
    { rewrite E. apply contains_app_r_str. now apply contains_app_r_str. }
    vm_compute in C. discriminate.
Defined.

(* ================================================================== *)
(** * Further properties: the entry points *)
(* ================================================================== *)

(** ** The loops over the files, as functions of the files *)

Lemma target_inj (base : string) (t1 t2 : string * list entry) :
  target base t1 = target base t2 -> fst t1 = fst t2.
Proof.
  unfold target, path_join. intros H.
  apply sapp_cancel_l in H. now apply sapp_cancel_l in H.
Qed.

Lemma stored_find_other (p : string) (ws : list (string * string))
      (d : list (string * file)) :
  (forall wr, In wr ws -> fst wr <> p) ->
  find_file p (stored ws d) = find_file p d.
Proof.
  revert d. induction ws as [|wr ws IH]; intros d H; [reflexivity|].
  cbn [stored fold_left]. fold (stored ws (store (fst wr) (snd wr) d)).
  rewrite IH by (intros; apply H; now right).
  apply find_store_other. intros E. now apply (H wr); [left|].
Qed.

Lemma stored_other (p : string) (ws : list (string * string))
      (d : list (string * file)) :
  (forall wr, In wr ws -> fst wr <> p) ->
  lookup p (stored ws d) = lookup p d.
Proof. intros H. unfold lookup. now rewrite stored_find_other. Qed.

Lemma unreadable_cases (path : string) (d : list (string * file)) :
  unreadable path d = false ->
  present path d = false \/ exists content, lookup path d = Some content.
Proof.
  unfold unreadable, present, lookup.
  destruct (find_file path d) as [[c| | |]|]; try discriminate; intros _.
  - right. now exists c.
  - now left.
Qed.

Lemma unreadable_lookup (path : string) (d : list (string * file)) :
  unreadable path d = true -> present path d = true /\ lookup path d = None.
Proof.
  unfold unreadable, present, lookup.
  destruct (find_file path d) as [[c| | |]|]; try discriminate; now split.
Qed.

(** A write of a file that was read leaves what can be read where. *)
Lemma unreadable_store (p path content c0 : string) (d : list (string * file)) :
  lookup path d = Some c0 ->
  unreadable p (store path content d) = unreadable p d.
Proof.
  intros H. unfold unreadable. destruct (string_dec p path) as [->|Hp].
  - rewrite find_store. apply lookup_find in H. now rewrite H.
  - now rewrite find_store_other.
Qed.

Section LoopFacts.

Variable base : string.
Variable transform : list entry -> string -> string.

Lemma write_for_target (d : list (string * file)) (t : string * list entry)
      (wr : string * string) :
  write_for base transform d t = Some wr ->
  exists content,
    lookup (target base t) d = Some content /\
    transform (snd t) content <> content /\
    wr = (target base t, transform (snd t) content).
Proof.
  unfold write_for.
  destruct (lookup (target base t) d) as [content|]; [|discriminate].
  destruct (_ =? content)%string eqn:E; [discriminate|].
  intros [= <-]. exists content. apply String.eqb_neq in E. now repeat split.
Qed.

Lemma write_for_none (d : list (string * file)) (t : string * list entry) :
  write_for base transform d t = None ->
  lookup (target base t) d =
  option_map (transform (snd t)) (lookup (target base t) d).
Proof.
  unfold write_for.
  destruct (lookup (target base t) d) as [content|]; [|reflexivity].
  destruct (_ =? content)%string eqn:E; [|discriminate].
  apply String.eqb_eq in E. intros _. cbn. now rewrite E.
Qed.

Lemma write_for_store_other (p c : string) (d : list (string * file))
      (t : string * list entry) :
  target base t <> p ->
  write_for base transform (store p c d) t = write_for base transform d t.
Proof.
  intros H. unfold write_for.
  now rewrite lookup_store_other.
Qed.

Lemma writes_of_targets (todo : list (string * list entry)) :
  forall d wr, In wr (writes_of base transform d todo) ->
               exists t, In t todo /\ fst wr = target base t.
Proof.
  induction todo as [|t rest IH]; intros d wr; cbn; [tauto|].
  destruct (write_for base transform d t) as [wr0|] eqn:E.
  - intros [<-|H].
    + apply write_for_target in E as (c & _ & _ & ->).
      exists t. now split; [left|].
    + apply IH in H as (t' & Ht' & H). exists t'. now split; [right|].
  - intros H. apply IH in H as (t' & Ht' & H). exists t'. now split; [right|].
Qed.

Lemma expected_writes_store_other (p c : string) (d : list (string * file))
      (todo : list (string * list entry)) :
  (forall t, In t todo -> target base t <> p) ->
  expected_writes base transform (store p c d) todo =
  expected_writes base transform d todo.
Proof.
  induction todo as [|t rest IH]; intros H; [reflexivity|].
  unfold expected_writes in *. cbn [flat_map].
  rewrite (write_for_store_other p c d t) by (apply H; now left).
  f_equal. apply IH. intros; apply H; now right.
Qed.

Lemma head_target_apart (t : string * list entry)
      (rest : list (string * list entry)) :
  NoDup (map fst (t :: rest)) ->
  forall t', In t' rest -> target base t' <> target base t.
Proof.
  intros H t' Hin E. apply target_inj in E.
  inversion H as [|? ? Hnot _]; subst. apply Hnot. rewrite <- E.
  now apply in_map.
Qed.

(** With distinct names the writes are those read off the files at the
    start. *)
Lemma writes_of_expected (todo : list (string * list entry)) :
  NoDup (map fst todo) ->
  forall d,
    writes_of base transform d todo = expected_writes base transform d todo.
Proof.
  induction todo as [|t rest IH]; intros H d; [reflexivity|].
  pose proof (head_target_apart t rest H) as Hapart.
  inversion H as [|? ? _ Hrest]; subst.
  unfold expected_writes. cbn [flat_map writes_of].
  destruct (write_for base transform d t) as [wr|] eqn:E.
  - cbn [app]. f_equal. rewrite (IH Hrest).
    apply write_for_target in E as (c & _ & _ & ->). cbn [fst snd].
    now apply expected_writes_store_other.
  - cbn [app]. apply (IH Hrest).
Qed.

(** Each file of the list holds, at the end, the transformed text of
    what it held at the start. *)
Lemma stored_listed (todo : list (string * list entry)) :
  NoDup (map fst todo) ->
  forall d t, In t todo ->
    lookup (target base t) (stored (writes_of base transform d todo) d) =
    option_map (transform (snd t)) (lookup (target base t) d).
Proof.
  induction todo as [|t0 rest IH]; intros H d t Hin; [destruct Hin|].
  pose proof (head_target_apart t0 rest H) as Hapart.
  inversion H as [|? ? _ Hrest]; subst.
  cbn [writes_of].
  destruct (write_for base transform d t0) as [wr|] eqn:E.
  - pose proof E as E'.
    apply write_for_target in E' as (c & Hc & _ & ->). cbn [fst snd].
    cbn [stored fold_left fst snd].
    fold (stored (writes_of base transform
                    (store (target base t0) (transform (snd t0) c) d) rest)
                 (store (target base t0) (transform (snd t0) c) d)).
    destruct Hin as [<-|Hin].
    + rewrite stored_other.
      * rewrite lookup_store, Hc. reflexivity.
      * intros wr Hwr. apply writes_of_targets in Hwr as (t' & Ht' & ->).
        now apply Hapart.
    + rewrite (IH Hrest _ _ Hin).
      now rewrite lookup_store_other by now apply Hapart.
  - destruct Hin as [<-|Hin]; [|now apply IH].
    rewrite stored_other.
    + now apply write_for_none.
    + intros wr Hwr. apply writes_of_targets in Hwr as (t' & Ht' & ->).
      now apply Hapart.
Qed.

(** The loop creates nothing and removes nothing. *)
Lemma stored_same_paths (todo : list (string * list entry)) :
  forall d p,
    present p (stored (writes_of base transform d todo) d) = present p d.
Proof.
  induction todo as [|t rest IH]; intros d p; [reflexivity|].
  cbn [writes_of].
  destruct (write_for base transform d t) as [wr|] eqn:E; [|apply IH].
  apply write_for_target in E as (c & Hc & _ & ->).
  cbn [stored fold_left fst snd].
  fold (stored (writes_of base transform
                  (store (target base t) (transform (snd t) c) d) rest)
               (store (target base t) (transform (snd t) c) d)).
  rewrite IH.
  destruct (string_dec p (target base t)) as [->|Hp].
  - unfold present. rewrite find_store.
    apply lookup_find in Hc. now rewrite Hc.
  - now apply present_store_other.
Qed.

(** What is not on the list is as it was. *)
Lemma stored_unlisted (todo : list (string * list entry)) (p : string) :
  (forall t, In t todo -> p <> target base t) ->
  forall d, find_file p (stored (writes_of base transform d todo) d) =
            find_file p d.
Proof.
  intros H d. apply stored_find_other. intros wr Hwr E.
  apply writes_of_targets in Hwr as (t & Ht & Hwr).
  apply (H t Ht). congruence.
Qed.

(** What cannot be read is as it was. *)
Lemma stored_unread (todo : list (string * list entry)) (p : string) :
  forall d, lookup p d = None ->
            find_file p (stored (writes_of base transform d todo) d) =
            find_file p d.
Proof.
  induction todo as [|t rest IH]; intros d Hp; [reflexivity|].
  cbn [writes_of].
  destruct (write_for base transform d t) as [wr|] eqn:E; [|now apply IH].
  apply write_for_target in E as (c & Hc & _ & ->).
  cbn [stored fold_left fst snd].
  fold (stored (writes_of base transform
                  (store (target base t) (transform (snd t) c) d) rest)
               (store (target base t) (transform (snd t) c) d)).
  assert (Hne : p <> target base t) by (intros ->; congruence).
  rewrite IH by (now rewrite lookup_store_other).
  now apply find_store_other.
Qed.

Lemma writes_of_length (todo : list (string * list entry)) :
  forall d, List.length (writes_of base transform d todo) <= List.length todo.
Proof.
  induction todo as [|t rest IH]; intros d; cbn; [lia|].
  destruct (write_for base transform d t); cbn.
  - specialize (IH (store (fst p) (snd p) d)). lia.
  - specialize (IH d). lia.
Qed.

(** Nothing is written when no listed file that can be read changes. *)
Lemma writes_of_nothing (todo : list (string * list entry))
      (d : list (string * file)) :
  (forall t content,
      In t todo -> lookup (target base t) d = Some content ->
      transform (snd t) content = content) ->
  writes_of base transform d todo = [].
Proof.
  induction todo as [|t rest IH]; intros H; [reflexivity|].
  cbn [writes_of].
  assert (E : write_for base transform d t = None).
  { unfold write_for.
    destruct (lookup (target base t) d) as [content|] eqn:El; [|reflexivity].
    rewrite (H t content (or_introl eq_refl) El).
    now rewrite String.eqb_refl. }
  rewrite E. apply IH. intros t' content Hin. apply H. now right.
Qed.

(** Something is written when a listed file that can be read changes. *)
Lemma writes_of_something (todo : list (string * list entry))
      (d : list (string * file)) (t : string * list entry)
      (content : string) :
  In t todo -> lookup (target base t) d = Some content ->
  transform (snd t) content <> content ->
  writes_of base transform d todo <> [].
Proof.
  induction todo as [|t0 rest IH]; intros Hin Hl Hne; [destruct Hin|].
  cbn [writes_of].
  destruct (write_for base transform d t0) as [wr|] eqn:E; [discriminate|].
  destruct Hin as [->|Hin]; [|now apply IH].
  unfold write_for in E. rewrite Hl in E.
  destruct (_ =? content)%string eqn:Eq; [|discriminate].
  now apply String.eqb_eq in Eq.
Qed.

End LoopFacts.

(** ** [apply_icon_updates.py]: [main] *)

Lemma session_eta (s : session) :
  mkSession (disk s) (written s) (console s) (commands s) = s.
Proof. now destruct s. Qed.

(** The loop over a first part of the list whose files, where they
    exist, can be read. *)
Lemma apply_update_files_app (before rest : list (string * list entry)) :
  forall n s,
    (forall t, In t before ->
               unreadable (target apply_icon_updates_main.base_path t) (disk s)
               = false) ->
    let ws := writes_of apply_icon_updates_main.base_path
                        apply_icon_updates.replace_all_entries (disk s) before in
    exists out,
      apply_icon_updates_main.update_files (before ++ rest) n s =
      apply_icon_updates_main.update_files rest (n + List.length ws)
        (mkSession (stored ws (disk s)) (written s ++ ws) (console s ++ out)
                   (commands s)).
Proof.
  induction before as [|[name replacements] before IH]; intros n s Hr; cbv zeta.
  - exists []. cbn. rewrite !List.app_nil_r, Nat.add_0_r.
    now rewrite session_eta.
  - cbn [app apply_icon_updates_main.update_files writes_of].
    unfold write_for, target. cbn [fst snd].
    unfold and_then at 1. unfold path_exists.
    destruct (unreadable_cases _ _ (Hr _ (or_introl eq_refl)))
      as [Habsent|[content E]]; unfold target in *; cbn [fst] in *.
    + rewrite Habsent, (absent_lookup _ _ Habsent).
      unfold and_then at 1. unfold say.
      cbn [disk written console commands].
      match goal with
      | |- context [apply_icon_updates_main.update_files _ n ?s1] =>
          destruct (IH n s1) as [out Hout];
            [intros t Ht; apply Hr; now right|]
      end.
      cbv zeta in Hout. cbn [disk written console commands] in Hout.
      rewrite Hout. eexists (Outer (NotFound _) :: out).
      now rewrite <- List.app_assoc.
    + rewrite (lookup_present _ _ _ E), E.
      unfold and_then at 1. unfold call.
      rewrite (apply_icon_updates_run
                 (mkWorld (disk s) (written s) []) _ content E).
      cbv zeta. destruct (_ =? content)%string.
      * cbn [files writes stdout map]. unfold and_then at 1. unfold say.
        cbn [disk written console commands]. rewrite List.app_nil_r.
        destruct (IH n (mkSession (disk s) (written s)
                                  (console s ++ [Outer (NoChangesIn name)])
                                  (commands s))) as [out Hout];
          [intros t Ht; apply Hr; now right|].
        cbv zeta in Hout. cbn [disk written console commands] in Hout.
        rewrite Hout. exists (Outer (NoChangesIn name) :: out).
        now rewrite <- List.app_assoc.
      * cbn [files writes stdout map]. unfold and_then at 1. unfold say.
        cbn [disk written console commands fst snd]. rewrite List.app_nil_r.
        match goal with
        | |- context [apply_icon_updates_main.update_files _ (S n) ?s1] =>
            destruct (IH (S n) s1) as [out Hout]
        end.
        { intros t Ht. cbn [disk].
          rewrite (unreadable_store _ _ _ content) by exact E.
          apply Hr. now right. }
        cbv zeta in Hout. cbn [disk written console commands] in Hout.
        rewrite Hout. exists (Outer (UpdatedName name) :: out).
        cbn [stored fold_left List.length fst snd].
        rewrite <- (List.app_assoc (console s)), <- (List.app_assoc (written s)).
        cbn [app]. now rewrite Nat.add_succ_r.
Qed.

(** The loop at a file that exists and cannot be read. *)
Lemma apply_update_files_blocked (t : string * list entry)
      (rest : list (string * list entry)) (n : nat) (s : session) :
  unreadable (target apply_icon_updates_main.base_path t) (disk s) = true ->
  apply_icon_updates_main.update_files (t :: rest) n s =
  (inl (Raised (read_error (target apply_icon_updates_main.base_path t)
                           (disk s))), s).
Proof.
  destruct t as [name replacements]. intros H.
  apply unreadable_lookup in H as [Hp Hl]. unfold target in *. cbn [fst] in *.
  cbn [apply_icon_updates_main.update_files].
  unfold and_then at 1. unfold path_exists. rewrite Hp.
  unfold and_then at 1. unfold call.
  destruct (no_text_raises (mkWorld (disk s) (written s) []) _ Hl)
    as (H1 & _).
  rewrite H1. cbn [files writes stdout map].
  now rewrite List.app_nil_r, session_eta.
Qed.

(** X10.  [main] of [apply_icon_updates.py], on any list of files with
    distinct names, from any state of the files in which each listed file
    that exists can be read: it returns without raising and runs no
    command; it writes, in the order of the list, exactly the files that
    exist and whose text its replacements change, each with the replaced
    text of what the file held at the start; the count of its last line
    is the number of these writes; every listed file ends with the
    replaced text of what it held, every other path is as it was, and
    nothing appears or goes. *)
Theorem apply_main_outcome (todo : list (string * list entry)) (s : session) :
  NoDup (map fst todo) ->
  (forall t, In t todo ->
             unreadable (target apply_icon_updates_main.base_path t) (disk s)
             = false) ->
  let ws := expected_writes apply_icon_updates_main.base_path
              apply_icon_updates.replace_all_entries (disk s) todo in
  exists s',
    apply_icon_updates_main.main_on todo s = (inr tt, s') /\
    written s' = (written s ++ ws)%list /\
    (exists out,
        console s' =
        (console s ++ out ++ [Outer (CompletedOf4 (List.length ws))])%list) /\
    commands s' = commands s /\
    (forall t, In t todo ->
       lookup (target apply_icon_updates_main.base_path t) (disk s') =
       option_map (apply_icon_updates.replace_all_entries (snd t))
                  (lookup (target apply_icon_updates_main.base_path t) (disk s))) /\
    (forall p,
        (forall t, In t todo -> p <> target apply_icon_updates_main.base_path t) ->
        find_file p (disk s') = find_file p (disk s)) /\
    (forall p, present p (disk s') = present p (disk s)).
Proof.
  intros Hnames Hread ws.
  destruct (apply_update_files_app todo [] 0 s Hread) as [out Hrun].
  cbv zeta in Hrun. rewrite List.app_nil_r in Hrun.
  cbn [apply_icon_updates_main.update_files] in Hrun. unfold pure in Hrun.
  pose proof (writes_of_expected apply_icon_updates_main.base_path
                apply_icon_updates.replace_all_entries todo Hnames (disk s))
    as E.
  fold ws in E.
  unfold apply_icon_updates_main.main_on, and_then. rewrite Hrun.
  unfold say. cbn [disk written console commands plus]. eexists.
  split; [reflexivity|]. cbn [disk written console commands].
  split; [now rewrite E|]. split; [|split; [reflexivity|split; [|split]]].
  - exists out. now rewrite E, <- List.app_assoc.
  - intros t Ht. now apply stored_listed.
  - intros p Hp. now apply stored_unlisted.
  - intros p. apply stored_same_paths.
Qed.

Lemma apply_main_outcome_witness :
  exists s',
    apply_icon_updates_main.main
      (mkSession
         [("/Users/gilbrowdy/rogue-wave4-data/src/data/paths/mage.ts",
           Text "{ id: 'spark', icon: 'Zap' }")] [] [] []) = (inr tt, s') /\
    written s' =
    [("/Users/gilbrowdy/rogue-wave4-data/src/data/paths/mage.ts",
      "{ id: 'spark', icon: 'ability-paths-mage-archmage_spell_crit' }")].
Proof.
  assert (Hnames : NoDup (map fst apply_icon_updates_main.files_to_update)).
  { repeat constructor; cbn; intuition discriminate. }
  destruct (apply_main_outcome
              apply_icon_updates_main.files_to_update
              (mkSession
                 [("/Users/gilbrowdy/rogue-wave4-data/src/data/paths/mage.ts",
                   Text "{ id: 'spark', icon: 'Zap' }")] [] [] [])
              Hnames)
    as (s' & Hrun & Hwritten & _).
  - intros t Ht.
    repeat (destruct Ht as [<-|Ht]; [reflexivity|]). destruct Ht.
  - exists s'. split; [exact Hrun|]. rewrite Hwritten. vm_compute. reflexivity.
Defined.

(** ** [update_path_icons.py]: [main] *)

Lemma anchored_text_plain (es : list entry) (content : string) :
  Forall (fun e => contains "\" (snd e) = false) es ->
  update_path_icons.update_all_entries es content =
  inr (anchored_text es content).
Proof.
  intros H. unfold anchored_text.
  now destruct (update_all_entries_plain es content H) as [c ->].
Qed.

Lemma anchored_update_files_app (before rest : list (string * list entry)) :
  Forall (fun t : string * list entry =>
            Forall (fun e => contains "\" (snd e) = false) (snd t)) before ->
  forall n s,
    (forall t, In t before ->
               unreadable (target update_path_icons_main.base_path t) (disk s)
               = false) ->
    let ws := writes_of update_path_icons_main.base_path anchored_text
                        (disk s) before in
    exists out,
      update_path_icons_main.update_files (before ++ rest) n s =
      update_path_icons_main.update_files rest (n + List.length ws)
        (mkSession (stored ws (disk s)) (written s ++ ws) (console s ++ out)
                   (commands s)).
Proof.
  induction 1 as [|[filename icon_mappings] before Hplain _ IH];
    intros n s Hr; cbv zeta.
  - exists []. cbn. rewrite !List.app_nil_r, Nat.add_0_r.
    now rewrite session_eta.
  - cbn [app update_path_icons_main.update_files writes_of].
    unfold write_for, target. cbn [fst snd] in *.
    unfold and_then at 1. unfold path_exists.
    destruct (unreadable_cases _ _ (Hr _ (or_introl eq_refl)))
      as [Habsent|[content E]]; unfold target in *; cbn [fst] in *.
    + rewrite Habsent, (absent_lookup _ _ Habsent).
      unfold and_then at 1. unfold say.
      cbn [disk written console commands].
      match goal with
      | |- context [update_path_icons_main.update_files _ n ?s1] =>
          destruct (IH n s1) as [out Hout];
            [intros t Ht; apply Hr; now right|]
      end.
      cbv zeta in Hout. cbn [disk written console commands] in Hout.
      rewrite Hout. eexists (Outer (FileNotFound _) :: out).
      now rewrite <- List.app_assoc.
    + rewrite (lookup_present _ _ _ E), E.
      unfold and_then at 1. unfold call.
      rewrite (update_file_run
                 (mkWorld (disk s) (written s) []) _ content E).
      rewrite (anchored_text_plain _ content Hplain).
      destruct (_ =? content)%string.
      * cbn [files writes stdout].
        match goal with
        | |- context [update_path_icons_main.update_files _ n ?s1] =>
            destruct (IH n s1) as [out Hout];
              [intros t Ht; apply Hr; now right|]
        end.
        cbv zeta in Hout. cbn [disk written console commands] in Hout.
        rewrite Hout. eexists (_ :: _ :: out). cbn [map].
        now rewrite <- List.app_assoc.
      * cbn [files writes stdout].
        match goal with
        | |- context [update_path_icons_main.update_files _ (S n) ?s1] =>
            destruct (IH (S n) s1) as [out Hout]
        end.
        { intros t Ht. cbn [disk].
          rewrite (unreadable_store _ _ _ content) by exact E.
          apply Hr. now right. }
        cbv zeta in Hout. cbn [disk written console commands] in Hout.
        rewrite Hout. eexists (_ :: _ :: out).
        cbn [stored fold_left List.length fst snd map].
        rewrite <- (List.app_assoc (console s)), <- (List.app_assoc (written s)).
        cbn [app]. now rewrite Nat.add_succ_r.
Qed.

Lemma anchored_update_files_blocked (t : string * list entry)
      (rest : list (string * list entry)) (n : nat) (s : session) :
  unreadable (target update_path_icons_main.base_path t) (disk s) = true ->
  update_path_icons_main.update_files (t :: rest) n s =
  (inl (Raised (read_error (target update_path_icons_main.base_path t)
                           (disk s))),
   mkSession (disk s) (written s)
             (console s ++
              [Inner (Processing (target update_path_icons_main.base_path t))])
             (commands s)).
Proof.
  destruct t as [filename icon_mappings]. intros H.
  apply unreadable_lookup in H as [Hp Hl]. unfold target in *. cbn [fst] in *.
  cbn [update_path_icons_main.update_files].
  unfold and_then at 1. unfold path_exists. rewrite Hp.
  unfold and_then at 1. unfold call.
  destruct (no_text_raises (mkWorld (disk s) (written s) []) _ Hl)
    as (_ & _ & H3 & _).
  rewrite H3. reflexivity.
Qed.

Lemma iteration_of_names (todo : list (string * list entry)) :
  update_path_icons_main.iteration_of todo ->
  map fst todo = ["warrior.ts"; "mage.ts"; "rogue.ts"; "paladin.ts"].
Proof.
  unfold update_path_icons_main.iteration_of, update_path_icons_main.files.
  intros H.
  repeat match goal with
         | H : Forall2 _ _ (_ :: _) |- _ =>
             inversion H as [|? ? ? ? [? _] ?]; subst; clear H
         | H : Forall2 _ _ [] |- _ => inversion H; subst; clear H
         end.
  cbn in *. congruence.
Qed.

(** X11.  [main] of [update_path_icons.py] with the tables of the script,
    in whatever order each of the four sets is iterated, from any state of
    the files in which each of the four files that exists can be read: no
    entry raises, so all four files are dealt with and the summary is
    printed, with the number of writes out of 4; the files written are
    those that exist and whose text the table changes, in the order
    warrior, mage, rogue, paladin; no command is run, nothing appears or
    goes, and a path that is not one of the four is as it was. *)
Theorem path_icons_main_outcome (todo : list (string * list entry))
        (s : session) :
  update_path_icons_main.iteration_of todo ->
  (forall name,
      In name ["warrior.ts"; "mage.ts"; "rogue.ts"; "paladin.ts"] ->
      unreadable (path_join update_path_icons_main.base_path name) (disk s)
      = false) ->
  let ws := expected_writes update_path_icons_main.base_path anchored_text
              (disk s) todo in
  exists s',
    update_path_icons_main.main_on todo s = (inr tt, s') /\
    written s' = (written s ++ ws)%list /\
    List.length ws <= 4 /\
    (exists out,
        console s' =
        (console s ++ out ++
         [Outer Rule; Outer (UpdatedOutOf (List.length ws) 4); Outer Rule])%list) /\
    commands s' = commands s /\
    (forall t content, In t todo ->
       update_path_icons.update_all_entries (snd t) content =
       inr (anchored_text (snd t) content)) /\
    (forall t, In t todo ->
       lookup (target update_path_icons_main.base_path t) (disk s') =
       option_map (anchored_text (snd t))
                  (lookup (target update_path_icons_main.base_path t) (disk s))) /\
    (forall p,
        (forall name,
            In name ["warrior.ts"; "mage.ts"; "rogue.ts"; "paladin.ts"] ->
            p <> path_join update_path_icons_main.base_path name) ->
        find_file p (disk s') = find_file p (disk s)) /\
    (forall p, present p (disk s') = present p (disk s)).
Proof.
  intros Hit Hread ws.
  pose proof (iteration_of_names todo Hit) as Hn.
  assert (Hnames : NoDup (map fst todo)).
  { rewrite Hn. repeat constructor; cbn; intuition discriminate. }
  assert (Hlen : List.length todo = 4).
  { rewrite <- (List.length_map fst), Hn. reflexivity. }
  assert (Hread' : forall t, In t todo ->
             unreadable (target update_path_icons_main.base_path t) (disk s)
             = false).
  { intros t Ht. apply Hread. rewrite <- Hn. now apply in_map. }
  pose proof (iteration_of_plain todo Hit) as Hplain.
  destruct (anchored_update_files_app todo [] Hplain 0 s Hread')
    as [out Hrun].
  cbv zeta in Hrun. rewrite List.app_nil_r in Hrun.
  cbn [update_path_icons_main.update_files] in Hrun. unfold pure in Hrun.
  pose proof (writes_of_expected update_path_icons_main.base_path
                anchored_text todo Hnames (disk s)) as E.
  fold ws in E.
  pose proof (writes_of_length update_path_icons_main.base_path
                anchored_text todo (disk s)) as Hle.
  rewrite E, Hlen in Hle.
  unfold update_path_icons_main.main_on, and_then. rewrite Hrun.
  unfold say. cbn [disk written console commands plus]. eexists.
  split; [reflexivity|]. cbn [disk written console commands].
  split; [now rewrite E|]. split; [exact Hle|].
  split; [|split; [reflexivity|split; [|split; [|split]]]].
  - exists out. rewrite E, Hlen. now rewrite <- !List.app_assoc.
  - intros t content Ht. apply anchored_text_plain.
    rewrite Forall_forall in Hplain. now apply Hplain.
  - intros t Ht. now apply stored_listed.
  - intros p Hp. apply stored_unlisted. intros t Ht. apply Hp.
    rewrite <- Hn. now apply in_map.
  - intros p. apply stored_same_paths.
Qed.

Lemma path_icons_main_outcome_witness :
  exists s',
    update_path_icons_main.main
      (mkSession
         [("/Users/gilbrowdy/rogue-wave4-data/src/data/paths/rogue.ts",
           Text "{ id: 'phantom', icon: 'EyeOff' }")] [] [] []) = (inr tt, s') /\
    written s' =
    [("/Users/gilbrowdy/rogue-wave4-data/src/data/paths/rogue.ts",
      "{ id: 'phantom', icon: 'ability-paths-rogue-phantom' }")].
Proof.
  assert (Hit : update_path_icons_main.iteration_of update_path_icons_main.files).
  { repeat constructor. }
  destruct (path_icons_main_outcome
              update_path_icons_main.files
              (mkSession
                 [("/Users/gilbrowdy/rogue-wave4-data/src/data/paths/rogue.ts",
                   Text "{ id: 'phantom', icon: 'EyeOff' }")] [] [] [])
              Hit)
    as (s' & Hrun & Hwritten & _).
  - intros name Hn.
    repeat (destruct Hn as [<-|Hn]; [reflexivity|]). destruct Hn.
  - exists s'. split; [exact Hrun|]. rewrite Hwritten. vm_compute. reflexivity.
Defined.

(** ** [execute_wave4_updates.py]: [update_path_files] and [main] *)

Lemma wave4_update_files_app (before rest : list (string * list entry)) :
  forall updated_files s,
    (forall t, In t before ->
               unreadable (target execute_wave4_main.base_path t) (disk s)
               = false) ->
    let ws := writes_of execute_wave4_main.base_path wave4_text_of
                        (disk s) before in
    exists out,
      execute_wave4_main.update_files (before ++ rest) updated_files s =
      execute_wave4_main.update_files rest (updated_files ++ map fst ws)
        (mkSession (stored ws (disk s)) (written s ++ ws) (console s ++ out)
                   (commands s)).
Proof.
  induction before as [|[name replacements] before IH]; intros acc s Hr;
    cbv zeta.
  - exists []. cbn. rewrite !List.app_nil_r.
    now rewrite session_eta.
  - cbn [app execute_wave4_main.update_files writes_of].
    unfold write_for, target, wave4_text_of. cbn [fst snd].
    unfold and_then at 1. unfold path_exists.
    destruct (unreadable_cases _ _ (Hr _ (or_introl eq_refl)))
      as [Habsent|[content E]]; unfold target in *; cbn [fst] in *.
    + rewrite Habsent, (absent_lookup _ _ Habsent).
      unfold and_then at 1. unfold say.
      cbn [disk written console commands].
      match goal with
      | |- context [execute_wave4_main.update_files _ acc ?s1] =>
          destruct (IH acc s1) as [out Hout];
            [intros t Ht; apply Hr; now right|]
      end.
      cbv zeta in Hout. cbn [disk written console commands] in Hout.
      rewrite Hout. eexists (Outer (FileNotFound _) :: out).
      now rewrite <- List.app_assoc.
    + rewrite (lookup_present _ _ _ E), E.
      unfold and_then at 1. unfold call.
      rewrite (execute_wave4_updates_run
                 (mkWorld (disk s) (written s) []) _ content E).
      cbv zeta. destruct (_ =? content)%string.
      * cbn [files writes stdout].
        match goal with
        | |- context [execute_wave4_main.update_files _ acc ?s1] =>
            destruct (IH acc s1) as [out Hout];
              [intros t Ht; apply Hr; now right|]
        end.
        cbv zeta in Hout. cbn [disk written console commands] in Hout.
        rewrite Hout. eexists (_ :: _ :: out). cbn [map].
        now rewrite <- List.app_assoc.
      * cbn [files writes stdout].
        match goal with
        | |- context [execute_wave4_main.update_files _ ?acc1 ?s1] =>
            destruct (IH acc1 s1) as [out Hout]
        end.
        { intros t Ht. cbn [disk].
          rewrite (unreadable_store _ _ _ content) by exact E.
          apply Hr. now right. }
        cbv zeta in Hout. cbn [disk written console commands] in Hout.
        rewrite Hout. eexists (_ :: _ :: out).
        cbn [stored fold_left map fst snd].
        rewrite <- (List.app_assoc (console s)), <- (List.app_assoc (written s)),
          <- (List.app_assoc acc).
        cbn [app]. reflexivity.
Qed.

Lemma wave4_update_files_blocked (t : string * list entry)
      (rest : list (string * list entry)) (updated_files : list string)
      (s : session) :
  unreadable (target execute_wave4_main.base_path t) (disk s) = true ->
  execute_wave4_main.update_files (t :: rest) updated_files s =
  (inl (Raised (read_error (target execute_wave4_main.base_path t) (disk s))),
   mkSession (disk s) (written s)
             (console s ++
              [Inner (Processing (target execute_wave4_main.base_path t))])
             (commands s)).
Proof.
  destruct t as [name replacements]. intros H.
  apply unreadable_lookup in H as [Hp Hl]. unfold target in *. cbn [fst] in *.
  cbn [execute_wave4_main.update_files].
  unfold and_then at 1. unfold path_exists. rewrite Hp.
  unfold and_then at 1. unfold call.
  destruct (no_text_raises (mkWorld (disk s) (written s) []) _ Hl)
    as (_ & H2 & _).
  rewrite H2. reflexivity.
Qed.

Lemma update_path_files_run (todo : list (string * list entry)) (s : session) :
  (forall t, In t todo ->
             unreadable (target execute_wave4_main.base_path t) (disk s)
             = false) ->
  let ws := writes_of execute_wave4_main.base_path wave4_text_of
                      (disk s) todo in
  exists out,
    execute_wave4_main.update_path_files_on todo s =
    (inr (map fst ws),
     mkSession (stored ws (disk s)) (written s ++ ws) (console s ++ out)
               (commands s)).
Proof.
  intros Hr. cbv zeta. unfold execute_wave4_main.update_path_files_on.
  unfold and_then at 1. unfold say at 1.
  destruct (wave4_update_files_app
              todo [] [] (mkSession (disk s) (written s)
                                    (console s ++ [Outer Step1Header])
                                    (commands s)) Hr) as [out Hout].
  cbv zeta in Hout. cbn [disk written console commands app] in Hout.
  rewrite List.app_nil_r in Hout.
  cbn [execute_wave4_main.update_files] in Hout. unfold pure in Hout.
  unfold and_then at 1. rewrite Hout.
  unfold and_then, say, pure. cbn [disk written console commands].
  eexists (_ :: out ++ [_])%list.
  rewrite <- !List.app_assoc. reflexivity.
Qed.

(** The loop runs no command, however it ends. *)
Lemma wave4_update_files_commands (todo : list (string * list entry)) :
  forall updated_files s,
    commands (snd (execute_wave4_main.update_files todo updated_files s)) =
    commands s.
Proof.
  induction todo as [|[name replacements] rest IH]; intros acc s;
    [reflexivity|].
  cbn [execute_wave4_main.update_files].
  unfold and_then at 1. unfold path_exists.
  destruct (present _ (disk s)).
  - unfold and_then at 1. unfold call.
    destruct (execute_wave4_updates.replace_icons_in_file _ _ _)
      as [[e|updated] w]; [reflexivity|].
    destruct updated; now rewrite IH.
  - unfold and_then at 1. unfold say. now rewrite IH.
Qed.

Lemma update_path_files_commands (todo : list (string * list entry))
      (s : session) :
  commands (snd (execute_wave4_main.update_path_files_on todo s)) = commands s.
Proof.
  unfold execute_wave4_main.update_path_files_on.
  unfold and_then at 1. unfold say at 1.
  pose proof (wave4_update_files_commands
                todo [] (mkSession (disk s) (written s)
                                   (console s ++ [Outer Step1Header])
                                   (commands s))) as H.
  unfold and_then at 1.
  destruct (execute_wave4_main.update_files todo [] _) as [[f|pf] s1];
    cbn [snd commands] in *; [exact H|].
  unfold and_then, say, pure. exact H.
Qed.

(** X12.  When each listed file that exists can be read,
    [update_path_files] does not raise and runs no command; the list it
    returns holds the paths of the files it wrote, in the order of
    writing, so that it is empty exactly when nothing was written;
    nothing appears or goes. *)
Theorem update_path_files_returns_what_it_wrote
        (todo : list (string * list entry)) (s : session) :
  (forall t, In t todo ->
             unreadable (target execute_wave4_main.base_path t) (disk s)
             = false) ->
  exists updated_files s' ws,
    execute_wave4_main.update_path_files_on todo s = (inr updated_files, s') /\
    written s' = (written s ++ ws)%list /\
    updated_files = map fst ws /\
    List.length updated_files <= List.length todo /\
    commands s' = commands s /\
    (forall p, present p (disk s') = present p (disk s)).
Proof.
  intros Hr.
  destruct (update_path_files_run todo s Hr) as [out Hout]. cbv zeta in Hout.
  eexists _, _, _. split; [exact Hout|]. cbn [disk written console commands].
  split; [reflexivity|]. split; [reflexivity|]. split; [|split; [reflexivity|]].
  - rewrite List.length_map. apply writes_of_length.
  - intros p. apply stored_same_paths.
Qed.

Lemma update_path_files_returns_what_it_wrote_witness :
  exists s',
    execute_wave4_main.update_path_files
      (mkSession [("src/data/paths/rogue.ts", Text "icon: 'Ghost'")]
                 [] [] []) =
    (inr ["src/data/paths/rogue.ts"], s').
Proof.
  destruct (update_path_files_returns_what_it_wrote
              execute_wave4_main.files_to_update
              (mkSession [("src/data/paths/rogue.ts", Text "icon: 'Ghost'")]
                         [] [] []))
    as (updated_files & s' & ws & Hrun & _).
  - intros t Ht.
    repeat (destruct Ht as [<-|Ht]; [reflexivity|]). destruct Ht.
  - exists s'.
    assert (E : fst (execute_wave4_main.update_path_files
                       (mkSession
                          [("src/data/paths/rogue.ts", Text "icon: 'Ghost'")]
                          [] [] [])) = inr ["src/data/paths/rogue.ts"])
      by (vm_compute; reflexivity).
    unfold execute_wave4_main.update_path_files in *.
    rewrite Hrun in E. cbn [fst] in E. injection E as ->. exact Hrun.
Defined.

(** X13.  When each listed path is either absent or holds a text that
    its replacements leave unchanged (a run has already replaced every
    value, say), [main] of [execute_wave4_updates.py] leaves through
    [sys.exit(1)], whether or not the change of directory succeeds and
    whatever the commands would answer: it has written no file and run no
    command, and the block of constants is not injected. *)
Theorem wave4_main_exits_when_nothing_changes
        (chdir_ok : bool) (respond : session -> command -> outcome)
        (todo : list (string * list entry)) (s : session) :
  (forall t, In t todo ->
      present (target execute_wave4_main.base_path t) (disk s) = false \/
      exists content,
        lookup (target execute_wave4_main.base_path t) (disk s) = Some content /\
        wave4_text_of (snd t) content = content) ->
  exists s',
    execute_wave4_main.main_on chdir_ok respond todo s =
    (inl (SystemExit 1), s') /\
    disk s' = disk s /\ written s' = written s /\ commands s' = commands s.
Proof.
  intros H. unfold execute_wave4_main.main_on. destruct chdir_ok.
  - cbv [and_then say exit pure]. cbn [disk written console commands].
    assert (Hr : forall t, In t todo ->
               unreadable (target execute_wave4_main.base_path t) (disk s)
               = false).
    { intros t Ht. unfold unreadable.
      destruct (H t Ht) as [Ha|(content & Hl & _)].
      - unfold present in Ha. now destruct (find_file _ (disk s)).
      - apply lookup_find in Hl. now rewrite Hl. }
    assert (Hsame : forall t content,
               In t todo ->
               lookup (target execute_wave4_main.base_path t) (disk s)
               = Some content ->
               wave4_text_of (snd t) content = content).
    { intros t content Ht Hl.
      destruct (H t Ht) as [Ha|(c & Hl' & Hc)].
      - rewrite (absent_lookup _ _ Ha) in Hl. discriminate.
      - congruence. }
    match goal with
    | |- context [execute_wave4_main.update_path_files_on todo ?s0] =>
        destruct (update_path_files_run todo s0 Hr) as [out Hout]
    end.
    cbv zeta in Hout. cbn [disk written console commands] in Hout.
    rewrite (writes_of_nothing _ _ todo (disk s) Hsame) in Hout.
    rewrite Hout. cbn [map disk written console commands stored fold_left].
    eexists. split; [reflexivity|]. cbn [disk written console commands].
    now rewrite List.app_nil_r.
  - cbv [and_then say exit pure]. cbn [disk written console commands].
    eexists. split; [reflexivity|]. now cbn [disk written console commands].
Qed.

Lemma wave4_main_exits_when_nothing_changes_witness :
  exists s',
    execute_wave4_main.main true (fun _ _ => Ran 0 "")
      (mkSession
         [("src/data/paths/warrior.ts",
           Text "{ id: 'blood_rage', icon: 'ability-paths-warrior-blood_rage' }")]
         [] [] []) = (inl (SystemExit 1), s') /\
    commands s' = [].
Proof.
  destruct (wave4_main_exits_when_nothing_changes
              true (fun _ _ => Ran 0 "")
              execute_wave4_main.files_to_update
              (mkSession
                 [("src/data/paths/warrior.ts",
                   Text "{ id: 'blood_rage', icon: 'ability-paths-warrior-blood_rage' }")]
                 [] [] []))
    as (s' & Hrun & _ & _ & Hc).
  - intros t Hin.
    destruct Hin as [<-|Hin].
    { right. eexists. split; [reflexivity|]. vm_compute. reflexivity. }
    repeat (destruct Hin as [<-|Hin]; [left; reflexivity|]).
    destruct Hin.
  - exists s'. split; [exact Hrun | exact Hc].
Defined.

(** X14.  The commands [main] of [execute_wave4_updates.py] runs, whatever
    the files and whatever the outside answers: they are an initial part
    of [npm run build], [git add] of the five paths, [git commit], in this
    order; [main] returns normally only after all three; and when the
    build never answers with return code 0, [main] does not return
    normally and runs no [git] command. *)
Theorem wave4_commands_in_order
        (chdir_ok : bool) (respond : session -> command -> outcome)
        (todo : list (string * list entry)) (s : session) :
  let r := execute_wave4_main.main_on chdir_ok respond todo s in
  (exists l,
      commands (snd r) = (commands s ++ l)%list /\
      (l = [] \/ l = [NpmRunBuild] \/
       l = [NpmRunBuild; GitAdd execute_wave4_main.files_to_commit] \/
       l = [NpmRunBuild; GitAdd execute_wave4_main.files_to_commit;
            GitCommit execute_wave4_main.commit_message])) /\
  (fst r = inr tt ->
   commands (snd r) =
   (commands s ++
    [NpmRunBuild; GitAdd execute_wave4_main.files_to_commit;
     GitCommit execute_wave4_main.commit_message])%list) /\
  ((forall s1 stderr, respond s1 NpmRunBuild <> Ran 0 stderr) ->
   fst r <> inr tt /\
   (commands (snd r) = commands s \/
    commands (snd r) = (commands s ++ [NpmRunBuild])%list)).
Proof.
  cbv zeta. unfold execute_wave4_main.main_on. destruct chdir_ok.
  2:{ cbv [and_then say exit pure]. cbn [disk written console commands fst snd].
      split; [exists []; rewrite List.app_nil_r; tauto|].
      split; [discriminate|]. intros _. split; [discriminate | now left]. }
  cbv [and_then say exit pure]. cbn [disk written console commands].
  match goal with
  | |- context [execute_wave4_main.update_path_files_on todo ?s0] =>
      pose proof (update_path_files_commands todo s0) as Hc;
        destruct (execute_wave4_main.update_path_files_on todo s0)
        as [[f|path_files] s1]
  end;
    cbn [snd disk written console commands] in Hc.
  { cbn [disk written console commands fst snd]. rewrite Hc.
    split; [exists []; rewrite List.app_nil_r; tauto|].
    split; [discriminate|]. intros _. split; [discriminate | now left]. }
  destruct path_files as [|path_file path_files].
  { cbn [disk written console commands fst snd]. rewrite Hc.
    split; [exists []; rewrite List.app_nil_r; tauto|].
    split; [discriminate|]. intros _. split; [discriminate | now left]. }
  unfold call. cbn [disk written console commands].
  destruct (execute_wave4_updates.update_icons_constants _)
    as [[e|icons_updated] w].
  { cbn [disk written console commands fst snd]. rewrite Hc.
    split; [exists []; rewrite List.app_nil_r; tauto|].
    split; [discriminate|]. intros _. split; [discriminate | now left]. }
  unfold execute_wave4_main.run_build, run_command.
  cbv [and_then say exit pure]. cbn [disk written console commands].
  match goal with
  | |- context [respond ?s3 NpmRunBuild] =>
      destruct (respond s3 NpmRunBuild) as [returncode stderr|] eqn:Ebuild
  end.
  2:{ cbn [disk written console commands fst snd]. rewrite Hc.
      split; [exists [NpmRunBuild]; tauto|].
      split; [discriminate|]. intros _. split; [discriminate | now right]. }
  destruct (returncode =? 0)%Z eqn:Ecode.
  2:{ cbn [disk written console commands fst snd]. rewrite Hc.
      split; [exists [NpmRunBuild]; tauto|].
      split; [discriminate|]. intros _. split; [discriminate | now right]. }
  apply Z.eqb_eq in Ecode. subst returncode.
  cbn [disk written console commands].
  unfold execute_wave4_main.commit_changes, run_command.
  cbv [and_then say exit pure]. cbn [disk written console commands].
  match goal with
  | |- context [respond ?s4 (GitAdd ?fs)] =>
      destruct (respond s4 (GitAdd fs)) as [code_add err_add|]
  end.
  2:{ cbn [disk written console commands fst snd]. rewrite Hc.
      rewrite <- !List.app_assoc. cbn [app].
      split; [eexists; split; [reflexivity | tauto]|].
      split; [discriminate|]. intros Hno. now destruct (Hno _ _ Ebuild). }
  destruct (code_add =? 0)%Z.
  2:{ cbn [disk written console commands fst snd]. rewrite Hc.
      rewrite <- !List.app_assoc. cbn [app].
      split; [eexists; split; [reflexivity | tauto]|].
      split; [discriminate|]. intros Hno. now destruct (Hno _ _ Ebuild). }
  cbn [disk written console commands].
  match goal with
  | |- context [respond ?s5 (GitCommit ?m)] =>
      destruct (respond s5 (GitCommit m)) as [code_commit err_commit|]
  end.
  2:{ cbn [disk written console commands fst snd]. rewrite Hc.
      rewrite <- !List.app_assoc. cbn [app].
      split; [eexists; split; [reflexivity | tauto]|].
      split; [discriminate|]. intros Hno. now destruct (Hno _ _ Ebuild). }
  destruct (code_commit =? 0)%Z;
    cbn [disk written console commands fst snd]; rewrite Hc;
    rewrite <- !List.app_assoc; cbn [app];
    (split; [eexists; split; [reflexivity | tauto]|]);
    (split; [try discriminate; reflexivity|]);
    intros Hno; now destruct (Hno _ _ Ebuild).
Qed.

Lemma wave4_commands_in_order_witness :
  commands
    (snd (execute_wave4_main.main true (fun _ _ => Ran 0 "")
            (mkSession [("src/data/paths/warrior.ts", Text "icon: 'Flame'");
                        ("src/constants/icons.ts",
                         Text "// Export all icon constants")]
                       [] [] []))) =
  [NpmRunBuild; GitAdd execute_wave4_main.files_to_commit;
   GitCommit execute_wave4_main.commit_message]
  /\
  fst (execute_wave4_main.main true (fun _ _ => Ran 1 "")
         (mkSession [("src/data/paths/warrior.ts", Text "icon: 'Flame'");
                     ("src/constants/icons.ts",
                      Text "// Export all icon constants")]
                    [] [] [])) <> inr tt.
Proof.
  split.
  - apply (proj1 (proj2 (wave4_commands_in_order
                           true (fun _ _ => Ran 0 "")
                           execute_wave4_main.files_to_update
                           (mkSession
                              [("src/data/paths/warrior.ts",
                                Text "icon: 'Flame'");
                               ("src/constants/icons.ts",
                                Text "// Export all icon constants")]
                              [] [] [])))).
    vm_compute. reflexivity.
  - refine (proj1 (proj2 (proj2 (wave4_commands_in_order
                                   true (fun _ _ => Ran 1 "")
                                   execute_wave4_main.files_to_update
                                   (mkSession
                                      [("src/data/paths/warrior.ts",
                                        Text "icon: 'Flame'");
                                       ("src/constants/icons.ts",
                                        Text "// Export all icon constants")]
                                      [] [] []))) _)).
    intros s1 stderr. discriminate.
Defined.

Lemma wave4_constants_unread (w : world) :
  lookup execute_wave4_updates.filepath (files w) = None ->
  execute_wave4_updates.update_icons_constants w =
  (inl (read_error execute_wave4_updates.filepath (files w)),
   mkWorld (files w) (writes w) (stdout w ++ [Step2Header])).
Proof.
  intros H.
  unfold execute_wave4_updates.update_icons_constants, inject, bind, print,
    read_file.
  cbn [files writes stdout]. now rewrite H.
Qed.

(** X15.  [main] of [execute_wave4_updates.py] with nothing at
    [src/constants/icons.ts], when each listed path file that exists can
    be read and one of them is changed by its replacements: the path files
    are rewritten first, then [update_icons_constants] raises
    [FileNotFoundError], which nothing catches; [main] ends with that
    exception, the writes of the path files stay, and neither the build
    nor [git] is run. *)
Theorem wave4_main_without_constants_file
        (respond : session -> command -> outcome)
        (todo : list (string * list entry)) (s : session)
        (t : string * list entry) (content : string) :
  (forall t', In t' todo ->
              unreadable (target execute_wave4_main.base_path t') (disk s)
              = false) ->
  In t todo ->
  lookup (target execute_wave4_main.base_path t) (disk s) = Some content ->
  wave4_text_of (snd t) content <> content ->
  present execute_wave4_updates.filepath (disk s) = false ->
  exists s' ws,
    execute_wave4_main.main_on true respond todo s =
    (inl (Raised FileNotFoundError), s') /\
    written s' = (written s ++ ws)%list /\ ws <> [] /\
    (forall wr, In wr ws ->
                exists t', In t' todo /\
                           fst wr = target execute_wave4_main.base_path t') /\
    present execute_wave4_updates.filepath (disk s') = false /\
    commands s' = commands s.
Proof.
  intros Hr Hin Hl Hne Hicons.
  unfold execute_wave4_main.main_on.
  cbv [and_then say exit pure]. cbn [disk written console commands].
  match goal with
  | |- context [execute_wave4_main.update_path_files_on todo ?s0] =>
      destruct (update_path_files_run todo s0 Hr) as [out Hout]
  end.
  cbv zeta in Hout. cbn [disk written console commands] in Hout.
  rewrite Hout. clear Hout.
  pose proof (writes_of_something execute_wave4_main.base_path wave4_text_of
                todo (disk s) t content Hin Hl Hne) as Hws.
  pose proof (writes_of_targets execute_wave4_main.base_path wave4_text_of
                todo (disk s)) as Htargets.
  pose proof (stored_same_paths execute_wave4_main.base_path
                wave4_text_of todo (disk s)
                execute_wave4_updates.filepath) as Hstill.
  rewrite Hicons in Hstill.
  destruct (writes_of execute_wave4_main.base_path wave4_text_of (disk s) todo)
    as [|wr ws] eqn:Ews; [now destruct Hws|].
  cbn [map]. unfold call. cbn [disk written console commands].
  rewrite wave4_constants_unread
    by (cbn [files]; now apply absent_lookup).
  cbn [files writes stdout].
  rewrite (absent_read_error _ _ Hstill).
  eexists _, (wr :: ws).
  split; [reflexivity|]. cbn [disk written console commands].
  split; [reflexivity|]. split; [discriminate|].
  split; [exact Htargets|]. split; [exact Hstill | reflexivity].
Qed.

Lemma wave4_main_without_constants_file_witness :
  exists s' ws,
    execute_wave4_main.main true (fun _ _ => Ran 0 "")
      (mkSession [("src/data/paths/warrior.ts", Text "icon: 'Flame'")]
                 [] [] []) =
    (inl (Raised FileNotFoundError), s') /\
    written s' = ws /\ ws <> [] /\ commands s' = [].
Proof.
  destruct (wave4_main_without_constants_file
              (fun _ _ => Ran 0 "") execute_wave4_main.files_to_update
              (mkSession [("src/data/paths/warrior.ts", Text "icon: 'Flame'")]
                         [] [] [])
              ("warrior.ts", execute_wave4_main.warrior_replacements)
              "icon: 'Flame'")
    as (s' & ws & Hrun & Hw & Hne & _ & _ & Hc).
  - intros t' Ht'.
    repeat (destruct Ht' as [<-|Ht']; [reflexivity|]). destruct Ht'.
  - now left.
  - reflexivity.
  - vm_compute. discriminate.
  - reflexivity.
  - exists s', ws. repeat split; assumption.
Defined.

(** X16.  The summary of [main] does not depend on what
    [update_icons_constants] returned: its value [icons_updated] is never
    read.  When [icons.ts] already names the block, the injector prints
    that the block exists, writes nothing and returns [False]; if each
    listed path file that exists can be read, one of them is changed and
    the three commands succeed, [main] still returns normally and its
    summary still says that [PATH_ABILITY_ICONS] was added, while
    [icons.ts] is as it was. *)
Theorem wave4_summary_ignores_injector
        (respond : session -> command -> outcome)
        (todo : list (string * list entry)) (s : session)
        (t : string * list entry) (content constants : string) :
  (forall t', In t' todo ->
              unreadable (target execute_wave4_main.base_path t') (disk s)
              = false) ->
  In t todo ->
  lookup (target execute_wave4_main.base_path t) (disk s) = Some content ->
  wave4_text_of (snd t) content <> content ->
  (forall t', In t' todo ->
              execute_wave4_updates.filepath <>
              target execute_wave4_main.base_path t') ->
  lookup execute_wave4_updates.filepath (disk s) = Some constants ->
  contains block_name constants = true ->
  (forall s1 c, exists stderr, respond s1 c = Ran 0 stderr) ->
  exists s',
    execute_wave4_main.main_on true respond todo s = (inr tt, s') /\
    In (Inner AlreadyExists) (console s') /\
    In (Outer SummaryAdded) (console s') /\
    lookup execute_wave4_updates.filepath (disk s') = Some constants /\
    (forall wr, In wr (written s') ->
                In wr (written s) \/ fst wr <> execute_wave4_updates.filepath).
Proof.
  intros Hr Hin Hl Hne Hapart Hicons Hblock Hok.
  unfold execute_wave4_main.main_on.
  cbv [and_then say exit pure]. cbn [disk written console commands].
  match goal with
  | |- context [execute_wave4_main.update_path_files_on todo ?s0] =>
      destruct (update_path_files_run todo s0 Hr) as [out Hout]
  end.
  cbv zeta in Hout. cbn [disk written console commands] in Hout.
  rewrite Hout. clear Hout.
  pose proof (writes_of_something execute_wave4_main.base_path wave4_text_of
                todo (disk s) t content Hin Hl Hne) as Hws.
  pose proof (writes_of_targets execute_wave4_main.base_path wave4_text_of
                todo (disk s)) as Htargets.
  assert (Hstill : lookup execute_wave4_updates.filepath
                     (stored (writes_of execute_wave4_main.base_path
                                wave4_text_of (disk s) todo) (disk s))
                   = Some constants).
  { unfold lookup.
    rewrite (stored_unlisted execute_wave4_main.base_path wave4_text_of
               todo execute_wave4_updates.filepath Hapart (disk s)).
    exact Hicons. }
  destruct (writes_of execute_wave4_main.base_path wave4_text_of (disk s) todo)
    as [|wr0 ws] eqn:Ews; [now destruct Hws|].
  cbn [map]. unfold call. cbn [disk written console commands].
  rewrite (wave4_constants_run _ constants) by exact Hstill.
  rewrite Hblock. cbn [files writes stdout].
  unfold execute_wave4_main.run_build, run_command.
  cbv [and_then say exit pure]. cbn [disk written console commands].
  match goal with
  | |- context [respond ?s3 NpmRunBuild] =>
      destruct (Hok s3 NpmRunBuild) as [err_build ->]
  end.
  cbn [Z.eqb disk written console commands].
  unfold execute_wave4_main.commit_changes, run_command.
  cbv [and_then say exit pure]. cbn [disk written console commands].
  match goal with
  | |- context [respond ?s4 (GitAdd ?fs)] =>
      destruct (Hok s4 (GitAdd fs)) as [err_add ->]
  end.
  cbn [Z.eqb disk written console commands].
  match goal with
  | |- context [respond ?s5 (GitCommit ?m)] =>
      destruct (Hok s5 (GitCommit m)) as [err_commit ->]
  end.
  cbn [Z.eqb disk written console commands].
  eexists. split; [reflexivity|]. cbn [disk written console commands].
  split; [|split; [|split; [exact Hstill|]]].
  - rewrite !in_app_iff. cbn. tauto.
  - rewrite !in_app_iff. cbn. tauto.
  - intros wr Hwr. apply in_app_or in Hwr as [Hwr|Hwr]; [now left|right].
    apply Htargets in Hwr as (t' & Ht' & ->). intros E.
    now apply (Hapart t' Ht').
Qed.

Lemma wave4_summary_ignores_injector_witness :
  exists s',
    execute_wave4_main.main true (fun _ _ => Ran 0 "")
      (mkSession [("src/data/paths/warrior.ts", Text "icon: 'Flame'");
                  ("src/constants/icons.ts",
                   Text "export const PATH_ABILITY_ICONS = 1")]
                 [] [] []) = (inr tt, s') /\
    In (Outer SummaryAdded) (console s') /\
    lookup "src/constants/icons.ts" (disk s') =
    Some "export const PATH_ABILITY_ICONS = 1".
Proof.
  destruct (wave4_summary_ignores_injector
              (fun _ _ => Ran 0 "") execute_wave4_main.files_to_update
              (mkSession [("src/data/paths/warrior.ts", Text "icon: 'Flame'");
                          ("src/constants/icons.ts",
                           Text "export const PATH_ABILITY_ICONS = 1")]
                         [] [] [])
              ("warrior.ts", execute_wave4_main.warrior_replacements)
              "icon: 'Flame'" "export const PATH_ABILITY_ICONS = 1")
    as (s' & Hrun & _ & Hsum & Hl & _).
  - intros t' Ht'.
    repeat (destruct Ht' as [<-|Ht']; [reflexivity|]). destruct Ht'.
  - now left.
  - reflexivity.
  - vm_compute. discriminate.
  - intros t' Ht'.
    repeat (destruct Ht' as [<-|Ht']; [vm_compute; discriminate|]).
    destruct Ht'.
  - reflexivity.
  - reflexivity.
  - intros s1 c. now exists "".
  - exists s'. repeat split; assumption.
Defined.

(* ================================================================== *)
(** * Further properties: [scripts/create_health_icon.py] *)
(* ================================================================== *)

Section Pixels.

Import create_health_icon.

Lemma list_set_length {A : Type} (n : nat) (v : A) (l : list A) :
  List.length (list_set n v l) = List.length l.
Proof.
  revert n. induction l as [|a l IH]; intros [|n]; cbn; auto.
Qed.

Lemma list_set_same {A : Type} (n : nat) (v : A) (l : list A) :
  n < List.length l -> nth_error (list_set n v l) n = Some v.
Proof.
  revert n. induction l as [|a l IH]; intros [|n]; cbn; intros H;
    try lia; [reflexivity|]. apply IH. lia.
Qed.

Lemma list_set_other {A : Type} (n m : nat) (v : A) (l : list A) :
  n <> m -> nth_error (list_set n v l) m = nth_error l m.
Proof.
  revert n m. induction l as [|a l IH]; intros [|n] [|m] H; cbn; auto;
    try congruence.
Qed.

Lemma list_set_Forall {A : Type} (P : A -> Prop) (n : nat) (v : A) (l : list A) :
  P v -> Forall P l -> Forall P (list_set n v l).
Proof.
  intros Hv H. revert n. induction H as [|a l Ha Hl IH]; intros [|n]; cbn;
    constructor; auto.
Qed.

Lemma put_pixel_size (x y : nat) (color : colour) (pixels : image) :
  is_16x16 pixels -> is_16x16 (put_pixel x y color pixels).
Proof.
  intros [Hl Hr]. unfold put_pixel.
  destruct (nth_error pixels y) as [row|] eqn:E; [|now split].
  split; [now rewrite list_set_length|].
  apply list_set_Forall; [|exact Hr].
  rewrite list_set_length. rewrite Forall_forall in Hr. apply Hr.
  eapply nth_error_In, E.
Qed.

Lemma get_put_same (x y : nat) (color : colour) (pixels : image) :
  is_16x16 pixels -> x < 16 -> y < 16 ->
  get_pixel x y (put_pixel x y color pixels) = Some color.
Proof.
  intros [Hl Hr] Hx Hy. unfold put_pixel, get_pixel.
  destruct (nth_error pixels y) as [row|] eqn:E.
  - rewrite list_set_same by lia. apply list_set_same.
    rewrite Forall_forall in Hr. rewrite (Hr row); [lia|].
    eapply nth_error_In, E.
  - apply nth_error_None in E. lia.
Qed.

Lemma get_put_other (x y x' y' : nat) (color : colour) (pixels : image) :
  (x, y) <> (x', y') ->
  get_pixel x' y' (put_pixel x y color pixels) = get_pixel x' y' pixels.
Proof.
  intros H. unfold put_pixel, get_pixel.
  destruct (nth_error pixels y) as [row|] eqn:E; [|reflexivity].
  destruct (Nat.eq_dec y y') as [<-|Hy].
  - destruct (Nat.lt_ge_cases y (List.length pixels)) as [Hlt|Hge].
    + rewrite list_set_same by exact Hlt. rewrite E.
      apply list_set_other. congruence.
    + apply nth_error_None in Hge. congruence.
  - now rewrite list_set_other.
Qed.

Lemma paint_size (x y : Z) (color : colour) (pixels : image) :
  is_16x16 pixels -> is_16x16 (paint x y color pixels).
Proof.
  intros H. unfold paint. destruct (within x y); [|exact H].
  now apply put_pixel_size.
Qed.

Lemma painted_size (calls : list (Z * Z * colour)) :
  forall pixels, is_16x16 pixels -> is_16x16 (painted calls pixels).
Proof.
  unfold painted. induction calls as [|[[x y] color] rest IH]; intros pixels H;
    [exact H|].
  cbn [fold_left]. apply IH. now apply paint_size.
Qed.

Lemma in_image (x y : Z) :
  within x y = true <-> (0 <= x < 16)%Z /\ (0 <= y < 16)%Z.
Proof.
  unfold within. rewrite !andb_true_iff, !Z.leb_le, !Z.ltb_lt. lia.
Qed.

Lemma paint_get (x y : Z) (color : colour) (pixels : image) (x' y' : nat) :
  is_16x16 pixels -> x' < 16 -> y' < 16 ->
  get_pixel x' y' (paint x y color pixels) =
  if ((x =? Z.of_nat x') && (y =? Z.of_nat y'))%Z then Some (clip color)
  else get_pixel x' y' pixels.
Proof.
  intros Hs Hx Hy. unfold paint.
  destruct (within x y) eqn:G.
  - apply in_image in G.
    destruct ((x =? Z.of_nat x') && (y =? Z.of_nat y'))%Z eqn:E.
    + apply andb_true_iff in E as [Ex Ey].
      apply Z.eqb_eq in Ex, Ey. subst x y.
      rewrite !Nat2Z.id. now apply get_put_same.
    + apply get_put_other. intros [= Hx' Hy'].
      apply andb_false_iff in E as [E|E]; apply Z.eqb_neq in E; lia.
  - destruct ((x =? Z.of_nat x') && (y =? Z.of_nat y'))%Z eqn:E;
      [|reflexivity].
    apply andb_true_iff in E as [Ex Ey]. apply Z.eqb_eq in Ex, Ey.
    assert (G' : (0 <= x < 16)%Z /\ (0 <= y < 16)%Z) by lia.
    apply in_image in G'. congruence.
Qed.

(** A call raises or paints. *)
Lemma set_pixel_paint (x y : Z) (color : colour) (pixels : image) :
  set_pixel x y color pixels =
  if raises (x, y, color) then inl OverflowError
  else inr (paint x y color pixels).
Proof.
  unfold set_pixel, raises, paint, getink. fold (within x y).
  destruct (within x y); [|reflexivity].
  now destruct (accepted color).
Qed.

(** A run of calls raises when one of them does, and paints otherwise. *)
Lemma draw_painted (calls : list (Z * Z * colour)) :
  forall pixels,
    draw calls pixels =
    if existsb raises calls then inl OverflowError
    else inr (painted calls pixels).
Proof.
  induction calls as [|[[x y] color] rest IH]; intros pixels; [reflexivity|].
  cbn [draw existsb]. rewrite set_pixel_paint.
  destruct (raises (x, y, color)); [reflexivity|].
  cbn [orb]. apply IH.
Qed.

Lemma is_rgba_clip (color : colour) :
  is_rgba color = true -> accepted color = true /\ clip color = color.
Proof.
  destruct color as [[[r g] b] a]. unfold is_rgba, accepted, clip.
  rewrite !andb_true_iff, !Z.leb_le, !Z.ltb_lt.
  intros H. split.
  - unfold fits_long_long, fits_int.
    rewrite !andb_true_iff, !Z.leb_le, !Z.ltb_lt.
    assert (2 ^ 31 = 2147483648)%Z by reflexivity.
    assert (2 ^ 63 = 9223372036854775808)%Z by reflexivity.
    lia.
  - unfold CLIP8.
    repeat match goal with
           | |- context [(?v <=? 0)%Z] =>
               destruct (Z.leb_spec v 0)
           | |- context [(?v <? 256)%Z] =>
               destruct (Z.ltb_spec v 256)
           end; repeat f_equal; lia.
Qed.

(** X17.  [set_pixel] on an image of 16 by 16 pixels.  With a coordinate
    below 0 or above 15 nothing changes, whatever the colour, so a
    negative coordinate does not reach a pixel counted from the other
    end.  With both coordinates between 0 and 15 and a colour Pillow does
    not accept the call raises [OverflowError]; with one it accepts, the
    image keeps its size, the pixel named holds the colour with each of
    its four integers brought into 0..255, and every other pixel is what
    it was.  A colour of four integers between 0 and 255 is accepted and
    stored as it is. *)
Theorem set_pixel_writes_one_pixel
        (x y : Z) (color : colour) (pixels : image) :
  is_16x16 pixels ->
  (~ ((0 <= x < 16)%Z /\ (0 <= y < 16)%Z) ->
   set_pixel x y color pixels = inr pixels) /\
  ((0 <= x < 16)%Z -> (0 <= y < 16)%Z -> accepted color = false ->
   set_pixel x y color pixels = inl OverflowError) /\
  ((0 <= x < 16)%Z -> (0 <= y < 16)%Z -> accepted color = true ->
   exists pixels',
     set_pixel x y color pixels = inr pixels' /\
     is_16x16 pixels' /\
     get_pixel (Z.to_nat x) (Z.to_nat y) pixels' = Some (clip color) /\
     forall x' y',
       x' < 16 -> y' < 16 -> (Z.of_nat x', Z.of_nat y') <> (x, y) ->
       get_pixel x' y' pixels' = get_pixel x' y' pixels) /\
  (is_rgba color = true -> accepted color = true /\ clip color = color).
Proof.
  intros Hs. rewrite set_pixel_paint. unfold raises.
  split; [|split; [|split]].
  - intros Hout. unfold paint. destruct (within x y) eqn:G; [|reflexivity].
    apply in_image in G. now destruct Hout.
  - intros Hx Hy Ha.
    rewrite (proj2 (in_image x y) (conj Hx Hy)), Ha. reflexivity.
  - intros Hx Hy Ha.
    rewrite (proj2 (in_image x y) (conj Hx Hy)), Ha. cbn [negb andb].
    exists (paint x y color pixels). split; [reflexivity|].
    split; [now apply paint_size|]. split.
    + rewrite paint_get by (try exact Hs; lia).
      rewrite !Z2Nat.id by lia. now rewrite !Z.eqb_refl.
    + intros x' y' Hx' Hy' Hne. rewrite paint_get by assumption.
      destruct ((x =? Z.of_nat x') && (y =? Z.of_nat y'))%Z eqn:E;
        [|reflexivity].
      apply andb_true_iff in E as [Ex Ey]. apply Z.eqb_eq in Ex, Ey.
      congruence.
  - apply is_rgba_clip.
Qed.

Lemma new_image_size : is_16x16 new_image.
Proof. split; [reflexivity|]. unfold new_image. repeat constructor. Qed.

Lemma set_pixel_writes_one_pixel_witness :
  set_pixel (-1) 3 OUTLINE new_image = inr new_image /\
  set_pixel 4 1 (0, 2 ^ 31, 0, 255)%Z new_image = inl OverflowError /\
  exists pixels',
    set_pixel 4 1 (300, -7, 26, 255)%Z new_image = inr pixels' /\
    get_pixel 4 1 pixels' = Some (255, 0, 26, 255)%Z.
Proof.
  destruct (set_pixel_writes_one_pixel (-1) 3 OUTLINE new_image new_image_size)
    as (Hout & _).
  destruct (set_pixel_writes_one_pixel 4 1 (0, 2 ^ 31, 0, 255)%Z new_image
              new_image_size) as (_ & Hraise & _).
  destruct (set_pixel_writes_one_pixel 4 1 (300, -7, 26, 255)%Z new_image
              new_image_size) as (_ & _ & Hin & _).
  split; [apply Hout; lia|].
  split; [apply Hraise; [lia | lia | reflexivity]|].
  destruct (Hin ltac:(lia) ltac:(lia) eq_refl) as (pixels' & E & _ & Hg & _).
  exists pixels'. split; [exact E | exact Hg].
Defined.

Lemma painted_get (calls : list (Z * Z * colour)) :
  forall pixels x y,
    is_16x16 pixels -> x < 16 -> y < 16 ->
    get_pixel x y (painted calls pixels) =
    match last_call (Z.of_nat x) (Z.of_nat y) calls with
    | Some color => Some (clip color)
    | None => get_pixel x y pixels
    end.
Proof.
  induction calls as [|[[x0 y0] color] rest IH]; intros pixels x y Hs Hx Hy;
    [reflexivity|].
  unfold painted. cbn [fold_left last_call].
  fold (painted rest (paint x0 y0 color pixels)).
  rewrite IH by (try apply paint_size; assumption).
  destruct (last_call (Z.of_nat x) (Z.of_nat y) rest); [reflexivity|].
  rewrite paint_get by assumption.
  now destruct (_ && _)%bool.
Qed.

(** X18.  A run of calls of [set_pixel] on an image of 16 by 16 pixels.
    When one of the calls names a pixel of the image with a colour Pillow
    does not accept, the run raises [OverflowError].  Otherwise it gives
    an image of the same size in which each pixel holds the colour of the
    last call that names it, each of its four integers brought into
    0..255, and what it held before when no call names it. *)
Theorem last_call_wins (calls : list (Z * Z * colour)) (pixels : image)
        (x y : nat) :
  is_16x16 pixels -> x < 16 -> y < 16 ->
  (existsb raises calls = true -> draw calls pixels = inl OverflowError) /\
  (existsb raises calls = false ->
   exists pixels',
     draw calls pixels = inr pixels' /\
     is_16x16 pixels' /\
     get_pixel x y pixels' =
     match last_call (Z.of_nat x) (Z.of_nat y) calls with
     | Some color => Some (clip color)
     | None => get_pixel x y pixels
     end).
Proof.
  intros Hs Hx Hy. rewrite draw_painted. split; intros ->; [reflexivity|].
  exists (painted calls pixels). split; [reflexivity|].
  split; [now apply painted_size | now apply painted_get].
Qed.

Lemma last_call_wins_witness :
  exists pixels',
    draw [(4, 1, BASE); (20, 1, (0, 2 ^ 40, 0, 0)); (4, 1, (122, 26, 26, 256))]%Z
         new_image = inr pixels' /\
    get_pixel 4 1 pixels' = Some OUTLINE.
Proof.
  destruct (last_call_wins
              [(4, 1, BASE); (20, 1, (0, 2 ^ 40, 0, 0));
               (4, 1, (122, 26, 26, 256))]%Z
              new_image 4 1 new_image_size ltac:(lia) ltac:(lia))
    as (_ & Hok).
  destruct (Hok eq_refl) as (pixels' & E & _ & Hg).
  exists pixels'. split; [exact E | exact Hg].
Defined.

Lemma rows_ext (r r' : list colour) :
  List.length r = 16 -> List.length r' = 16 ->
  (forall x, x < 16 -> nth_error r x = nth_error r' x) -> r = r'.
Proof.
  intros Hr Hr' H. apply nth_error_ext. intros x.
  destruct (Nat.lt_ge_cases x 16) as [Hx|Hx]; [now apply H|].
  rewrite (proj2 (nth_error_None r x)) by lia.
  now rewrite (proj2 (nth_error_None r' x)) by lia.
Qed.

Lemma image_ext (p q : image) :
  is_16x16 p -> is_16x16 q ->
  (forall x y, x < 16 -> y < 16 -> get_pixel x y p = get_pixel x y q) ->
  p = q.
Proof.
  intros [Hp Hpr] [Hq Hqr] H. apply nth_error_ext. intros y.
  destruct (Nat.lt_ge_cases y 16) as [Hy|Hy].
  - destruct (nth_error p y) as [r|] eqn:Er;
      [|apply nth_error_None in Er; lia].
    destruct (nth_error q y) as [r'|] eqn:Er';
      [|apply nth_error_None in Er'; lia].
    f_equal. rewrite Forall_forall in Hpr, Hqr.
    apply rows_ext.
    + apply Hpr. eapply nth_error_In, Er.
    + apply Hqr. eapply nth_error_In, Er'.
    + intros x Hx. specialize (H x y Hx Hy). unfold get_pixel in H.
      now rewrite Er, Er' in H.
  - rewrite (proj2 (nth_error_None p y)) by lia.
    now rewrite (proj2 (nth_error_None q y)) by lia.
Qed.

Lemma last_call_named (x y : Z) (calls : list (Z * Z * colour)) (color : colour) :
  last_call x y calls = Some color -> In (x, y, color) calls.
Proof.
  induction calls as [|[[x0 y0] c0] rest IH]; cbn [last_call]; [discriminate|].
  destruct (last_call x y rest) as [later|].
  - intros [= <-]. right. now apply IH.
  - destruct ((x0 =? x) && (y0 =? y))%Z eqn:E; [|discriminate].
    apply andb_true_iff in E as [Ex Ey]. apply Z.eqb_eq in Ex, Ey.
    intros [= <-]. left. congruence.
Qed.

Lemma last_call_of_named (x y : Z) (calls : list (Z * Z * colour))
      (color : colour) :
  NoDup (map coordinates calls) -> In (x, y, color) calls ->
  last_call x y calls = Some color.
Proof.
  induction calls as [|[[x0 y0] c0] rest IH]; intros Hd Hin; [destruct Hin|].
  cbn [map] in Hd. inversion Hd as [|? ? Hnot Hrest]; subst.
  cbn [last_call]. destruct Hin as [[= -> -> ->]|Hin].
  - destruct (last_call x y rest) as [later|] eqn:E.
    + apply last_call_named in E. exfalso. apply Hnot.
      change (x, y) with (coordinates (x, y, later)). now apply in_map.
    + now rewrite !Z.eqb_refl.
  - now rewrite (IH Hrest Hin).
Qed.

Lemma last_call_permuted (x y : Z) (calls calls' : list (Z * Z * colour)) :
  NoDup (map coordinates calls) -> Permutation calls calls' ->
  last_call x y calls = last_call x y calls'.
Proof.
  intros Hd Hp.
  assert (Hd' : NoDup (map coordinates calls')).
  { eapply Permutation_NoDup; [|exact Hd]. now apply Permutation_map. }
  destruct (last_call x y calls) as [c|] eqn:E.
  - symmetry. apply last_call_of_named; [exact Hd'|].
    eapply Permutation_in; [exact Hp|]. now apply last_call_named.
  - destruct (last_call x y calls') as [c'|] eqn:E'; [|reflexivity].
    apply last_call_named in E'.
    apply (Permutation_in _ (Permutation_sym Hp)) in E'.
    apply (last_call_of_named _ _ _ _ Hd) in E'. congruence.
Qed.

Lemma existsb_permuted {A : Type} (f : A -> bool) (l l' : list A) :
  Permutation l l' -> existsb f l = existsb f l'.
Proof.
  induction 1 as [|a l l' _ IH|a b l|l l' l'' _ IH _ IH']; cbn.
  - reflexivity.
  - now rewrite IH.
  - now destruct (f a), (f b).
  - congruence.
Qed.

(** X19.  When no two calls of a run name the same pixel, the order of
    the calls does not matter: every reordering of the run draws the same
    image.  The 136 calls of the script are such a run, all within the
    image, so the icon does not depend on the order in which the rows are
    drawn. *)
Theorem distinct_pixels_commute (calls calls' : list (Z * Z * colour))
        (pixels : image) :
  is_16x16 pixels ->
  NoDup (map coordinates calls) ->
  Permutation calls calls' ->
  draw calls pixels = draw calls' pixels.
Proof.
  intros Hs Hd Hp. rewrite !draw_painted.
  rewrite (existsb_permuted raises calls calls' Hp).
  destruct (existsb raises calls'); [reflexivity|]. f_equal.
  apply image_ext; try now apply painted_size.
  intros x y Hx Hy. rewrite !painted_get by assumption.
  now rewrite (last_call_permuted _ _ calls calls' Hd Hp).
Qed.

Lemma coordinates_eq_dec (a b : Z * Z) : {a = b} + {a <> b}.
Proof. decide equality; apply Z.eq_dec. Defined.

Lemma heart_calls_distinct : NoDup (map coordinates heart_calls).
Proof.
  assert (E : nodup coordinates_eq_dec (map coordinates heart_calls) =
              map coordinates heart_calls) by (vm_compute; reflexivity).
  rewrite <- E. apply NoDup_nodup.
Qed.

Lemma distinct_pixels_commute_witness :
  draw heart_calls new_image = draw (rev heart_calls) new_image.
Proof.
  apply (distinct_pixels_commute heart_calls (rev heart_calls) new_image
           new_image_size heart_calls_distinct (Permutation_rev heart_calls)).
Defined.

Lemma heart_calls_paint : existsb raises heart_calls = false.
Proof. vm_compute. reflexivity. Qed.

Lemma heart_calls_rgba :
  forallb (fun call => is_rgba (snd call)) heart_calls = true.
Proof. vm_compute. reflexivity. Qed.

(** X24.  The script draws its icon without raising: the image saved has
    16 by 16 pixels, and each holds exactly the palette colour of the call
    that names it, and is transparent when no call names it. *)
Theorem health_icon_pixels (x y : nat) :
  x < 16 -> y < 16 ->
  exists pixels,
    health_icon = inr pixels /\
    is_16x16 pixels /\
    get_pixel x y pixels =
    Some match last_call (Z.of_nat x) (Z.of_nat y) heart_calls with
         | Some color => color
         | None => transparent
         end.
Proof.
  intros Hx Hy. unfold health_icon.
  rewrite draw_painted, heart_calls_paint.
  exists (painted heart_calls new_image). split; [reflexivity|].
  split; [apply painted_size, new_image_size|].
  rewrite painted_get by (try apply new_image_size; assumption).
  destruct (last_call (Z.of_nat x) (Z.of_nat y) heart_calls) as [color|] eqn:E.
  - apply last_call_named in E.
    pose proof heart_calls_rgba as H. rewrite forallb_forall in H.
    specialize (H _ E). cbn [snd] in H.
    now rewrite (proj2 (is_rgba_clip color H)).
  - unfold get_pixel, new_image.
    rewrite nth_error_repeat by exact Hy.
    now rewrite nth_error_repeat by exact Hx.
Qed.

Lemma health_icon_pixels_witness :
  exists pixels,
    health_icon = inr pixels /\
    get_pixel 13 7 pixels = Some SHADOW /\
    get_pixel 0 0 pixels = Some transparent.
Proof.
  destruct (health_icon_pixels 13 7 ltac:(lia) ltac:(lia))
    as (pixels & E & _ & Hs).
  destruct (health_icon_pixels 0 0 ltac:(lia) ltac:(lia))
    as (pixels0 & E0 & _ & Ht).
  exists pixels. split; [exact E|]. split; [exact Hs|].
  assert (Eq : pixels0 = pixels).
  { rewrite E in E0. now injection E0. }
  rewrite <- Eq. exact Ht.
Defined.

End Pixels.
(** ** The entry points at a file that exists and cannot be read *)

Section Blocked.

Variable base : string.
Variable transform : list entry -> string -> string.

(** The writes of the files before it leave an unreadable file as it is. *)
Lemma blocked_after_writes (before : list (string * list entry))
      (d : list (string * file)) (p : string) :
  unreadable p d = true ->
  unreadable p (stored (writes_of base transform d before) d) = true /\
  read_error p (stored (writes_of base transform d before) d) = read_error p d.
Proof.
  intros H. pose proof H as H'. apply unreadable_lookup in H' as [_ Hl].
  unfold unreadable, read_error in *.
  now rewrite (stored_unread base transform before p d Hl).
Qed.

End Blocked.

Lemma read_error_of_unreadable (p : string) (d : list (string * file)) :
  unreadable p d = true ->
  In (read_error p d) [UnicodeDecodeError; IsADirectoryError; PermissionError].
Proof.
  unfold unreadable, read_error.
  destruct (find_file p d) as [[c| | |]|]; try discriminate; intros _; cbn;
    tauto.
Qed.

(** X21.  [main] of [apply_icon_updates.py] stops at the first listed
    file that exists and cannot be read as text (bytes that do not decode,
    a directory, a file that may not be opened): the exception of the
    [open] or [read] ends [main], since nothing catches it.  The files
    listed before it have been dealt with and their writes stay; the
    files listed after it are not written. *)
Theorem apply_main_stops_at_unreadable_file
        (before after : list (string * list entry)) (t : string * list entry)
        (s : session) :
  (forall t', In t' before ->
              unreadable (target apply_icon_updates_main.base_path t') (disk s)
              = false) ->
  unreadable (target apply_icon_updates_main.base_path t) (disk s) = true ->
  let ws := writes_of apply_icon_updates_main.base_path
                      apply_icon_updates.replace_all_entries (disk s) before in
  let e := read_error (target apply_icon_updates_main.base_path t) (disk s) in
  In e [UnicodeDecodeError; IsADirectoryError; PermissionError] /\
  exists out,
    apply_icon_updates_main.main_on (before ++ t :: after) s =
    (inl (Raised e),
     mkSession (stored ws (disk s)) (written s ++ ws) (console s ++ out)
               (commands s)).
Proof.
  intros Hr Hb ws e. split; [now apply read_error_of_unreadable|].
  destruct (apply_update_files_app before (t :: after) 0 s Hr) as [out Hout].
  cbv zeta in Hout. fold ws in Hout.
  destruct (blocked_after_writes apply_icon_updates_main.base_path
              apply_icon_updates.replace_all_entries before (disk s) _ Hb)
    as [Hb' He]. fold ws in Hb', He.
  unfold apply_icon_updates_main.main_on, and_then. rewrite Hout.
  rewrite apply_update_files_blocked by exact Hb'.
  cbn [disk]. rewrite He. fold e.
  now exists out.
Qed.

Lemma apply_main_stops_at_unreadable_file_witness :
  exists out,
    apply_icon_updates_main.main
      (mkSession
         [("/Users/gilbrowdy/rogue-wave4-data/src/data/paths/warrior.ts",
           Text "icon: 'Flame'");
          ("/Users/gilbrowdy/rogue-wave4-data/src/data/paths/mage.ts",
           Undecodable);
          ("/Users/gilbrowdy/rogue-wave4-data/src/data/paths/rogue.ts",
           Text "icon: 'Ghost'")] [] [] []) =
    (inl (Raised UnicodeDecodeError),
     mkSession
       [("/Users/gilbrowdy/rogue-wave4-data/src/data/paths/warrior.ts",
         Text "icon: 'ability-paths-warrior-blood_rage'");
        ("/Users/gilbrowdy/rogue-wave4-data/src/data/paths/mage.ts",
         Undecodable);
        ("/Users/gilbrowdy/rogue-wave4-data/src/data/paths/rogue.ts",
         Text "icon: 'Ghost'")]
       [("/Users/gilbrowdy/rogue-wave4-data/src/data/paths/warrior.ts",
         "icon: 'ability-paths-warrior-blood_rage'")]
       out []).
Proof.
  destruct (apply_main_stops_at_unreadable_file
              [("warrior.ts", apply_icon_updates_main.warrior_replacements)]
              [("rogue.ts", apply_icon_updates_main.rogue_replacements);
               ("paladin.ts", apply_icon_updates_main.paladin_replacements)]
              ("mage.ts", apply_icon_updates_main.mage_replacements)
              (mkSession
                 [("/Users/gilbrowdy/rogue-wave4-data/src/data/paths/warrior.ts",
                   Text "icon: 'Flame'");
                  ("/Users/gilbrowdy/rogue-wave4-data/src/data/paths/mage.ts",
                   Undecodable);
                  ("/Users/gilbrowdy/rogue-wave4-data/src/data/paths/rogue.ts",
                   Text "icon: 'Ghost'")] [] [] []))
    as (_ & out & Hrun).
  - intros t' [<-|[]]. reflexivity.
  - reflexivity.
  - exists ([] ++ out)%list. exact Hrun.
Defined.

(** X22.  [main] of [update_path_icons.py], with the tables of the
    script in whatever order each set is iterated, stops at the first of
    the four files that exists and cannot be read as text: the exception
    of the [open] or [read] ends [main].  The files before it have been
    dealt with and their writes stay; the files after it are not
    written. *)
Theorem path_icons_main_stops_at_unreadable_file
        (before after : list (string * list entry)) (t : string * list entry)
        (s : session) :
  update_path_icons_main.iteration_of (before ++ t :: after) ->
  (forall t', In t' before ->
              unreadable (target update_path_icons_main.base_path t') (disk s)
              = false) ->
  unreadable (target update_path_icons_main.base_path t) (disk s) = true ->
  let ws := writes_of update_path_icons_main.base_path anchored_text
                      (disk s) before in
  let e := read_error (target update_path_icons_main.base_path t) (disk s) in
  In e [UnicodeDecodeError; IsADirectoryError; PermissionError] /\
  exists out,
    update_path_icons_main.main_on (before ++ t :: after) s =
    (inl (Raised e),
     mkSession (stored ws (disk s)) (written s ++ ws) (console s ++ out)
               (commands s)).
Proof.
  intros Hit Hr Hb ws e. split; [now apply read_error_of_unreadable|].
  pose proof (iteration_of_plain _ Hit) as Hplain.
  apply Forall_app in Hplain as [Hplain _].
  destruct (anchored_update_files_app before (t :: after) Hplain 0 s Hr)
    as [out Hout].
  cbv zeta in Hout. fold ws in Hout.
  destruct (blocked_after_writes update_path_icons_main.base_path
              anchored_text before (disk s) _ Hb)
    as [Hb' He]. fold ws in Hb', He.
  unfold update_path_icons_main.main_on, and_then. rewrite Hout.
  rewrite anchored_update_files_blocked by exact Hb'.
  cbn [disk written console commands]. rewrite He. fold e.
  eexists. now rewrite <- List.app_assoc.
Qed.

Lemma path_icons_main_stops_at_unreadable_file_witness :
  exists s',
    update_path_icons_main.main
      (mkSession
         [("/Users/gilbrowdy/rogue-wave4-data/src/data/paths/warrior.ts",
           Directory)] [] [] []) =
    (inl (Raised IsADirectoryError), s') /\
    written s' = [].
Proof.
  destruct (path_icons_main_stops_at_unreadable_file
              []
              [("mage.ts", update_path_icons_main.MAGE_ICONS);
               ("rogue.ts", update_path_icons_main.ROGUE_ICONS);
               ("paladin.ts", update_path_icons_main.PALADIN_ICONS)]
              ("warrior.ts", update_path_icons.WARRIOR_ICONS)
              (mkSession
                 [("/Users/gilbrowdy/rogue-wave4-data/src/data/paths/warrior.ts",
                   Directory)] [] [] []))
    as (_ & out & Hrun).
  - repeat constructor.
  - intros t' [].
  - reflexivity.
  - eexists. split; [exact Hrun | reflexivity].
Defined.

Lemma update_path_files_blocked
      (before after : list (string * list entry)) (t : string * list entry)
      (s : session) :
  (forall t', In t' before ->
              unreadable (target execute_wave4_main.base_path t') (disk s)
              = false) ->
  unreadable (target execute_wave4_main.base_path t) (disk s) = true ->
  let ws := writes_of execute_wave4_main.base_path wave4_text_of
                      (disk s) before in
  exists out,
    execute_wave4_main.update_path_files_on (before ++ t :: after) s =
    (inl (Raised (read_error (target execute_wave4_main.base_path t) (disk s))),
     mkSession (stored ws (disk s)) (written s ++ ws) (console s ++ out)
               (commands s)).
Proof.
  intros Hr Hb ws.
  unfold execute_wave4_main.update_path_files_on.
  unfold and_then at 1. unfold say at 1.
  destruct (wave4_update_files_app
              before (t :: after) []
              (mkSession (disk s) (written s)
                         (console s ++ [Outer Step1Header]) (commands s)) Hr)
    as [out Hout].
  cbv zeta in Hout. cbn [disk written console commands app] in Hout.
  fold ws in Hout.
  destruct (blocked_after_writes execute_wave4_main.base_path
              wave4_text_of before (disk s) _ Hb)
    as [Hb' He]. fold ws in Hb', He.
  unfold and_then at 1. rewrite Hout.
  rewrite wave4_update_files_blocked by exact Hb'.
  cbn [disk written console commands]. rewrite He.
  eexists. now rewrite <- !List.app_assoc.
Qed.

(** X23.  [main] of [execute_wave4_updates.py], after a change of
    directory that succeeds, stops at the first listed path file that
    exists and cannot be read as text: the exception of the [open] or
    [read] in [replace_icons_in_file] ends [update_path_files] and
    [main].  The files listed before it have been rewritten and stay so;
    the constants file is not touched, and neither the build nor [git] is
    run. *)
Theorem wave4_main_stops_at_unreadable_file
        (respond : session -> command -> outcome)
        (before after : list (string * list entry)) (t : string * list entry)
        (s : session) :
  (forall t', In t' before ->
              unreadable (target execute_wave4_main.base_path t') (disk s)
              = false) ->
  unreadable (target execute_wave4_main.base_path t) (disk s) = true ->
  let ws := writes_of execute_wave4_main.base_path wave4_text_of
                      (disk s) before in
  let e := read_error (target execute_wave4_main.base_path t) (disk s) in
  In e [UnicodeDecodeError; IsADirectoryError; PermissionError] /\
  exists out,
    execute_wave4_main.main_on true respond (before ++ t :: after) s =
    (inl (Raised e),
     mkSession (stored ws (disk s)) (written s ++ ws) (console s ++ out)
               (commands s)).
Proof.
  intros Hr Hb ws e. split; [now apply read_error_of_unreadable|].
  unfold execute_wave4_main.main_on.
  cbv [and_then say exit pure]. cbn [disk written console commands].
  match goal with
  | |- context [execute_wave4_main.update_path_files_on _ ?s0] =>
      destruct (update_path_files_blocked before after t s0 Hr Hb)
        as [out Hout]
  end.
  cbv zeta in Hout. cbn [disk written console commands] in Hout.
  rewrite Hout. fold ws. fold e.
  eexists. now rewrite <- !List.app_assoc.
Qed.

Lemma wave4_main_stops_at_unreadable_file_witness :
  exists s',
    execute_wave4_main.main true (fun _ _ => Ran 0 "")
      (mkSession [("src/data/paths/warrior.ts", Text "icon: 'Flame'");
                  ("src/data/paths/mage.ts", Undecodable);
                  ("src/constants/icons.ts",
                   Text "// Export all icon constants")] [] [] []) =
    (inl (Raised UnicodeDecodeError), s') /\
    written s' =
    [("src/data/paths/warrior.ts",
      "icon: 'ability-paths-warrior-blood_rage'")] /\
    commands s' = [].
Proof.
  destruct (wave4_main_stops_at_unreadable_file
              (fun _ _ => Ran 0 "")
              [("warrior.ts", execute_wave4_main.warrior_replacements)]
              [("rogue.ts", execute_wave4_main.rogue_replacements);
               ("paladin.ts", execute_wave4_main.paladin_replacements)]
              ("mage.ts", execute_wave4_main.mage_replacements)
              (mkSession [("src/data/paths/warrior.ts", Text "icon: 'Flame'");
                          ("src/data/paths/mage.ts", Undecodable);
                          ("src/constants/icons.ts",
                           Text "// Export all icon constants")] [] [] []))
    as (_ & out & Hrun).
  - intros t' [<-|[]]. reflexivity.
  - reflexivity.
  - eexists. split; [exact Hrun|]. split; reflexivity.
Defined.

